(** * BrainBox SQLite layer of NeuroVault: a shallow embedding

    This development embeds [BrainBoxDB] (the Hebbian memory engine behind
    the NeuroVault plugin: [record], [recall], [decay], [close]) and states
    the properties its specification gives.  Further on it embeds [stats]
    and the [sanitizePrompt] of the plugin, and states properties that the
    code shows beyond its specification.

    Modelling conventions.
    - A [REAL] column and a JavaScript number holding a score are exact
      rationals ([Q]); an [INTEGER] column is a [Z].
    - A timestamp is the number of milliseconds since the epoch ([Z]); the
      clock ([new Date()], [Date.now()]) is an argument [now] of every
      operation that reads it.
    - A table is the list of its rows in rowid order (the order of a table
      scan); an [ORDER BY] is a stable sort of that list.
    - Text is a [string] of 8-bit characters; case folding touches the ASCII
      letters only.
    - [JSON.stringify] and [JSON.parse] are embedded for what the engine
      stores, arrays of strings: a decoder of such arrays and a recogniser of
      the JSON grammar, which tells a text that is not JSON (a [SyntaxError])
      from a JSON value of another shape (beyond the embedding).
    - A method that can throw returns the engine it leaves behind together
      with an [outcome]. *)

From Stdlib Require Import ZArith QArith Qminmax List String Ascii Bool Lia Lqa DecimalString.
From Stdlib Require Import Qpower Permutation Sorted.
Import ListNotations.

Local Open Scope string_scope.
Local Open Scope Z_scope.
Local Open Scope Q_scope.

(** ** Constants *)

Definition LEARNING_RATE : Q := 0.1.
Definition MYELIN_RATE : Q := 0.02.
Definition MYELIN_MAX : Q := 0.95.
Definition SYNAPSE_DECAY_RATE : Q := 0.02.
Definition ACTIVATION_DECAY_RATE : Q := 0.15.
Definition MYELIN_DECAY_RATE : Q := 0.005.
Definition SYNAPSE_PRUNE_THRESHOLD : Q := 0.05.
Definition CONFIDENCE_GATE : Q := 0.4.
Definition CO_ACCESS_WINDOW_SIZE : nat := 10.

(** ** Numbers *)

(** [a < b] on numbers, as a boolean. *)
Definition Qltb (a b : Q) : bool := negb (Qle_bool b a).

(** SQL [MIN(a, b)] and [Math.min(a, b)]. *)
Definition MIN (a b : Q) : Q := if Qle_bool a b then a else b.

(** [Math.max(a, b)]. *)
Definition MAX (a b : Q) : Q := if Qle_bool a b then b else a.

(** ** Outcomes *)

(** What stops a call.  [SyntaxError] is thrown by [JSON.parse],
    [ForeignKeyError] by a statement that fails its foreign-key constraint,
    and [LikePatternError] by a statement whose [LIKE] pattern SQLite refuses
    ("LIKE or GLOB pattern too complex").  [OtherJSON] is the limit of the
    embedding: a stored contexts text was JSON, but not an array of strings
    that the embedding reads, and what the engine does with such a value is
    not described. *)
Inductive exn : Set := SyntaxError | ForeignKeyError | OtherJSON | LikePatternError.

Inductive outcome (A : Type) : Type :=
| Returns (a : A)
| Throws (x : exn).

Arguments Returns {A} a.
Arguments Throws {A} x.

Definition map_outcome {A B : Type} (f : A -> B) (o : outcome A) : outcome B :=
  match o with
  | Returns a => Returns (f a)
  | Throws x => Throws x
  end.

(** ** Text *)

Definition dquote : ascii := "034"%char.
Definition backslash : ascii := "092"%char.

Definition is_upper (c : ascii) : bool :=
  (65 <=? nat_of_ascii c)%nat && (nat_of_ascii c <=? 90)%nat.

Definition lower_char (c : ascii) : ascii :=
  if is_upper c then ascii_of_nat (nat_of_ascii c + 32) else c.

(** [s.toLowerCase()]. *)
Fixpoint toLowerCase (s : string) : string :=
  match s with
  | EmptyString => EmptyString
  | String c r => String (lower_char c) (toLowerCase r)
  end.

(** The characters the regular expression [\s] matches, among ASCII. *)
Definition is_space (c : ascii) : bool :=
  let n := nat_of_ascii c in
  ((9 <=? n)%nat && (n <=? 13)%nat) || (n =? 32)%nat.

(** [s.split(/\s+/)]: [cur] is the piece being read, [prev_ws] tells that the
    previous character belonged to a separator. *)
Fixpoint split_ws_from (s cur : string) (prev_ws : bool) : list string :=
  match s with
  | EmptyString => [cur]
  | String c r =>
      if is_space c
      then if prev_ws then split_ws_from r EmptyString true
           else cur :: split_ws_from r EmptyString true
      else split_ws_from r (cur ++ String c EmptyString) false
  end.

Definition split_ws (s : string) : list string := split_ws_from s EmptyString false.

(** [s.startsWith(p)]. *)
Fixpoint startsWith (s p : string) : bool :=
  match p, s with
  | EmptyString, _ => true
  | String _ _, EmptyString => false
  | String a p', String b s' => Ascii.eqb a b && startsWith s' p'
  end.

(** [s.includes(k)] on strings. *)
Fixpoint includes (s k : string) : bool :=
  startsWith s k ||
  match s with
  | EmptyString => false
  | String _ r => includes r k
  end.

(** [l.join(sep)]. *)
Fixpoint join (sep : string) (l : list string) : string :=
  match l with
  | [] => EmptyString
  | [x] => x
  | x :: r => x ++ sep ++ join sep r
  end.

(** [l.includes(x)] on arrays of strings. *)
Definition array_includes (l : list string) (x : string) : bool :=
  existsb (String.eqb x) l.

(** The keywords of a query:
    [query.toLowerCase().split(/\s+/).filter(w => w.length > 2)]. *)
Definition keywords_of (query : string) : list string :=
  filter (fun w => (2 <? String.length w)%nat) (split_ws (toLowerCase query)).

(** The comparison behind SQLite's [LIKE]: [%] stands for any run of
    characters, [_] for one character, and letters compare without case. *)
Fixpoint patternCompare (pattern text : string) : bool :=
  match pattern with
  | EmptyString => match text with EmptyString => true | _ => false end
  | String p pattern' =>
      if Ascii.eqb p "%"%char then
        (fix any (t : string) : bool :=
           patternCompare pattern' t ||
           match t with
           | EmptyString => false
           | String _ t' => any t'
           end) text
      else
        match text with
        | EmptyString => false
        | String c text' =>
            (Ascii.eqb p "_"%char || Ascii.eqb (lower_char p) (lower_char c))
            && patternCompare pattern' text'
        end
  end.

(** A text as the comparison reads it, up to its first NUL. *)
Fixpoint c_string (s : string) : string :=
  match s with
  | EmptyString => EmptyString
  | String c r => if Ascii.eqb c zero then EmptyString else String c (c_string r)
  end.

(** SQLite's [text LIKE pattern], for a pattern it accepts: the pattern and
    the text are both read up to their first NUL. *)
Definition like (pattern text : string) : bool :=
  patternCompare (c_string pattern) (c_string text).

(** The longest [LIKE] pattern SQLite accepts, in bytes
    ([SQLITE_MAX_LIKE_PATTERN_LENGTH]); the NUL and what follows it count. *)
Definition SQLITE_MAX_LIKE_PATTERN_LENGTH : Z := 50000.

Definition too_complex (pattern : string) : bool :=
  (SQLITE_MAX_LIKE_PATTERN_LENGTH <? Z.of_nat (String.length pattern))%Z.

(** ** The JSON text of a list of strings *)

Definition hex_digit (n : nat) : ascii :=
  if (n <? 10)%nat then ascii_of_nat (48 + n) else ascii_of_nat (87 + n).

(** What [JSON.stringify] writes for one character of a string. *)
Definition escape_char (c : ascii) : string :=
  let n := nat_of_ascii c in
  if Ascii.eqb c dquote then String backslash (String dquote EmptyString)
  else if Ascii.eqb c backslash then String backslash (String backslash EmptyString)
  else if (n =? 8)%nat then String backslash "b"
  else if (n =? 12)%nat then String backslash "f"
  else if (n =? 10)%nat then String backslash "n"
  else if (n =? 13)%nat then String backslash "r"
  else if (n =? 9)%nat then String backslash "t"
  else if (n <? 32)%nat then
    String backslash
      (String "u" (String "0" (String "0"
         (String (hex_digit (n / 16)) (String (hex_digit (n mod 16)) EmptyString)))))
  else String c EmptyString.

Fixpoint escape (s : string) : string :=
  match s with
  | EmptyString => EmptyString
  | String c r => escape_char c ++ escape r
  end.

Definition quote (s : string) : string :=
  String dquote (escape s ++ String dquote EmptyString).

(** [JSON.stringify(l)] for an array of strings. *)
Definition JSON_stringify (l : list string) : string :=
  "[" ++ join "," (map quote l) ++ "]".

Definition is_json_ws (c : ascii) : bool :=
  let n := nat_of_ascii c in
  (n =? 32)%nat || (n =? 9)%nat || (n =? 10)%nat || (n =? 13)%nat.

Fixpoint skip_ws (s : string) : string :=
  match s with
  | String c r => if is_json_ws c then skip_ws r else s
  | EmptyString => s
  end.

Definition hex_value (c : ascii) : option nat :=
  let n := nat_of_ascii c in
  if ((48 <=? n) && (n <=? 57))%nat then Some (n - 48)%nat
  else if ((97 <=? n) && (n <=? 102))%nat then Some (n - 87)%nat
  else if ((65 <=? n) && (n <=? 70))%nat then Some (n - 55)%nat
  else None.

(** The character a one-letter escape stands for. *)
Definition unescape (e : ascii) : option ascii :=
  if Ascii.eqb e dquote then Some dquote
  else if Ascii.eqb e backslash then Some backslash
  else if Ascii.eqb e "/"%char then Some "/"%char
  else if Ascii.eqb e "b"%char then Some (ascii_of_nat 8)
  else if Ascii.eqb e "f"%char then Some (ascii_of_nat 12)
  else if Ascii.eqb e "n"%char then Some (ascii_of_nat 10)
  else if Ascii.eqb e "r"%char then Some (ascii_of_nat 13)
  else if Ascii.eqb e "t"%char then Some (ascii_of_nat 9)
  else None.

(** A [\uXXXX] escape; the model has 8-bit text and reads the escapes of the
    ASCII range only. *)
Definition unicode_escape (h1 h2 h3 h4 : ascii) : option ascii :=
  match hex_value h1, hex_value h2, hex_value h3, hex_value h4 with
  | Some a, Some b, Some c, Some d =>
      let n := (((a * 16 + b) * 16 + c) * 16 + d)%nat in
      if (n <? 128)%nat then Some (ascii_of_nat n) else None
  | _, _, _, _ => None
  end.

Definition cons_char (c : ascii) (r : option (string * string)) : option (string * string) :=
  match r with
  | Some (x, rest) => Some (String c x, rest)
  | None => None
  end.

(** The body of a JSON string, read after its opening quote: the string it
    denotes and the text after its closing quote. *)
Fixpoint parse_chars (s : string) : option (string * string) :=
  match s with
  | EmptyString => None
  | String c r =>
      if Ascii.eqb c dquote then Some (EmptyString, r)
      else if Ascii.eqb c backslash then
        match r with
        | EmptyString => None
        | String e r' =>
            match unescape e with
            | Some d => cons_char d (parse_chars r')
            | None =>
                if Ascii.eqb e "u"%char then
                  match r' with
                  | String h1 (String h2 (String h3 (String h4 r''))) =>
                      match unicode_escape h1 h2 h3 h4 with
                      | Some d => cons_char d (parse_chars r'')
                      | None => None
                      end
                  | _ => None
                  end
                else None
            end
        end
      else if (nat_of_ascii c <? 32)%nat then None
      else cons_char c (parse_chars r)
  end.

Definition is_empty (s : string) : bool :=
  match s with EmptyString => true | _ => false end.

(** The elements of a non-empty array, read at the first of them. *)
Fixpoint parse_elems (fuel : nat) (s : string) : option (list string) :=
  match fuel with
  | O => None
  | S fuel' =>
      match s with
      | String q r =>
          if Ascii.eqb q dquote then
            match parse_chars r with
            | Some (x, rest) =>
                match skip_ws rest with
                | String d rest' =>
                    if Ascii.eqb d ","%char then
                      option_map (cons x) (parse_elems fuel' (skip_ws rest'))
                    else if Ascii.eqb d "]"%char then
                      if is_empty (skip_ws rest') then Some [x] else None
                    else None
                | EmptyString => None
                end
            | None => None
            end
          else None
      | EmptyString => None
      end
  end.

(** The array of strings a JSON text denotes, for the texts that denote
    one (with escapes of ASCII characters only). *)
Definition decode_strings (text : string) : option (list string) :=
  match skip_ws text with
  | String b r =>
      if Ascii.eqb b "["%char then
        match skip_ws r with
        | String d r' =>
            if Ascii.eqb d "]"%char then
              if is_empty (skip_ws r') then Some [] else None
            else parse_elems (String.length text) (String d r')
        | EmptyString => None
        end
      else None
  | EmptyString => None
  end.

(** *** The JSON grammar *)

(** What a recogniser leaves: the text after what it read, a violation of
    the grammar, or a nesting deeper than it follows. *)
Inductive scan : Set :=
| Rest (s : string)
| Bad
| Deep.

Definition is_digit (c : ascii) : bool :=
  (48 <=? nat_of_ascii c)%nat && (nat_of_ascii c <=? 57)%nat.

Fixpoint skip_digits (s : string) : string :=
  match s with
  | String c r => if is_digit c then skip_digits r else s
  | EmptyString => s
  end.

(** One digit or more. *)
Definition scan_digits (s : string) : scan :=
  match s with
  | String d r => if is_digit d then Rest (skip_digits r) else Bad
  | EmptyString => Bad
  end.

Definition scan_exponent (s : string) : scan :=
  match s with
  | String e r =>
      if Ascii.eqb e "e"%char || Ascii.eqb e "E"%char then
        match r with
        | String sign r' =>
            if Ascii.eqb sign "+"%char || Ascii.eqb sign "-"%char
            then scan_digits r' else scan_digits r
        | EmptyString => Bad
        end
      else Rest s
  | EmptyString => Rest s
  end.

Definition scan_fraction (s : string) : scan :=
  match s with
  | String p r =>
      if Ascii.eqb p "."%char then
        match scan_digits r with
        | Rest r' => scan_exponent r'
        | stop => stop
        end
      else scan_exponent s
  | EmptyString => Rest s
  end.

Definition scan_integer (s : string) : scan :=
  match s with
  | String d r =>
      if Ascii.eqb d "0"%char then scan_fraction r
      else if is_digit d then scan_fraction (skip_digits r)
      else Bad
  | EmptyString => Bad
  end.

Definition scan_number (s : string) : scan :=
  match s with
  | String m r => if Ascii.eqb m "-"%char then scan_integer r else scan_integer s
  | EmptyString => Bad
  end.

(** The body of a string, read after its opening quote. *)
Fixpoint scan_chars (s : string) : scan :=
  match s with
  | EmptyString => Bad
  | String c r =>
      if Ascii.eqb c dquote then Rest r
      else if Ascii.eqb c backslash then
        match r with
        | EmptyString => Bad
        | String e r' =>
            match unescape e with
            | Some _ => scan_chars r'
            | None =>
                if Ascii.eqb e "u"%char then
                  match r' with
                  | String h1 (String h2 (String h3 (String h4 r''))) =>
                      match hex_value h1, hex_value h2, hex_value h3, hex_value h4 with
                      | Some _, Some _, Some _, Some _ => scan_chars r''
                      | _, _, _, _ => Bad
                      end
                  | _ => Bad
                  end
                else Bad
            end
        end
      else if (nat_of_ascii c <? 32)%nat then Bad
      else scan_chars r
  end.

Fixpoint drop (k : nat) (s : string) : string :=
  match k, s with
  | S k', String _ r => drop k' r
  | _, _ => s
  end.

Definition scan_literal (word s : string) : scan :=
  if startsWith s word then Rest (drop (String.length word) s) else Bad.

(** What the recogniser is reading: a value, the elements of an array from
    one of them on, or the members of an object from one of their keys on. *)
Inductive part : Set := Value | Elements | Members.

Fixpoint scan_part (fuel : nat) (p : part) (s : string) : scan :=
  match fuel with
  | O => Deep
  | S fuel' =>
      match p with
      | Value =>
          match s with
          | EmptyString => Bad
          | String c r =>
              if Ascii.eqb c dquote then scan_chars r
              else if Ascii.eqb c "["%char then
                match skip_ws r with
                | String d r' =>
                    if Ascii.eqb d "]"%char then Rest r'
                    else scan_part fuel' Elements (String d r')
                | EmptyString => Bad
                end
              else if Ascii.eqb c "{"%char then
                match skip_ws r with
                | String d r' =>
                    if Ascii.eqb d "}"%char then Rest r'
                    else scan_part fuel' Members (String d r')
                | EmptyString => Bad
                end
              else if Ascii.eqb c "t"%char then scan_literal "true" s
              else if Ascii.eqb c "f"%char then scan_literal "false" s
              else if Ascii.eqb c "n"%char then scan_literal "null" s
              else scan_number s
          end
      | Elements =>
          match scan_part fuel' Value s with
          | Rest r =>
              match skip_ws r with
              | String d r' =>
                  if Ascii.eqb d ","%char then scan_part fuel' Elements (skip_ws r')
                  else if Ascii.eqb d "]"%char then Rest r'
                  else Bad
              | EmptyString => Bad
              end
          | stop => stop
          end
      | Members =>
          match s with
          | String q r =>
              if Ascii.eqb q dquote then
                match scan_chars r with
                | Rest r1 =>
                    match skip_ws r1 with
                    | String d r2 =>
                        if Ascii.eqb d ":"%char then
                          match scan_part fuel' Value (skip_ws r2) with
                          | Rest r3 =>
                              match skip_ws r3 with
                              | String d' r4 =>
                                  if Ascii.eqb d' ","%char
                                  then scan_part fuel' Members (skip_ws r4)
                                  else if Ascii.eqb d' "}"%char then Rest r4
                                  else Bad
                              | EmptyString => Bad
                              end
                          | stop => stop
                          end
                        else Bad
                    | EmptyString => Bad
                    end
                | stop => stop
                end
              else Bad
          | EmptyString => Bad
          end
      end
  end.

(** The text is not JSON: a value, and white space around it, is not all
    there is. *)
Definition not_json (text : string) : bool :=
  match scan_part (2 * String.length text + 2) Value (skip_ws text) with
  | Rest r => negb (is_empty (skip_ws r))
  | Bad => true
  | Deep => false
  end.

(** [JSON.parse(text)] on a stored contexts text.  The JSON text of an array
    of strings gives that array; a text that is not JSON throws a
    [SyntaxError]; any other JSON value is beyond the embedding. *)
Definition JSON_parse (text : string) : outcome (list string) :=
  match decode_strings text with
  | Some l => Returns l
  | None => if not_json text then Throws SyntaxError else Throws OtherJSON
  end.

(** ** Data model *)

Inductive NeuronType : Set := file | tool | error | semantic.

Definition type_name (t : NeuronType) : string :=
  match t with
  | file => "file"
  | tool => "tool"
  | error => "error"
  | semantic => "semantic"
  end.

Definition NeuronType_eqb (a b : NeuronType) : bool :=
  match a, b with
  | file, file | tool, tool | error, error | semantic, semantic => true
  | _, _ => false
  end.

(** A row of [neurons].  [contexts] is the stored text; [last_accessed] is
    nullable. *)
Record Neuron : Type := mkNeuron {
  n_id : string;
  n_type : NeuronType;
  n_path : string;
  activation : Q;
  myelination : Q;
  access_count : Z;
  last_accessed : option Z;
  created_at : Z;
  contexts : string
}.

(** A row of [synapses]. *)
Record Synapse : Type := mkSynapse {
  source_id : string;
  target_id : string;
  weight : Q;
  co_access_count : Z;
  last_fired : option Z;
  syn_created_at : Z
}.

(** A row of [access_log]. *)
Record AccessLog : Type := mkAccessLog {
  log_id : Z;
  log_neuron_id : string;
  log_session_id : string;
  log_query : option string;
  log_timestamp : Z;
  token_cost : Z;
  access_order : Z
}.

(** A row of [sessions]. *)
Record Session : Type := mkSession {
  ses_id : string;
  started_at : Z;
  ended_at : option Z;
  total_accesses : Z;
  tokens_used : Z;
  tokens_saved : Z;
  hit_rate : Q
}.

(** The database file: its four tables, and the counter behind the
    [AUTOINCREMENT] key of [access_log]. *)
Record Store : Type := mkStore {
  neurons : list Neuron;
  synapses : list Synapse;
  access_log : list AccessLog;
  access_log_seq : Z;
  sessions : list Session
}.

(** A [BrainBoxDB] object: whether its handle is open, the file behind it,
    and its private fields. *)
Record Engine : Type := mkEngine {
  db_open : bool;
  store : Store;
  recentAccesses : list string;
  sessionId : string;
  accessOrder : Z
}.

(** What a decoded neuron carries: the row, and its contexts as a list
    ([parseNeuron]). *)
Record ParsedNeuron : Type := mkParsed {
  row : Neuron;
  parsed_contexts : list string
}.

Inductive ActivationPath : Set := direct | spread | myelinated.

Record RecallResult : Type := mkResult {
  neuron : ParsedNeuron;
  confidence : Q;
  activation_path : ActivationPath
}.

(** ** Statements *)

(** A stable insertion sort: [x] goes before the first [y] with [le x y]. *)
Fixpoint insert_by {A : Type} (le : A -> A -> bool) (x : A) (l : list A) : list A :=
  match l with
  | [] => [x]
  | y :: r => if le x y then x :: l else y :: insert_by le x r
  end.

Definition sort_by {A : Type} (le : A -> A -> bool) (l : list A) : list A :=
  fold_right (insert_by le) [] l.

(** A stable sort by decreasing key: [ORDER BY key DESC] over a scan, and
    [sort((a, b) => key(b) - key(a))]. *)
Definition sort_desc {A : Type} (key : A -> Q) (l : list A) : list A :=
  sort_by (fun x y => Qle_bool (key y) (key x)) l.

Definition has_id (id : string) (n : Neuron) : bool := String.eqb (n_id n) id.

Definition has_key (source target : string) (s : Synapse) : bool :=
  String.eqb (source_id s) source && String.eqb (target_id s) target.

(** [getNeuron]: [SELECT * FROM neurons WHERE id = ?]. *)
Definition getNeuron (st : Store) (id : string) : option Neuron :=
  find (has_id id) (neurons st).

Definition set_neurons (st : Store) (l : list Neuron) : Store :=
  mkStore l (synapses st) (access_log st) (access_log_seq st) (sessions st).

Definition set_synapses (st : Store) (l : list Synapse) : Store :=
  mkStore (neurons st) l (access_log st) (access_log_seq st) (sessions st).

(** The [DO UPDATE] branch of [upsertNeuron], on one row. *)
Definition touch_neuron (act : Q) (now : Z) (ctx : string) (n : Neuron) : Neuron :=
  mkNeuron (n_id n) (n_type n) (n_path n)
    act
    (MIN (myelination n + MYELIN_RATE * (1 - myelination n)) MYELIN_MAX)
    (access_count n + 1)
    (Some now)
    (created_at n)
    ctx.

(** [upsertNeuron]. *)
Definition upsertNeuron (st : Store) (id : string) (type : NeuronType) (path : string)
    (act myel : Q) (now : Z) (ctx : string) : Store :=
  match getNeuron st id with
  | Some _ =>
      set_neurons st
        (map (fun n => if has_id id n then touch_neuron act now ctx n else n) (neurons st))
  | None =>
      set_neurons st
        (neurons st ++ [mkNeuron id type path act myel 1 (Some now) now ctx])
  end.

(** [getSynapses]: [SELECT * FROM synapses WHERE source_id = ? ORDER BY weight DESC].
    SQLite finds the rows of a source through the index of the primary key
    [(source_id, target_id)], so that it reads them by increasing
    [target_id], and its sort keeps rows of equal weight in the order read. *)
Definition getSynapses (st : Store) (source : string) : list Synapse :=
  sort_desc weight
    (sort_by (fun a b => String.leb (target_id a) (target_id b))
             (filter (fun s => String.eqb (source_id s) source) (synapses st))).

(** The [DO UPDATE] branch of [upsertSynapse], on one row. *)
Definition fire_synapse (delta : Q) (now : Z) (s : Synapse) : Synapse :=
  mkSynapse (source_id s) (target_id s)
    (MIN (weight s + delta * (1 - weight s)) 1)
    (co_access_count s + 1)
    (Some now)
    (syn_created_at s).

(** [upsertSynapse].  A new row needs both its endpoints among the neurons
    ([REFERENCES neurons(id)] with [foreign_keys = ON]); [None] is the
    constraint failure. *)
Definition upsertSynapse (st : Store) (source target : string) (w delta : Q) (now : Z)
    : option Store :=
  if existsb (has_key source target) (synapses st) then
    Some (set_synapses st
            (map (fun s => if has_key source target s then fire_synapse delta now s else s)
                 (synapses st)))
  else
    match getNeuron st source, getNeuron st target with
    | Some _, Some _ =>
        Some (set_synapses st (synapses st ++ [mkSynapse source target w 1 (Some now) now]))
    | _, _ => None
    end.

(** [logAccess].  The neuron it names was written by the statement before. *)
Definition logAccess (st : Store) (neuron_id session_id : string) (query : option string)
    (now cost order : Z) : Store :=
  let k := (access_log_seq st + 1)%Z in
  mkStore (neurons st) (synapses st)
    (access_log st ++ [mkAccessLog k neuron_id session_id query now cost order])
    k (sessions st).

(** [createSession]: [INSERT OR IGNORE]. *)
Definition createSession (st : Store) (id : string) (now : Z) : Store :=
  if existsb (fun s => String.eqb (ses_id s) id) (sessions st) then st
  else mkStore (neurons st) (synapses st) (access_log st) (access_log_seq st)
         (sessions st ++ [mkSession id now None 0 0 0 0]).

(** [updateSession]. *)
Definition updateSession (st : Store) (id : string) (used : Z) : Store :=
  mkStore (neurons st) (synapses st) (access_log st) (access_log_seq st)
    (map (fun s => if String.eqb (ses_id s) id
                   then mkSession (ses_id s) (started_at s) (ended_at s)
                          (total_accesses s + 1) (tokens_used s + used)
                          (tokens_saved s) (hit_rate s)
                   else s)
         (sessions st)).

(** A SQL [LIMIT]: a negative one is no limit. *)
Definition LIMIT {A : Type} (k : Z) (l : list A) : list A :=
  if (k <? 0)%Z then l else firstn (Z.to_nat k) l.

Definition has_rows {A : Type} (l : list A) : bool :=
  match l with
  | [] => false
  | _ :: _ => true
  end.

(** [searchByContext].  SQLite evaluates the [LIKE] on the first row the
    statement reads and refuses there a pattern that is too long; with no row
    to read, or with a limit of 0, the [LIKE] is not evaluated. *)
Definition searchByContext (st : Store) (pattern : string) (limit : Z)
    : outcome (list Neuron) :=
  if too_complex pattern && negb (limit =? 0)%Z && has_rows (neurons st)
  then Throws LikePatternError
  else Returns (LIMIT limit
                  (sort_desc myelination
                     (filter (fun n => like pattern (contexts n)) (neurons st)))).

(** [topByMyelination], called with a type. *)
Definition topByMyelination (st : Store) (type : NeuronType) (limit : Z) : list Neuron :=
  LIMIT limit
    (sort_desc myelination (filter (fun n => NeuronType_eqb (n_type n) type) (neurons st))).

(** [decayAll]. *)
Definition decayAll (st : Store) : Store :=
  set_neurons st
    (map (fun n => mkNeuron (n_id n) (n_type n) (n_path n)
                     (activation n * (1 - ACTIVATION_DECAY_RATE))
                     (myelination n * (1 - MYELIN_DECAY_RATE))
                     (access_count n) (last_accessed n) (created_at n) (contexts n))
         (neurons st)).

(** [decaySynapses]. *)
Definition decaySynapses (st : Store) : Store :=
  set_synapses st
    (map (fun s => mkSynapse (source_id s) (target_id s)
                     (weight s * (1 - SYNAPSE_DECAY_RATE))
                     (co_access_count s) (last_fired s) (syn_created_at s))
         (synapses st)).

Definition weak_synapse (s : Synapse) : bool := Qltb (weight s) SYNAPSE_PRUNE_THRESHOLD.

(** [pruneSynapses], with the number of rows it deletes. *)
Definition pruneSynapses (st : Store) : Store * Z :=
  (set_synapses st (filter (fun s => negb (weak_synapse s)) (synapses st)),
   Z.of_nat (List.length (filter weak_synapse (synapses st)))).

Definition dead_neuron (n : Neuron) : bool :=
  Qltb (activation n) 0.01 && Qltb (myelination n) 0.01 && (access_count n <? 2)%Z.

Definition known (l : list Neuron) (id : string) : bool := existsb (has_id id) l.

(** [pruneNeurons], with the number of neurons it deletes.  The rows of
    [synapses] and [access_log] that reference a deleted neuron go with it
    ([ON DELETE CASCADE]). *)
Definition pruneNeurons (st : Store) : Store * Z :=
  let dead := filter dead_neuron (neurons st) in
  (mkStore
     (filter (fun n => negb (dead_neuron n)) (neurons st))
     (filter (fun s => negb (known dead (source_id s) || known dead (target_id s)))
             (synapses st))
     (filter (fun r => negb (known dead (log_neuron_id r))) (access_log st))
     (access_log_seq st)
     (sessions st),
   Z.of_nat (List.length dead)).

(** ** The engine *)

Definition neuron_id (type : NeuronType) (path : string) : string :=
  type_name type ++ ":" ++ path.

Definition with_store (e : Engine) (st : Store) : Engine :=
  mkEngine (db_open e) st (recentAccesses e) (sessionId e) (accessOrder e).

(** [ensureOpen]: a closed handle is opened again on the same file. *)
Definition ensureOpen (e : Engine) : Engine :=
  if db_open e then e
  else mkEngine true (store e) (recentAccesses e) (sessionId e) (accessOrder e).

(** [close]. *)
Definition close (e : Engine) : Engine :=
  if db_open e
  then mkEngine false (store e) (recentAccesses e) (sessionId e) (accessOrder e)
  else e.

(** A query that is given and not the empty string. *)
Definition truthy (query : option string) : option string :=
  match query with
  | Some q => if is_empty q then None else Some q
  | None => None
  end.

(** The contexts [record] starts from:
    [existing?.contexts ? JSON.parse(existing.contexts) : []]. *)
Definition stored_contexts (existing : option Neuron) : outcome (list string) :=
  match existing with
  | Some n => if is_empty (contexts n) then Returns [] else JSON_parse (contexts n)
  | None => Returns []
  end.

(** The contexts with the query pushed, when it is new, and the oldest
    dropped beyond 20. *)
Definition add_context (ctxs : list string) (query : option string) : list string :=
  match truthy query with
  | Some q =>
      if array_includes ctxs q then ctxs
      else
        let pushed := (ctxs ++ [q])%list in
        if (20 <? List.length pushed)%nat then tl pushed else pushed
  | None => ctxs
  end.

Definition cost_of (type : NeuronType) : Z :=
  match type with file => 1500 | _ => 500 end.

(** [LEARNING_RATE * ((i + 1) / recentAccesses.length)]. *)
Definition delta_at (i len : nat) : Q :=
  LEARNING_RATE * (inject_Z (Z.of_nat (i + 1)) / inject_Z (Z.of_nat len)).

(** The Hebbian loop of [record], from index [i] on, [window] being what is
    left of [recentAccesses] and [len] its full length.  [false] tells that a
    statement failed; the store is then the one the failure left. *)
Fixpoint strengthen (st : Store) (id : string) (window : list string) (i len : nat)
    (now : Z) : Store * bool :=
  match window with
  | [] => (st, true)
  | recentId :: rest =>
      if String.eqb recentId id then strengthen st id rest (S i) len now
      else
        let delta := delta_at i len in
        match upsertSynapse st id recentId delta delta now with
        | None => (st, false)
        | Some st1 =>
            match upsertSynapse st1 recentId id delta delta now with
            | None => (st1, false)
            | Some st2 => strengthen st2 id rest (S i) len now
            end
        end
  end.

(** [indexOf] and [splice]: the first occurrence goes. *)
Fixpoint remove_first (id : string) (l : list string) : list string :=
  match l with
  | [] => []
  | x :: r => if String.eqb x id then r else x :: remove_first id r
  end.

(** The window after an access to [id]. *)
Definition track (id : string) (window : list string) : list string :=
  let pushed := (remove_first id window ++ [id])%list in
  if (CO_ACCESS_WINDOW_SIZE <? List.length pushed)%nat then tl pushed else pushed.

(** [record(path, type, query)] at time [now]. *)
Definition record (e : Engine) (path : string) (type : NeuronType) (query : option string)
    (now : Z) : Engine * outcome unit :=
  let e := ensureOpen e in
  let id := neuron_id type path in
  let existing := getNeuron (store e) id in
  match stored_contexts existing with
  | Throws x => (e, Throws x)
  | Returns ctxs =>
      let ctxs := add_context ctxs query in
      let st := upsertNeuron (store e) id type path 1
                  (match existing with Some n => myelination n | None => 0 end)
                  now (JSON_stringify ctxs) in
      let order := (accessOrder e + 1)%Z in
      let st := logAccess st id (sessionId e) (truthy query) now (cost_of type) order in
      match strengthen st id (recentAccesses e) 0 (List.length (recentAccesses e)) now with
      | (st, false) =>
          (mkEngine (db_open e) st (recentAccesses e) (sessionId e) order,
           Throws ForeignKeyError)
      | (st, true) =>
          (mkEngine (db_open e) (updateSession st (sessionId e) (cost_of type))
             (track id (recentAccesses e)) (sessionId e) order,
           Returns tt)
      end
  end.

(** [recordSemantic(text, context)]. *)
Definition recordSemantic (e : Engine) (text : string) (context : option string) (now : Z)
    : Engine * outcome unit :=
  record (ensureOpen e) text semantic context now.

(** [decay()]. *)
Definition decay (e : Engine) : Engine * (Z * Z) :=
  let e := ensureOpen e in
  let st := decaySynapses (decayAll (store e)) in
  let (st, syn) := pruneSynapses st in
  let (st, neu) := pruneNeurons st in
  (with_store e st, (syn, neu)).

(** ** Recall *)

(** [parseNeuron]. *)
Definition parseNeuron (n : Neuron) : outcome ParsedNeuron :=
  match JSON_parse (contexts n) with
  | Returns ctxs => Returns (mkParsed n ctxs)
  | Throws x => Throws x
  end.

Definition ratio (k n : nat) : Q := inject_Z (Z.of_nat k) / inject_Z (Z.of_nat n).

(** The share of the keywords that [text] includes, 0 when there is none. *)
Definition match_share (keywords : list string) (text : string) : Q :=
  if (0 <? List.length keywords)%nat
  then ratio (List.length (filter (fun k => includes text k) keywords)) (List.length keywords)
  else 0.

(** [computeConfidence(neuron, query)] at time [now]. *)
Definition computeConfidence (n : Neuron) (query : string) (now : Z) : outcome Q :=
  match JSON_parse (contexts n) with
  | Throws x => Throws x
  | Returns ctxs =>
      let keywords := keywords_of query in
      let contextStr := toLowerCase (join " " ctxs) in
      let score := 0 + match_share keywords contextStr * 0.4 in
      let score := score + myelination n * 0.3 in
      let score :=
        match last_accessed n with
        | Some t =>
            let ageMs := (now - t)%Z in
            score + MAX 0 (1 - inject_Z ageMs / (168 * 3600000)) * 0.2
        | None => score
        end in
      let pathLower := toLowerCase (n_path n) in
      let score := score + match_share keywords pathLower * 0.1 in
      Returns (MIN score 1)
  end.

(** A loop whose body can throw. *)
Fixpoint foldM {A B : Type} (body : B -> A -> outcome B) (l : list A) (b : B) : outcome B :=
  match l with
  | [] => Returns b
  | x :: r =>
      match body b x with
      | Returns b' => foldM body r b'
      | Throws x => Throws x
      end
  end.

(** The candidates of Phase 1: per keyword the ten best rows whose contexts
    match, without repeating an id. *)
Definition add_matches (directMatches matches : list Neuron) : list Neuron :=
  fold_left (fun d m => if known d (n_id m) then d else (d ++ [m])%list) matches directMatches.

Definition directMatches (st : Store) (keywords : list string) : outcome (list Neuron) :=
  foldM (fun d kw => map_outcome (add_matches d) (searchByContext st ("%" ++ kw ++ "%") 10))
        keywords [].

(** The results pushed so far and the set [activated]. *)
Definition RecallState : Type := (list RecallResult * list string)%type.

Definition activated_has (activated : list string) (id : string) : bool :=
  existsb (String.eqb id) activated.

(** The body of the Phase 1 loop. *)
Definition direct_step (type : NeuronType) (query : string) (now : Z)
    (acc : RecallState) (n : Neuron) : outcome RecallState :=
  let (results, activated) := acc in
  if negb (NeuronType_eqb (n_type n) type) then Returns acc
  else
    match computeConfidence n query now with
    | Throws x => Throws x
    | Returns c =>
        if Qltb c CONFIDENCE_GATE then Returns acc
        else
          match parseNeuron n with
          | Throws x => Throws x
          | Returns pn =>
              Returns ((results ++ [mkResult pn c direct])%list, n_id n :: activated)
          end
    end.

(** The body of the inner loop of Phase 2, for one synapse of [seed]. *)
Definition spread_step (st : Store) (type : NeuronType) (seed : RecallResult)
    (acc : RecallState) (syn : Synapse) : outcome RecallState :=
  let (results, activated) := acc in
  if Qltb (weight syn) 0.3 || activated_has activated (target_id syn) then Returns acc
  else
    match getNeuron st (target_id syn) with
    | None => Returns acc
    | Some target =>
        if negb (NeuronType_eqb (n_type target) type) then Returns acc
        else
          let spreadConf := confidence seed * weight syn * (1 + myelination target) in
          if Qltb spreadConf CONFIDENCE_GATE then Returns acc
          else
            match parseNeuron target with
            | Throws x => Throws x
            | Returns pn =>
                Returns ((results ++ [mkResult pn (MIN spreadConf 0.99) spread])%list,
                         target_id syn :: activated)
            end
    end.

(** The synapses Phase 2 walks from a seed: the first ten of [getSynapses]. *)
Definition seed_synapses (st : Store) (seed : RecallResult) : list Synapse :=
  firstn 10 (getSynapses st (n_id (row (neuron seed)))).

(** Phase 2, over the frontier. *)
Definition spread_phase (st : Store) (type : NeuronType) (frontier : list RecallResult)
    (acc : RecallState) : outcome RecallState :=
  foldM (fun acc seed => foldM (spread_step st type seed) (seed_synapses st seed) acc)
        frontier acc.

(** The body of the Phase 3 loop. *)
Definition myelin_step (activated : list string) (results : list RecallResult) (n : Neuron)
    : outcome (list RecallResult) :=
  if activated_has activated (n_id n) then Returns results
  else
    let conf := myelination n * 0.5 in
    if Qltb conf 0.15 then Returns results
    else
      match parseNeuron n with
      | Throws x => Throws x
      | Returns pn => Returns (results ++ [mkResult pn conf myelinated])%list
      end.

(** Phase 3. *)
Definition myelin_phase (st : Store) (type : NeuronType) (limit : Z) (acc : RecallState)
    : outcome (list RecallResult) :=
  let (results, activated) := acc in
  if (Z.of_nat (List.length results) <? limit)%Z then
    foldM (myelin_step activated)
          (topByMyelination st type (limit - Z.of_nat (List.length results))%Z)
          results
  else Returns results.

(** [l.slice(0, limit)]: a negative [limit] counts from the end. *)
Definition slice_to {A : Type} (limit : Z) (l : list A) : list A :=
  if (limit <? 0)%Z
  then firstn (Z.to_nat (Z.max (Z.of_nat (List.length l) + limit) 0)) l
  else firstn (Z.to_nat limit) l.

(** The three phases on a store, then the ranking. *)
Definition recall_results (st : Store) (query : string) (type : NeuronType) (limit now : Z)
    : outcome (list RecallResult) :=
  match directMatches st (keywords_of query) with
  | Throws x => Throws x
  | Returns candidates =>
      match foldM (direct_step type query now) candidates ([], []) with
      | Throws x => Throws x
      | Returns (frontier, activated) =>
          match spread_phase st type frontier (frontier, activated) with
          | Throws x => Throws x
          | Returns acc =>
              match myelin_phase st type limit acc with
              | Throws x => Throws x
              | Returns results => Returns (slice_to limit (sort_desc confidence results))
              end
          end
      end
  end.

(** [recall(query, type, limit)] at time [now]. *)
Definition recall (e : Engine) (query : string) (type : NeuronType) (limit now : Z)
    : Engine * outcome (list RecallResult) :=
  let e := ensureOpen e in
  (e, recall_results (store e) query type limit now).

(** ** Opening an engine *)

(** The file [migrate] creates. *)
Definition empty_store : Store := mkStore [] [] [] 0 [].

Definition day_of (t : Z) : Z := (t / 86400000)%Z.

(** [timestamp > datetime('now', '-1 hour')].  Both sides are text: an ISO
    timestamp [YYYY-MM-DDTHH:MM:SS.sssZ] against [YYYY-MM-DD HH:MM:SS].  The
    dates decide, and on equal dates the [T] is above the blank. *)
Definition in_last_hour (now timestamp : Z) : bool :=
  (day_of (now - 3600000) <=? day_of timestamp)%Z.

(** [ORDER BY timestamp ASC, access_order ASC]. *)
Definition log_le (a b : AccessLog) : bool :=
  (log_timestamp a <? log_timestamp b)%Z
  || ((log_timestamp a =? log_timestamp b)%Z && (access_order a <=? access_order b)%Z).

(** The window rebuilt from the rows of the log, oldest first. *)
Definition seed_window (rows : list AccessLog) : list string :=
  let w := fold_left (fun w r => (remove_first (log_neuron_id r) w ++ [log_neuron_id r])%list)
             rows [] in
  if (CO_ACCESS_WINDOW_SIZE <? List.length w)%nat
  then skipn (List.length w - CO_ACCESS_WINDOW_SIZE) w
  else w.

(** [new BrainBoxDB(dbPath)] at time [now], on the file [st]. *)
Definition BrainBoxDB_new (st : Store) (now : Z) : Engine :=
  let sid := "nv-" ++ NilZero.string_of_int (Z.to_int now) in
  let st := createSession st sid now in
  let recent := sort_by log_le (filter (fun r => in_last_hour now (log_timestamp r))
                                       (access_log st)) in
  mkEngine true st (seed_window recent) sid 0.

(** ** Runs *)

(** A call of [record] or of [decay]. *)
Inductive Op : Type :=
| OpRecord (path : string) (type : NeuronType) (query : option string) (now : Z)
| OpDecay.

Definition step (e : Engine) (o : Op) : Engine :=
  match o with
  | OpRecord path type query now => fst (record e path type query now)
  | OpDecay => fst (decay e)
  end.

(** The engine after a sequence of calls, each started on what the call
    before left, thrown or not. *)
Definition run (e : Engine) (ops : list Op) : Engine := fold_left step ops e.

(** [decay()] called [k] times. *)
Fixpoint decay_times (k : nat) (e : Engine) : Engine :=
  match k with
  | O => e
  | S k' => decay_times k' (fst (decay e))
  end.

(** * Vocabulary of the properties *)

(** The ranges of the numeric columns. *)
Definition neuron_in_range (n : Neuron) : Prop :=
  0 <= activation n /\ activation n <= 1 /\
  0 <= myelination n /\ myelination n <= MYELIN_MAX.

Definition synapse_in_range (s : Synapse) : Prop :=
  0 <= weight s /\ weight s <= 1.

Definition in_range (st : Store) : Prop :=
  Forall neuron_in_range (neurons st) /\ Forall synapse_in_range (synapses st).

(** The myelination update of the specification,
    [m <- min(m + MYELIN_RATE * (1 - m), MYELIN_MAX)]. *)
Definition myelin_update (m : Q) : Q := MIN (m + MYELIN_RATE * (1 - m)) MYELIN_MAX.

(** An engine opened on a new file at time 0. *)
Definition fresh : Engine := BrainBoxDB_new empty_store 0.

(** The engine after [record("/x")] twice. *)
Definition twice_x : Engine :=
  fst (record (fst (record fresh "/x" file None 1)) "/x" file None 2).

(** The engine after two calls of [record] on a new file. *)
Definition pair_engine (now0 : Z) (p1 : string) (t1 : NeuronType) (q1 : option string)
    (now1 : Z) (p2 : string) (t2 : NeuronType) (q2 : option string) (now2 : Z) : Engine :=
  fst (record (fst (record (BrainBoxDB_new empty_store now0) p1 t1 q1 now1)) p2 t2 q2 now2).

(** The row [record] inserts for a neuron it does not find. *)
Definition new_row (type : NeuronType) (path : string) (query : option string) (now : Z)
    : Neuron :=
  mkNeuron (neuron_id type path) type path 1 0 1 (Some now) now
    (JSON_stringify (add_context [] query)).

(** The synapse the Hebbian step inserts from a window of one. *)
Definition new_synapse (source target : string) (now : Z) : Synapse :=
  mkSynapse source target (delta_at 0 1) 1 (Some now) now.

(** Every neuron has activation [a], myelination [m] and one access; every
    synapse has weight [w] and a source among the neurons. *)
Definition uniform (a m w : Q) (st : Store) : Prop :=
  Forall (fun n => activation n = a /\ myelination n = m /\ access_count n = 1%Z)
         (neurons st) /\
  Forall (fun s => weight s = w /\ known (neurons st) (source_id s) = true) (synapses st).

(** One [decay] on an activation, a myelination and a weight. *)
Definition next_a (a : Q) : Q := a * (1 - ACTIVATION_DECAY_RATE).
Definition next_m (m : Q) : Q := m * (1 - MYELIN_DECAY_RATE).
Definition next_w (w : Q) : Q := w * (1 - SYNAPSE_DECAY_RATE).

(** The next [decay] deletes a neuron of activation [a], myelination [m] and
    one access. *)
Definition fades (a m : Q) : bool := Qltb (next_a a) 0.01 && Qltb (next_m m) 0.01.

(** The next [decay] deletes a synapse of weight [w] for its weight. *)
Definition weakens (w : Q) : bool := Qltb (next_w w) SYNAPSE_PRUNE_THRESHOLD.

(** [f] applied [k] times. *)
Fixpoint after (k : nat) (f : Q -> Q) (x : Q) : Q :=
  match k with
  | O => x
  | S k' => after k' f (f x)
  end.

(** Nothing is deleted by the next [k] calls of [decay]. *)
Fixpoint survives (k : nat) (a m w : Q) : bool :=
  match k with
  | O => true
  | S k' => negb (fades a m) && negb (weakens w)
            && survives k' (next_a a) (next_m m) (next_w w)
  end.

(** The engine after [record("/a")] and [record("/b")] on a new file. *)
Definition pair_ab : Engine := pair_engine 0 "/a" file None 1 "/b" file None 2.

(** [record("/x", file, "grep foo")] then [record("/y", file, "grep foo")]
    on a new file. *)
Definition hebbian_pair (now0 now1 now2 : Z) : Engine :=
  pair_engine now0 "/x" file (Some "grep foo") now1 "/y" file (Some "grep foo") now2.

(** The id of the neuron of a result. *)
Definition result_id (r : RecallResult) : string := n_id (row (neuron r)).

(** The pair recorded at times 1 and 2 on a file opened at time 0. *)
Definition pair_xy : Engine := hebbian_pair 0 1 2.

(** Every stored contexts text decodes. *)
Definition decodable (st : Store) : Prop :=
  Forall (fun n => exists ctxs, JSON_parse (contexts n) = Returns ctxs) (neurons st).

(** Phases 1 and 2 and the ranking of what they push. *)
Definition recall_ranked (st : Store) (query : string) (type : NeuronType) (now : Z)
    : outcome (list RecallResult) :=
  match directMatches st (keywords_of query) with
  | Throws x => Throws x
  | Returns candidates =>
      match foldM (direct_step type query now) candidates ([], []) with
      | Throws x => Throws x
      | Returns (frontier, activated) =>
          match spread_phase st type frontier (frontier, activated) with
          | Throws x => Throws x
          | Returns acc => Returns (sort_desc confidence (fst acc))
          end
      end
  end.

(** A search of Phase 1 is refused: a keyword makes a pattern that is too
    long, and there is a neuron to read. *)
Definition search_fails (st : Store) (keywords : list string) : bool :=
  existsb (fun kw => too_complex ("%" ++ kw ++ "%")) keywords && has_rows (neurons st).

(** A file in which the contexts of [/x] were cut short. *)
Definition torn_row : Neuron :=
  mkNeuron "file:/x" file "/x" 1 0 1 (Some 0%Z) 0 "[grep foo".

Definition torn : Engine :=
  mkEngine true (mkStore [torn_row] [] [] 0 []) [] "nv-0" 0.

(** A seed [/a] of confidence 0.6 with one synapse, of weight 0.4, to a
    neuron [/c] of myelination 0. *)
Definition row_a : Neuron :=
  mkNeuron "file:/a" file "/a" 1 0 1 (Some 0%Z) 0 (JSON_stringify ["foo"]).

Definition row_c : Neuron :=
  mkNeuron "file:/c" file "/c" 1 0 1 (Some 0%Z) 0 (JSON_stringify []).

Definition syn_ac : Synapse := mkSynapse "file:/a" "file:/c" 0.4 4 (Some 0%Z) 0.

Definition store_ac : Store := mkStore [row_a; row_c] [syn_ac] [] 0 [].







(** The weight of the synapse from [a] to [b], when there is one. *)
Definition weight_of (st : Store) (a b : string) : option Q :=
  option_map weight (find (has_key a b) (synapses st)).

(** Both directions of every pair carry the same weight, or none does. *)
Definition symmetric (st : Store) : Prop :=
  forall a b, weight_of st a b = weight_of st b a.

(** The keys [(a, b)] and [(c, d)] are the same. *)
Definition same_key (a b c d : string) : bool := String.eqb a c && String.eqb b d.

(** The weight [upsertSynapse] leaves, from the one it finds. *)
Definition strengthened (delta : Q) (old : option Q) : Q :=
  match old with
  | Some w => MIN (w + delta * (1 - w)) 1
  | None => delta
  end.

(** When [upsertSynapse] goes through. *)
Definition can_upsert (st : Store) (a b : string) : bool :=
  match weight_of st a b with
  | Some _ => true
  | None =>
      match getNeuron st a, getNeuron st b with
      | Some _, Some _ => true
      | _, _ => false
      end
  end.

(** Calls of [record], each with its path, type, query and time. *)
Definition record_ops (calls : list (string * NeuronType * option string * Z)) : list Op :=
  map (fun c => match c with (path, type, query, now) => OpRecord path type query now end)
      calls.

(** Every stored contexts text is the JSON text of an array of strings or
    is not JSON. *)
Definition array_or_torn (st : Store) : Prop :=
  Forall (fun n => (exists ctxs, JSON_parse (contexts n) = Returns ctxs) \/
                   JSON_parse (contexts n) = Throws SyntaxError) (neurons st).

(** ** Vocabulary of the further properties *)

(** The key of a synapse. *)
Definition syn_key (s : Synapse) : string * string := (source_id s, target_id s).

(** The primary keys hold: no two neurons share an id, no two synapses a
    pair of endpoints. *)
Definition keys_unique (st : Store) : Prop :=
  NoDup (map n_id (neurons st)) /\ NoDup (map syn_key (synapses st)).

(** The foreign keys hold: the endpoints of every synapse and the neuron of
    every row of the log are among the neurons. *)
Definition referential (st : Store) : Prop :=
  Forall (fun s => known (neurons st) (source_id s) = true /\
                   known (neurons st) (target_id s) = true) (synapses st) /\
  Forall (fun r => known (neurons st) (log_neuron_id r) = true) (access_log st).

(** The co-access window holds no id twice and no more than
    [CO_ACCESS_WINDOW_SIZE] ids. *)
Definition window_ok (window : list string) : Prop :=
  NoDup window /\ (List.length window <= CO_ACCESS_WINDOW_SIZE)%nat.

(** A list of contexts as [record] keeps it: at most 20 entries, none twice,
    none empty. *)
Definition contexts_ok (ctxs : list string) : Prop :=
  (List.length ctxs <= 20)%nat /\ NoDup ctxs /\ ~ In EmptyString ctxs.

(** Every stored contexts text is what [JSON.stringify] gives for such a
    list. *)
Definition contexts_kept (st : Store) : Prop :=
  Forall (fun n => exists ctxs, contexts n = JSON_stringify ctxs /\ contexts_ok ctxs)
         (neurons st).

(** Every id of the window is the id of a neuron. *)
Definition window_known (e : Engine) : Prop :=
  Forall (fun id => known (neurons (store e)) id = true) (recentAccesses e).

(** The id a call of [record] is for; [decay] is for none. *)
Definition op_id (o : Op) : option string :=
  match o with
  | OpRecord path type _ _ => Some (neuron_id type path)
  | OpDecay => None
  end.

(** The weights, all of them, are at least what they are in [st0]. *)
Definition not_below (st0 st : Store) : Prop :=
  forall a b w, weight_of st0 a b = Some w ->
                exists w', weight_of st a b = Some w' /\ w <= w'.

(** The pair of [/x] and [/y] after the 29 calls of [decay] that delete
    both. *)
Definition faded_xy : Engine := decay_times 29 pair_xy.

(** The condition of [pruneNeurons]. *)
Definition prunable (n : Neuron) : Prop :=
  activation n < 0.01 /\ myelination n < 0.01 /\ (access_count n < 2)%Z.

(** The engine after [record("/x")] twice and [k] calls of [decay]. *)
Definition twice_x_after (k : nat) : Engine := decay_times k twice_x.

(** What [recall] on [st] for [type] gives of a result: a row of [st] of
    that type with its contexts decoded, and the confidence its path
    allows. *)
Definition result_ok (st : Store) (type : NeuronType) (r : RecallResult) : Prop :=
  In (row (neuron r)) (neurons st) /\
  n_type (row (neuron r)) = type /\
  JSON_parse (contexts (row (neuron r))) = Returns (parsed_contexts (neuron r)) /\
  match activation_path r with
  | direct => CONFIDENCE_GATE <= confidence r /\ confidence r <= 1
  | spread => CONFIDENCE_GATE <= confidence r /\ confidence r <= 0.99
  | myelinated =>
      0.15 <= confidence r /\ confidence r = myelination (row (neuron r)) * 0.5
  end.

(** By decreasing confidence. *)
Definition ranked (rs : list RecallResult) : Prop :=
  StronglySorted (fun a b => confidence b <= confidence a) rs.

(** The myelination of a neuron that was recorded [access_count] times and
    never decayed. *)
Definition myelination_at (count : Z) : Q :=
  MIN (1 - (1 - MYELIN_RATE) ^ (count - 1)) MYELIN_MAX.

(** A neuron that was recorded and never decayed. *)
Definition undecayed (n : Neuron) : Prop :=
  (1 <= access_count n)%Z /\ activation n = 1 /\
  myelination n == myelination_at (access_count n).

(** The window with [id] moved to its end, before any trimming. *)
Definition push_id (w : list string) (id : string) : list string :=
  (remove_first id w ++ [id])%list.

(** [w.slice(-CO_ACCESS_WINDOW_SIZE)] when [w] is longer than the window. *)
Definition last_ids (w : list string) : list string :=
  if (CO_ACCESS_WINDOW_SIZE <? List.length w)%nat
  then skipn (List.length w - CO_ACCESS_WINDOW_SIZE) w
  else w.

Definition call_time (c : string * NeuronType * option string * Z) : Z := snd c.

(** What a session that only records has written: the rows of the log are in
    the order of the constructor's query, none is after [T] or out of the
    reach of an engine opened at [now'], and the window is what the accesses
    of the log make of an empty window. *)
Definition session_log (T now' : Z) (e : Engine) : Prop :=
  decodable (store e) /\ window_known e /\
  StronglySorted (fun a b => log_le a b = true) (access_log (store e)) /\
  Forall (fun r => (access_order r <= accessOrder e)%Z /\ (log_timestamp r <= T)%Z /\
                   in_last_hour now' (log_timestamp r) = true)
         (access_log (store e)) /\
  recentAccesses e
  = fold_left (fun w id => track id w) (map log_neuron_id (access_log (store e))) [].

(** [BrainBoxStats]; [avg_myelination] is [NULL] on an empty table. *)
Record BrainBoxStats : Type := mkStats {
  neuron_count : Z;
  synapse_count : Z;
  superhighways : Z;
  stat_total_accesses : Z;
  avg_myelination : option Q
}.

(** SQL [COUNT] of all the rows. *)
Definition COUNT {A : Type} (l : list A) : Z := Z.of_nat (List.length l).

(** SQL [AVG]. *)
Definition AVG (l : list Q) : option Q :=
  match l with
  | [] => None
  | _ => Some (fold_left Qplus l 0 / inject_Z (Z.of_nat (List.length l)))
  end.

(** [stats()]. *)
Definition stats (e : Engine) : Engine * BrainBoxStats :=
  let e := ensureOpen e in
  let st := store e in
  (e, mkStats (COUNT (neurons st))
              (COUNT (synapses st))
              (COUNT (filter (fun n => Qltb 0.5 (myelination n)) (neurons st)))
              (COUNT (access_log st))
              (AVG (map myelination (neurons st)))).

Definition call_id (c : string * NeuronType * option string * Z) : string :=
  match c with (path, type, _, _) => neuron_id type path end.

(** How many of the calls are for [id]. *)
Definition calls_for (id : string) (calls : list (string * NeuronType * option string * Z))
    : Z :=
  COUNT (filter (fun c => String.eqb (call_id c) id) calls).

(** The ids of the calls, each once, in the order of their first call. *)
Definition ids_of (calls : list (string * NeuronType * option string * Z)) : list string :=
  fold_left (fun ids c => if array_includes ids (call_id c) then ids
                          else (ids ++ [call_id c])%list) calls [].

(** The calls are for [x] and [y] in turn, [x] first. *)
Fixpoint in_turn (x y : string) (calls : list (string * NeuronType * option string * Z))
    : Prop :=
  match calls with
  | [] => True
  | c :: r => call_id c = x /\ in_turn y x r
  end.

(** A window of [o] then [l], the two neurons joined both ways by synapses of
    weight [w]. *)
Definition joined (e : Engine) (o l : string) (w : Q) : Prop :=
  decodable (store e) /\ window_known e /\ recentAccesses e = [o; l] /\
  weight_of (store e) o l = Some w /\ weight_of (store e) l o = Some w.

(** A row of [neurons] after [decayAll]. *)
Definition faded (n : Neuron) : Neuron :=
  mkNeuron (n_id n) (n_type n) (n_path n)
    (activation n * (1 - ACTIVATION_DECAY_RATE))
    (myelination n * (1 - MYELIN_DECAY_RATE))
    (access_count n) (last_accessed n) (created_at n) (contexts n).

(** The engine after [record("/x")] once and [k] calls of [decay]. *)
Definition once_x_after (k : nat) : Engine :=
  decay_times k (fst (record fresh "/x" file None 1)).

(** ** The prompt sanitizer of the plugin *)

(** The characters of [[\x00-\x1f\x7f]]. *)
Definition is_control (c : ascii) : bool :=
  let n := nat_of_ascii c in (n <=? 31)%nat || (n =? 127)%nat.

Definition blank : ascii := " "%char.

(** [s.replace(/[\x00-\x1f\x7f]/g, " ")]. *)
Fixpoint blank_controls (s : string) : string :=
  match s with
  | EmptyString => EmptyString
  | String c r => String (if is_control c then blank else c) (blank_controls r)
  end.

(** [s.replace(/\s+/g, " ")]: [prev_ws] tells that the previous character
    belonged to a run that is already replaced. *)
Fixpoint squeeze_from (s : string) (prev_ws : bool) : string :=
  match s with
  | EmptyString => EmptyString
  | String c r =>
      if is_space c
      then if prev_ws then squeeze_from r true else String blank (squeeze_from r true)
      else String c (squeeze_from r false)
  end.

(** [s.trimStart()] and [s.trimEnd()], among ASCII. *)
Fixpoint trimStart (s : string) : string :=
  match s with
  | EmptyString => EmptyString
  | String c r => if is_space c then trimStart r else s
  end.

Fixpoint trimEnd (s : string) : string :=
  match s with
  | EmptyString => EmptyString
  | String c r =>
      match trimEnd r with
      | EmptyString => if is_space c then EmptyString else String c EmptyString
      | t => String c t
      end
  end.

(** [s.trim()]. *)
Definition trim (s : string) : string := trimEnd (trimStart s).

(** [s.slice(0, k)]. *)
Fixpoint slice_head (k : nat) (s : string) : string :=
  match k, s with
  | S k', String c r => String c (slice_head k' r)
  | _, _ => EmptyString
  end.

(** [sanitizePrompt(str)], on a string. *)
Definition sanitizePrompt (str : string) : string :=
  slice_head 500 (trim (squeeze_from (blank_controls str) false)).

(** No control character, no white space but the blank, and no blank after a
    blank; [after_blank] tells that a blank may not come first. *)
Fixpoint tidy_from (after_blank : bool) (s : string) : bool :=
  match s with
  | EmptyString => true
  | String c r =>
      negb (is_control c) &&
      (if is_space c then Ascii.eqb c blank && negb after_blank && tidy_from true r
       else tidy_from false r)
  end.

(** The type of a call. *)
Definition call_type (c : string * NeuronType * option string * Z) : NeuronType :=
  match c with (_, type, _, _) => type end.

(** The tokens a sequence of calls is charged. *)
Definition tokens_of (calls : list (string * NeuronType * option string * Z)) : Z :=
  fold_right (fun c total => (cost_of (call_type c) + total)%Z) 0%Z calls.

(** A keyword of the query matches the stored contexts of [n], as
    [searchByContext] has it. *)
Definition matches_keyword (query : string) (n : Neuron) : Prop :=
  exists kw, In kw (keywords_of query) /\ like ("%" ++ kw ++ "%") (contexts n) = true.

(** What brought a result in: a keyword that matches its contexts; or a
    synapse of weight 0.3 at least that ends at it and starts at a neuron of
    the store, of the type asked for, that a keyword matches; or a
    myelination of 0.3 at least. *)
Definition justified (st : Store) (query : string) (type : NeuronType) (r : RecallResult)
    : Prop :=
  match activation_path r with
  | direct => matches_keyword query (row (neuron r))
  | spread =>
      exists syn seed,
        In syn (synapses st) /\ In seed (neurons st) /\
        source_id syn = n_id seed /\ target_id syn = n_id (row (neuron r)) /\
        0.3 <= weight syn /\ n_type seed = type /\ matches_keyword query seed
  | myelinated => 0.3 <= myelination (row (neuron r))
  end.

(** A result of Phase 1. *)
Definition direct_match (st : Store) (query : string) (type : NeuronType) (r : RecallResult)
    : Prop :=
  activation_path r = direct /\ In (row (neuron r)) (neurons st) /\
  n_type (row (neuron r)) = type /\ matches_keyword query (row (neuron r)).


(** ** The gate of Phase 2 *)






(** An engine on the store of [/a] and [/c]. *)
Definition engine_ac : Engine := mkEngine true store_ac [] "nv-0" 0.

(** A word of [n] letters. *)
Fixpoint word_of (n : nat) : string :=
  match n with
  | O => EmptyString
  | S k => String "a" (word_of k)
  end.


(** * Properties *)

(** ** Text and JSON *)

Lemma append_assoc (a b c : string) : ((a ++ b) ++ c)%string = (a ++ (b ++ c))%string.
Proof.
  induction a as [|x a IH]; simpl; [reflexivity|].
  now rewrite IH.
Qed.

Lemma length_append (a b : string) :
  String.length (a ++ b) = (String.length a + String.length b)%nat.
Proof.
  induction a as [|x a IH]; simpl; [reflexivity|].
  now rewrite IH.
Qed.

(** Reading back what [escape_char] wrote gives the character. *)
Lemma parse_escape_char (c : ascii) (tail : string) :
  parse_chars (escape_char c ++ tail) = cons_char c (parse_chars tail).
Proof.
  destruct c as [[] [] [] [] [] [] [] []]; reflexivity.
Qed.

Lemma parse_escape (s rest : string) :
  parse_chars (escape s ++ String dquote rest) = Some (s, rest).
Proof.
  induction s as [|c s IH]; [reflexivity|].
  cbn [escape]. rewrite append_assoc, parse_escape_char, IH. reflexivity.
Qed.

Lemma quote_append (x tail : string) :
  (quote x ++ tail)%string = String dquote (escape x ++ String dquote tail).
Proof.
  unfold quote. cbn [append]. now rewrite append_assoc.
Qed.

Lemma parse_elems_join (l : list string) :
  forall (x : string) (fuel : nat),
    (List.length l < fuel)%nat ->
    parse_elems fuel (join "," (map quote (x :: l)) ++ "]") = Some (x :: l).
Proof.
  induction l as [|y l IH]; intros x fuel Hfuel;
    (destruct fuel as [|fuel]; [inversion Hfuel|]).
  - cbn [map join]. rewrite quote_append.
    cbn [parse_elems]. change (Ascii.eqb dquote dquote) with true. cbv iota.
    rewrite parse_escape. reflexivity.
  - change (join "," (map quote (x :: y :: l)))
      with (quote x ++ "," ++ join "," (map quote (y :: l)))%string.
    rewrite append_assoc, quote_append.
    cbn [parse_elems]. change (Ascii.eqb dquote dquote) with true. cbv iota.
    rewrite parse_escape, append_assoc.
    change (skip_ws ("," ++ join "," (map quote (y :: l)) ++ "]"))
      with (String ","%char (join "," (map quote (y :: l)) ++ "]")).
    cbv iota. change (Ascii.eqb ","%char ","%char) with true. cbv iota.
    assert (Hskip : forall j, skip_ws (join "," (map quote (y :: l)) ++ j)
                              = (join "," (map quote (y :: l)) ++ j)%string).
    { intro j. destruct l; cbn [map join]; rewrite ?append_assoc, quote_append; reflexivity. }
    rewrite Hskip, IH by (simpl in Hfuel; lia).
    reflexivity.
Qed.

Lemma length_join_quote (l : list string) :
  (List.length l <= String.length (join "," (map quote l)))%nat.
Proof.
  induction l as [|x l IH]; [simpl; lia|].
  destruct l as [|y l].
  - cbn. lia.
  - change (join "," (map quote (x :: y :: l)))
      with (quote x ++ "," ++ join "," (map quote (y :: l)))%string.
    rewrite !length_append. cbn [List.length] in *.
    unfold quote at 1. cbn [String.length]. lia.
Qed.

Lemma decode_stringify (l : list string) : decode_strings (JSON_stringify l) = Some l.
Proof.
  destruct l as [|x l]; [reflexivity|].
  unfold decode_strings, JSON_stringify.
  change (skip_ws ("[" ++ join "," (map quote (x :: l)) ++ "]"))
    with (String "["%char (join "," (map quote (x :: l)) ++ "]")).
  cbv iota. change (Ascii.eqb "["%char "["%char) with true. cbv iota.
  assert (Hhead : exists r, (join "," (map quote (x :: l)) ++ "]")%string = String dquote r).
  { destruct l; cbn [map join]; rewrite ?append_assoc, quote_append; eauto. }
  destruct Hhead as [r Hr].
  rewrite Hr. change (skip_ws (String dquote r)) with (String dquote r).
  cbv iota. change (Ascii.eqb dquote "]"%char) with false. cbv iota.
  rewrite <- Hr. apply parse_elems_join.
  pose proof (length_join_quote (x :: l)) as Hlen.
  cbn [append String.length]. rewrite length_append. cbn [List.length] in Hlen. lia.
Qed.

(** [JSON.parse(JSON.stringify(l))] is [l]. *)
Lemma JSON_parse_stringify (l : list string) : JSON_parse (JSON_stringify l) = Returns l.
Proof. unfold JSON_parse. now rewrite decode_stringify. Qed.

Lemma JSON_stringify_not_empty (l : list string) : is_empty (JSON_stringify l) = false.
Proof. reflexivity. Qed.

(** ** Comparisons *)

Lemma Qltb_true (a b : Q) : Qltb a b = true <-> a < b.
Proof.
  unfold Qltb. rewrite negb_true_iff, <- not_true_iff_false, Qle_bool_iff.
  split; [apply Qnot_le_lt | apply Qlt_not_le].
Qed.

Lemma Qltb_false (a b : Q) : Qltb a b = false <-> b <= a.
Proof.
  unfold Qltb. rewrite negb_false_iff. apply Qle_bool_iff.
Qed.

Lemma MIN_le_l (a b : Q) : MIN a b <= a.
Proof.
  unfold MIN. destruct (Qle_bool a b) eqn:E; [apply Qle_refl|].
  apply Qlt_le_weak, Qnot_le_lt. rewrite <- Qle_bool_iff, E. discriminate.
Qed.

Lemma MIN_le_r (a b : Q) : MIN a b <= b.
Proof.
  unfold MIN. destruct (Qle_bool a b) eqn:E; [now apply Qle_bool_iff | apply Qle_refl].
Qed.

Lemma MIN_ge (a b c : Q) : c <= a -> c <= b -> c <= MIN a b.
Proof.
  intros Ha Hb. unfold MIN. now destruct (Qle_bool a b).
Qed.

Lemma MAX_ge_l (a b : Q) : a <= MAX a b.
Proof.
  unfold MAX. destruct (Qle_bool a b) eqn:E; [now apply Qle_bool_iff | apply Qle_refl].
Qed.

(** ** The numeric ranges *)

Lemma touch_in_range (now : Z) (ctx : string) (n : Neuron) :
  neuron_in_range n -> neuron_in_range (touch_neuron 1 now ctx n).
Proof.
  intros (_ & _ & Hm0 & Hm1). unfold neuron_in_range, touch_neuron; cbn.
  unfold MYELIN_MAX, MYELIN_RATE in *.
  repeat split; try lra.
  - apply MIN_ge; lra.
  - apply MIN_le_r.
Qed.

Lemma upsertNeuron_in_range (st : Store) (id : string) (type : NeuronType) (path : string)
    (myel : Q) (now : Z) (ctx : string) :
  in_range st ->
  (getNeuron st id = None -> 0 <= myel /\ myel <= MYELIN_MAX) ->
  in_range (upsertNeuron st id type path 1 myel now ctx).
Proof.
  intros [Hn Hs] Hmyel. unfold upsertNeuron.
  destruct (getNeuron st id) as [old|] eqn:E; split; cbn; try assumption.
  - rewrite Forall_forall in *. intros n Hin.
    apply in_map_iff in Hin. destruct Hin as (m & <- & Hm).
    destruct (has_id id m); auto using touch_in_range.
  - apply Forall_app. split; [assumption|].
    constructor; [|constructor].
    destruct (Hmyel eq_refl). unfold neuron_in_range; cbn. repeat split; try lra; assumption.
Qed.

Lemma delta_at_range (i len : nat) : (i < len)%nat -> 0 <= delta_at i len /\ delta_at i len <= 1.
Proof.
  intro Hlt. unfold delta_at, LEARNING_RATE.
  assert (Hpos : 0 < inject_Z (Z.of_nat len)).
  { change 0 with (inject_Z 0). rewrite <- Zlt_Qlt. lia. }
  assert (H0 : 0 <= inject_Z (Z.of_nat (i + 1)) / inject_Z (Z.of_nat len)).
  { apply Qle_shift_div_l; [assumption|].
    rewrite Qmult_0_l. change 0 with (inject_Z 0). rewrite <- Zle_Qle. lia. }
  assert (H1 : inject_Z (Z.of_nat (i + 1)) / inject_Z (Z.of_nat len) <= 1).
  { apply Qle_shift_div_r; [assumption|].
    rewrite Qmult_1_l, <- Zle_Qle. lia. }
  split; lra.
Qed.

Lemma fire_in_range (delta : Q) (now : Z) (s : Synapse) :
  0 <= delta -> synapse_in_range s -> synapse_in_range (fire_synapse delta now s).
Proof.
  intros Hd [Hw0 Hw1]. unfold synapse_in_range, fire_synapse; cbn. split.
  - apply MIN_ge; [|lra].
    assert (0 <= delta * (1 - weight s)) by (apply Qmult_le_0_compat; lra).
    lra.
  - apply MIN_le_r.
Qed.

Lemma upsertSynapse_in_range (st st' : Store) (source target : string) (delta : Q) (now : Z) :
  in_range st -> 0 <= delta -> delta <= 1 ->
  upsertSynapse st source target delta delta now = Some st' ->
  in_range st'.
Proof.
  intros [Hn Hs] Hd0 Hd1. unfold upsertSynapse.
  destruct (existsb (has_key source target) (synapses st)).
  - intros [= <-]. split; cbn; [assumption|].
    rewrite Forall_forall in *. intros s Hin.
    apply in_map_iff in Hin. destruct Hin as (m & <- & Hm).
    destruct (has_key source target m); auto using fire_in_range.
  - destruct (getNeuron st source); [|discriminate].
    destruct (getNeuron st target); [|discriminate].
    intros [= <-]. split; cbn; [assumption|].
    apply Forall_app. split; [assumption|].
    constructor; [|constructor]. split; assumption.
Qed.

Lemma strengthen_in_range (id : string) (now : Z) (len : nat) (window : list string) :
  forall (st : Store) (i : nat),
    (i + List.length window = len)%nat ->
    in_range st ->
    in_range (fst (strengthen st id window i len now)).
Proof.
  induction window as [|r window IH]; intros st i Hlen Hst; cbn [strengthen]; [assumption|].
  cbn [List.length] in Hlen.
  destruct (String.eqb r id); [apply IH; [lia | assumption]|].
  destruct (delta_at_range i len ltac:(lia)) as [Hd0 Hd1].
  destruct (upsertSynapse st id r _ _ now) as [st1|] eqn:E1; [|assumption].
  pose proof (upsertSynapse_in_range _ _ _ _ _ _ Hst Hd0 Hd1 E1) as Hst1.
  destruct (upsertSynapse st1 r id _ _ now) as [st2|] eqn:E2; [|assumption].
  apply IH; [lia|].
  exact (upsertSynapse_in_range _ _ _ _ _ _ Hst1 Hd0 Hd1 E2).
Qed.

Lemma getNeuron_in (st : Store) (id : string) (n : Neuron) :
  getNeuron st id = Some n -> In n (neurons st) /\ n_id n = id.
Proof.
  unfold getNeuron. intro H. apply find_some in H. destruct H as [Hin Hid].
  split; [assumption|]. now apply String.eqb_eq.
Qed.

Lemma logAccess_in_range (st : Store) (nid sid : string) (query : option string)
    (now cost order : Z) :
  in_range st -> in_range (logAccess st nid sid query now cost order).
Proof. intros [Hn Hs]. split; assumption. Qed.

Lemma updateSession_in_range (st : Store) (id : string) (used : Z) :
  in_range st -> in_range (updateSession st id used).
Proof. intros [Hn Hs]. split; assumption. Qed.

Lemma ensureOpen_store (e : Engine) : store (ensureOpen e) = store e.
Proof. unfold ensureOpen. now destruct (db_open e). Qed.

Lemma record_in_range (e : Engine) (path : string) (type : NeuronType)
    (query : option string) (now : Z) :
  in_range (store e) -> in_range (store (fst (record e path type query now))).
Proof.
  intro He. unfold record. rewrite <- ensureOpen_store in He.
  set (e1 := ensureOpen e) in *. clearbody e1.
  destruct (stored_contexts _) as [ctxs|x]; [|assumption].
  set (st1 := logAccess _ _ _ _ _ _ _).
  assert (H1 : in_range st1).
  { apply logAccess_in_range, upsertNeuron_in_range; [assumption|].
    intros ->. unfold MYELIN_MAX. split; lra. }
  pose proof (strengthen_in_range (neuron_id type path) now _ (recentAccesses e1)
                st1 0 eq_refl H1) as Hs.
  destruct (strengthen st1 _ _ _ _ _) as [st' []]; cbn in *.
  - now apply updateSession_in_range.
  - assumption.
Qed.

Lemma decay_in_range (e : Engine) : in_range (store e) -> in_range (store (fst (decay e))).
Proof.
  intros [Hn Hs]. unfold decay. rewrite ensureOpen_store. cbn.
  split; cbn.
  - apply Forall_forall. intros n Hin.
    apply filter_In in Hin. destruct Hin as [Hin _].
    apply in_map_iff in Hin. destruct Hin as (m & <- & Hm).
    rewrite Forall_forall in Hn. destruct (Hn m Hm) as (Ha0 & Ha1 & Hm0 & Hm1).
    unfold neuron_in_range; cbn.
    unfold ACTIVATION_DECAY_RATE, MYELIN_DECAY_RATE, MYELIN_MAX in *.
    repeat split; lra.
  - apply Forall_forall. intros s Hin.
    apply filter_In in Hin. destruct Hin as [Hin _].
    apply filter_In in Hin. destruct Hin as [Hin _].
    apply in_map_iff in Hin. destruct Hin as (m & <- & Hm).
    rewrite Forall_forall in Hs. destruct (Hs m Hm) as (Hw0 & Hw1).
    unfold synapse_in_range; cbn. unfold SYNAPSE_DECAY_RATE. split; lra.
Qed.

(** C1.  From an empty database, after every sequence of [record] and
    [decay] calls, each neuron has its activation in [0, 1] and its
    myelination in [0, 0.95], and each synapse has its weight in [0, 1].
    The calls that throw are part of the sequences: the ranges hold in what
    they leave too. *)
Theorem numeric_range_invariant (now0 : Z) (ops : list Op) :
  let st := store (run (BrainBoxDB_new empty_store now0) ops) in
  Forall (fun n => 0 <= activation n /\ activation n <= 1 /\
                   0 <= myelination n /\ myelination n <= 0.95) (neurons st) /\
  Forall (fun s => 0 <= weight s /\ weight s <= 1) (synapses st).
Proof.
  cbv zeta. change (in_range (store (run (BrainBoxDB_new empty_store now0) ops))).
  assert (H0 : in_range (store (BrainBoxDB_new empty_store now0))).
  { split; constructor. }
  revert H0. generalize (BrainBoxDB_new empty_store now0).
  unfold run. induction ops as [|o ops IH]; intros e He; [assumption|].
  cbn [fold_left]. apply IH.
  destruct o; cbn [step]; [now apply record_in_range | now apply decay_in_range].
Qed.

(** ** What [record] does to the neurons *)

Lemma upsertSynapse_neurons (st st' : Store) (source target : string) (w delta : Q) (now : Z) :
  upsertSynapse st source target w delta now = Some st' -> neurons st' = neurons st.
Proof.
  unfold upsertSynapse.
  destruct (existsb _ _); [now intros [= <-]|].
  destruct (getNeuron st source); [|discriminate].
  destruct (getNeuron st target); [|discriminate].
  now intros [= <-].
Qed.

Lemma strengthen_neurons (id : string) (now : Z) (len : nat) (window : list string) :
  forall (st : Store) (i : nat),
    neurons (fst (strengthen st id window i len now)) = neurons st.
Proof.
  induction window as [|r window IH]; intros st i; cbn [strengthen]; [reflexivity|].
  destruct (String.eqb r id); [apply IH|].
  destruct (upsertSynapse st id r _ _ now) as [st1|] eqn:E1; [|reflexivity].
  apply upsertSynapse_neurons in E1.
  destruct (upsertSynapse st1 r id _ _ now) as [st2|] eqn:E2; [|assumption].
  apply upsertSynapse_neurons in E2.
  rewrite IH. congruence.
Qed.

(** The neurons a call of [record] leaves, thrown or not: those of the
    upsert, or the old ones when the stored contexts do not decode. *)
Lemma record_neurons (e : Engine) (path : string) (type : NeuronType)
    (query : option string) (now : Z) :
  let id := neuron_id type path in
  let existing := getNeuron (store e) id in
  neurons (store (fst (record e path type query now))) =
  match stored_contexts existing with
  | Returns ctxs =>
      neurons (upsertNeuron (store e) id type path 1
                 (match existing with Some n => myelination n | None => 0 end)
                 now (JSON_stringify (add_context ctxs query)))
  | Throws _ => neurons (store e)
  end.
Proof.
  cbv zeta. unfold record. rewrite !ensureOpen_store.
  destruct (stored_contexts _) as [ctxs|x]; [|apply f_equal, ensureOpen_store].
  match goal with
  | |- context [strengthen ?st ?id ?w ?i ?len ?t] =>
      pose proof (strengthen_neurons id t len w st i) as Hs;
      destruct (strengthen st id w i len t) as [st' []]
  end; cbn in *; exact Hs.
Qed.

Lemma find_none_filter {A : Type} (f : A -> bool) (l : list A) :
  find f l = None -> filter f l = [].
Proof.
  induction l as [|x l IH]; cbn; [reflexivity|].
  destruct (f x); [discriminate | exact IH].
Qed.

Lemma find_app_none {A : Type} (f : A -> bool) (l : list A) (x : A) :
  find f l = None -> f x = true -> find f (l ++ [x]) = Some x.
Proof.
  induction l as [|y l IH]; cbn; intros Hl Hx; [now rewrite Hx|].
  destruct (f y); [discriminate | auto].
Qed.

Lemma filter_map_untouched (id : string) (g : Neuron -> Neuron) (l : list Neuron) :
  find (has_id id) l = None ->
  filter (has_id id) (map (fun n => if has_id id n then g n else n) l) = [].
Proof.
  induction l as [|x l IH]; cbn; [reflexivity|].
  destruct (has_id id x) eqn:E; [discriminate|].
  rewrite E. exact IH.
Qed.

(** C2, as the code has it.  Two calls of [record] for a [(type, path)]
    that has no neuron leave exactly one neuron of that id, with
    [access_count = 2]; its myelination is the update formula applied once to
    0, that is 0.02: the first call inserts the row with myelination 0, and
    only the second call goes through the update. *)
Theorem record_twice_one_neuron (e : Engine) (p : string) (t : NeuronType)
    (q1 q2 : option string) (now1 now2 : Z) :
  getNeuron (store e) (neuron_id t p) = None ->
  let e2 := fst (record (fst (record e p t q1 now1)) p t q2 now2) in
  exists n,
    filter (has_id (neuron_id t p)) (neurons (store e2)) = [n] /\
    access_count n = 2%Z /\
    myelination n = myelin_update 0 /\
    myelination n == 0.02.
Proof.
  intros Hnew e2. subst e2.
  set (id := neuron_id t p) in *.
  set (e1 := fst (record e p t q1 now1)).
  assert (H1 : neurons (store e1) =
               (neurons (store e) ++
                [mkNeuron id t p 1 0 1 (Some now1) now1 (JSON_stringify (add_context [] q1))])%list).
  { subst e1. rewrite record_neurons. fold id. rewrite Hnew. cbn [stored_contexts].
    unfold upsertNeuron. rewrite Hnew. reflexivity. }
  assert (Hid : has_id id (mkNeuron id t p 1 0 1 (Some now1) now1
                             (JSON_stringify (add_context [] q1))) = true).
  { unfold has_id; cbn. apply String.eqb_refl. }
  assert (Hget : getNeuron (store e1) id =
                 Some (mkNeuron id t p 1 0 1 (Some now1) now1
                         (JSON_stringify (add_context [] q1)))).
  { unfold getNeuron. rewrite H1. now apply find_app_none. }
  rewrite record_neurons. fold id. rewrite Hget.
  cbn [stored_contexts contexts]. rewrite JSON_stringify_not_empty, JSON_parse_stringify.
  unfold upsertNeuron. rewrite Hget. cbn [neurons set_neurons].
  rewrite H1, map_app, filter_app, filter_map_untouched by exact Hnew.
  cbn [map app filter]. rewrite Hid.
  change (has_id id (touch_neuron _ _ _ _)) with (String.eqb id id).
  rewrite String.eqb_refl.
  eexists. split; [reflexivity|]. cbn. repeat split; reflexivity.
Qed.

Lemma record_twice_one_neuron_witness :
  getNeuron (store fresh) (neuron_id file "/x") = None /\
  exists n,
    filter (has_id (neuron_id file "/x")) (neurons (store twice_x)) = [n] /\
    access_count n = 2%Z /\
    myelination n = myelin_update 0 /\
    myelination n == 0.02.
Proof.
  split; [reflexivity|].
  apply (record_twice_one_neuron fresh "/x" file None None 1 2). reflexivity.
Defined.

(** C2, as the claim has it, fails on a new engine: after two calls the
    neuron has [access_count = 2] but its myelination is not the formula
    applied twice to 0 (0.0396); it is 0.02. *)
Lemma record_twice_not_advanced_twice :
  exists n,
    getNeuron (store twice_x) "file:/x" = Some n /\
    access_count n = 2%Z /\
    myelination n == 0.02 /\
    ~ myelination n == myelin_update (myelin_update 0).
Proof.
  eexists. split; [vm_compute; reflexivity|].
  repeat split; vm_compute; discriminate.
Qed.

(** ** Two neurons recorded once each *)

Section Pair.

Variables (now0 now1 now2 : Z) (p1 p2 : string) (t1 t2 : NeuronType)
          (q1 q2 : option string).

Hypothesis distinct : neuron_id t1 p1 <> neuron_id t2 p2.

Lemma first_shape :
  let first := fst (record (BrainBoxDB_new empty_store now0) p1 t1 q1 now1) in
  first = mkEngine true
            (mkStore [new_row t1 p1 q1 now1] []
                     (access_log (store first)) 1 (sessions (store first)))
            [neuron_id t1 p1] (sessionId first) 1.
Proof. reflexivity. Qed.

Lemma pair_shape :
  neurons (store (pair_engine now0 p1 t1 q1 now1 p2 t2 q2 now2))
    = [new_row t1 p1 q1 now1; new_row t2 p2 q2 now2] /\
  synapses (store (pair_engine now0 p1 t1 q1 now1 p2 t2 q2 now2))
    = [new_synapse (neuron_id t2 p2) (neuron_id t1 p1) now2;
       new_synapse (neuron_id t1 p1) (neuron_id t2 p2) now2].
Proof.
  set (id1 := neuron_id t1 p1) in *. set (id2 := neuron_id t2 p2) in *.
  set (N1 := new_row t1 p1 q1 now1). set (N2 := new_row t2 p2 q2 now2).
  assert (H12 : String.eqb id1 id2 = false) by now apply String.eqb_neq.
  assert (H21 : String.eqb id2 id1 = false) by (rewrite String.eqb_sym; exact H12).
  unfold pair_engine. rewrite first_shape. fold N1 id1.
  set (first := fst (record (BrainBoxDB_new empty_store now0) p1 t1 q1 now1)).
  set (log := access_log (store first)). set (ses := sessions (store first)).
  set (sid := sessionId first). clearbody log ses sid. clear first.
  unfold record. cbn [ensureOpen db_open store recentAccesses sessionId accessOrder].
  fold id2.
  assert (G : getNeuron (mkStore [N1] [] log 1 ses) id2 = None).
  { unfold getNeuron, has_id. cbn. fold id1. now rewrite H12. }
  rewrite G. cbn [stored_contexts]. unfold upsertNeuron. rewrite G.
  cbn [set_neurons neurons synapses access_log access_log_seq sessions app].
  change (mkNeuron id2 t2 p2 1 0 1 (Some now2) now2 (JSON_stringify (add_context [] q2)))
    with N2.
  unfold logAccess.
  cbn [set_neurons neurons synapses access_log access_log_seq sessions app List.length].
  cbn [strengthen]. rewrite H12.
  unfold upsertSynapse, getNeuron, has_id, has_key.
  cbn [existsb neurons synapses find source_id target_id set_synapses app
       access_log access_log_seq sessions andb].
  change (n_id N1) with id1. change (n_id N2) with id2.
  rewrite !String.eqb_refl, ?H12, ?H21.
  cbn [existsb neurons synapses find source_id target_id set_synapses app
       access_log access_log_seq sessions andb orb].
  change (n_id N1) with id1. change (n_id N2) with id2.
  rewrite ?String.eqb_refl, ?H12, ?H21.
  split; reflexivity.
Qed.

End Pair.

(** ** Decay of a store whose rows fade together *)

Lemma filter_all {A : Type} (f : A -> bool) (l : list A) :
  (forall x, In x l -> f x = true) -> filter f l = l.
Proof.
  induction l as [|x l IH]; cbn; intro H; [reflexivity|].
  rewrite (H x (or_introl eq_refl)), IH; auto.
Qed.

Lemma filter_none {A : Type} (f : A -> bool) (l : list A) :
  (forall x, In x l -> f x = false) -> filter f l = [].
Proof.
  induction l as [|x l IH]; cbn; intro H; [reflexivity|].
  rewrite (H x (or_introl eq_refl)), IH; auto.
Qed.

Lemma known_map (g : Neuron -> Neuron) (l : list Neuron) (id : string) :
  (forall n, n_id (g n) = n_id n) -> known (map g l) id = known l id.
Proof.
  intro Hg. unfold known, has_id. induction l as [|x l IH]; cbn; [reflexivity|].
  now rewrite Hg, IH.
Qed.

Lemma decay_keeps (a m w : Q) (e : Engine) :
  uniform a m w (store e) -> fades a m = false -> weakens w = false ->
  uniform (next_a a) (next_m m) (next_w w) (store (fst (decay e))) /\
  List.length (neurons (store (fst (decay e)))) = List.length (neurons (store e)) /\
  List.length (synapses (store (fst (decay e)))) = List.length (synapses (store e)).
Proof.
  intros [Hn Hs] Hf Hw. rewrite Forall_forall in Hn, Hs.
  unfold decay. rewrite ensureOpen_store. cbn -[known].
  set (dn := fun n : Neuron => mkNeuron _ _ _ _ _ _ _ _ _).
  set (ds := fun s : Synapse => mkSynapse _ _ _ _ _ _).
  assert (Halive : forall x, In x (map dn (neurons (store e))) -> dead_neuron x = false).
  { intros x Hx. apply in_map_iff in Hx. destruct Hx as (n & <- & Hin).
    destruct (Hn n Hin) as (Ha & Hm & Hc).
    unfold dead_neuron; cbn. rewrite Ha, Hm, Hc.
    unfold fades, next_a, next_m in Hf. rewrite Hf. reflexivity. }
  assert (Hstrong : forall x, In x (map ds (synapses (store e))) -> weak_synapse x = false).
  { intros x Hx. apply in_map_iff in Hx. destruct Hx as (s & <- & Hin).
    destruct (Hs s Hin) as (Hws & _).
    unfold weak_synapse; cbn. rewrite Hws. exact Hw. }
  rewrite (filter_none dead_neuron) by exact Halive.
  rewrite (filter_all (fun n => negb (dead_neuron n))) by (intros x Hx; now rewrite Halive).
  rewrite (filter_all (fun s => negb (weak_synapse s))) by (intros x Hx; now rewrite Hstrong).
  rewrite (filter_all (fun s => negb (known [] (source_id s) || known [] (target_id s))))
    by reflexivity.
  rewrite !length_map. repeat split.
  - apply Forall_forall. intros x Hx. apply in_map_iff in Hx. destruct Hx as (n & <- & Hin).
    destruct (Hn n Hin) as (Ha & Hm & Hc). cbn. now rewrite Ha, Hm.
  - apply Forall_forall. intros x Hx. apply in_map_iff in Hx. destruct Hx as (s & <- & Hin).
    destruct (Hs s Hin) as (Hws & Hk). cbn [weight ds]. rewrite Hws. split; [reflexivity|].
    change (known (map dn (neurons (store e))) (source_id s) = true).
    rewrite known_map by reflexivity. exact Hk.
Qed.

Lemma decay_kills (a m w : Q) (e : Engine) :
  uniform a m w (store e) -> fades a m = true ->
  neurons (store (fst (decay e))) = [] /\ synapses (store (fst (decay e))) = [].
Proof.
  intros [Hn Hs] Hf. rewrite Forall_forall in Hn, Hs.
  unfold decay. rewrite ensureOpen_store. cbn -[known].
  set (dn := fun n : Neuron => mkNeuron _ _ _ _ _ _ _ _ _).
  set (ds := fun s : Synapse => mkSynapse _ _ _ _ _ _).
  assert (Hdead : forall x, In x (map dn (neurons (store e))) -> dead_neuron x = true).
  { intros x Hx. apply in_map_iff in Hx. destruct Hx as (n & <- & Hin).
    destruct (Hn n Hin) as (Ha & Hm & Hc).
    unfold dead_neuron; cbn. rewrite Ha, Hm, Hc.
    unfold fades, next_a, next_m in Hf. rewrite Hf. reflexivity. }
  rewrite (filter_all dead_neuron) by exact Hdead.
  split.
  - apply filter_none. intros x Hx. now rewrite Hdead.
  - apply filter_none. intros x Hx.
    apply filter_In in Hx. destruct Hx as [Hx _].
    apply in_map_iff in Hx. destruct Hx as (s & <- & Hin).
    destruct (Hs s Hin) as (_ & Hk).
    change (source_id (ds s)) with (source_id s).
    rewrite known_map by reflexivity. now rewrite Hk.
Qed.

Lemma decay_times_survives (k : nat) :
  forall (e : Engine) (a m w : Q),
    uniform a m w (store e) -> survives k a m w = true ->
    uniform (after k next_a a) (after k next_m m) (after k next_w w)
            (store (decay_times k e)) /\
    List.length (neurons (store (decay_times k e))) = List.length (neurons (store e)) /\
    List.length (synapses (store (decay_times k e))) = List.length (synapses (store e)).
Proof.
  induction k as [|k IH]; intros e a m w Hu Hk; cbn [decay_times after]; [auto|].
  cbn [survives] in Hk. apply andb_prop in Hk. destruct Hk as [Hk Hrest].
  apply andb_prop in Hk. destruct Hk as [Hf Hw].
  apply negb_true_iff in Hf, Hw.
  destruct (decay_keeps a m w e Hu Hf Hw) as (Hu' & Ln & Ls).
  destruct (IH _ _ _ _ Hu' Hrest) as (Hu'' & Ln' & Ls').
  repeat split; try apply Hu''; congruence.
Qed.

Lemma decay_times_empty (k : nat) :
  forall e : Engine,
    neurons (store e) = [] -> synapses (store e) = [] ->
    neurons (store (decay_times k e)) = [] /\ synapses (store (decay_times k e)) = [].
Proof.
  induction k as [|k IH]; intros e Hn Hs; cbn [decay_times]; [auto|].
  apply IH; unfold decay; rewrite ensureOpen_store; cbn; rewrite ?Hn, ?Hs; reflexivity.
Qed.

Lemma decay_times_add (j k : nat) (e : Engine) :
  decay_times (j + k) e = decay_times k (decay_times j e).
Proof.
  revert e. induction j as [|j IH]; intro e; cbn [decay_times Nat.add]; [reflexivity|].
  apply IH.
Qed.

(** C3, as the code has it.  Two neurons recorded once each on a new file
    are joined by two synapses of weight 0.1.  The first 28 calls of [decay]
    delete nothing.  The 29th deletes both neurons: their activation falls
    below 0.01 while their myelination is 0 and their access count is
    1 < 2, which is the condition of [pruneNeurons]; their synapses, whose
    weight is then still above 0.05, go with them by the cascade.  After 200
    calls there is neither neuron nor synapse. *)
Theorem decay_prunes_pair (now0 now1 now2 : Z) (p1 p2 : string) (t1 t2 : NeuronType)
    (q1 q2 : option string) :
  neuron_id t1 p1 <> neuron_id t2 p2 ->
  let e := pair_engine now0 p1 t1 q1 now1 p2 t2 q2 now2 in
  (List.length (neurons (store e)) = 2%nat /\
   List.length (synapses (store e)) = 2%nat /\
   Forall (fun n => access_count n = 1%Z /\ myelination n == 0) (neurons (store e)) /\
   Forall (fun s => weight s == 0.1) (synapses (store e))) /\
  (List.length (neurons (store (decay_times 28 e))) = 2%nat /\
   List.length (synapses (store (decay_times 28 e))) = 2%nat /\
   Forall (fun s => SYNAPSE_PRUNE_THRESHOLD <= weight s * (1 - SYNAPSE_DECAY_RATE))
          (synapses (store (decay_times 28 e)))) /\
  (neurons (store (decay_times 29 e)) = [] /\ synapses (store (decay_times 29 e)) = []) /\
  (neurons (store (decay_times 200 e)) = [] /\ synapses (store (decay_times 200 e)) = []).
Proof.
  intros Hne e.
  destruct (pair_shape now0 now1 now2 p1 p2 t1 t2 q1 q2 Hne) as [Hn Hs].
  fold e in Hn, Hs. clearbody e.
  assert (Hu : uniform 1 0 (delta_at 0 1) (store e)).
  { split; [rewrite Hn | rewrite Hs, Hn]; repeat constructor;
      unfold known, has_id, new_row, new_synapse; cbn [existsb n_id source_id];
      rewrite String.eqb_refl, ?orb_true_r; reflexivity. }
  assert (Hlive : survives 28 1 0 (delta_at 0 1) = true) by (vm_compute; reflexivity).
  destruct (decay_times_survives 28 e _ _ _ Hu Hlive) as (Hu28 & Ln & Ls).
  assert (Hdie : fades (after 28 next_a 1) (after 28 next_m 0) = true)
    by (vm_compute; reflexivity).
  pose proof (decay_kills _ _ _ _ Hu28 Hdie) as H29.
  assert (E29 : decay_times 29 e = fst (decay (decay_times 28 e))).
  { exact (decay_times_add 28 1 e). }
  assert (E200 : decay_times 200 e = decay_times 171 (decay_times 29 e)).
  { exact (decay_times_add 29 171 e). }
  rewrite E200, E29. clear E200 E29.
  split; [|split; [|split]].
  - rewrite Hn, Hs. cbn [List.length].
    split; [reflexivity|]. split; [reflexivity|].
    split; repeat constructor; reflexivity.
  - rewrite Ln, Ls, Hn, Hs. cbn [List.length].
    split; [reflexivity|]. split; [reflexivity|].
    destruct Hu28 as [_ Hw]. eapply Forall_impl; [|exact Hw].
    intros s [Hws _]. rewrite Hws. vm_compute. discriminate.
  - exact H29.
  - destruct H29. apply decay_times_empty; assumption.
Qed.

Lemma decay_prunes_pair_witness :
  neuron_id file "/a" <> neuron_id file "/b" /\
  neurons (store (decay_times 200 pair_ab)) = [] /\
  synapses (store (decay_times 200 pair_ab)) = [].
Proof.
  assert (H : neuron_id file "/a" <> neuron_id file "/b") by discriminate.
  split; [exact H|].
  exact (proj2 (proj2 (proj2 (decay_prunes_pair 0 1 2 "/a" "/b" file file None None H)))).
Defined.

(** C3, as the claim has it, fails: 200 calls of [decay] after
    [record("/a")] and [record("/b")] leave no neuron; none of the two
    survives. *)
Lemma decay_pair_neurons_do_not_survive :
  getNeuron (store pair_ab) "file:/a" <> None /\
  getNeuron (store pair_ab) "file:/b" <> None /\
  getNeuron (store (decay_times 200 pair_ab)) "file:/a" = None /\
  getNeuron (store (decay_times 200 pair_ab)) "file:/b" = None /\
  neurons (store (decay_times 200 pair_ab)) = [].
Proof.
  split; [vm_compute; discriminate|].
  split; [vm_compute; discriminate|].
  split; [vm_compute; reflexivity|].
  split; vm_compute; reflexivity.
Qed.

(** ** The Hebbian pair *)

(** [recall] reads the neurons and the synapses only. *)
Lemma recall_results_tables (st : Store) (query : string) (type : NeuronType) (limit now : Z) :
  recall_results st query type limit now =
  recall_results (mkStore (neurons st) (synapses st) [] 0 []) query type limit now.
Proof. reflexivity. Qed.

Lemma ratio_nonneg (k n : nat) : 0 <= ratio k n.
Proof.
  unfold ratio. destruct n as [|n].
  - cbn. unfold Qdiv, Qinv; cbn. rewrite Qmult_0_r. apply Qle_refl.
  - apply Qle_shift_div_l.
    + change 0 with (inject_Z 0). rewrite <- Zlt_Qlt. lia.
    + rewrite Qmult_0_l. change 0 with (inject_Z 0). rewrite <- Zle_Qle. lia.
Qed.

Lemma match_share_nonneg (keywords : list string) (text : string) :
  0 <= match_share keywords text.
Proof.
  unfold match_share. destruct (0 <? _)%nat; [apply ratio_nonneg | apply Qle_refl].
Qed.

(** A neuron whose contexts hold every keyword of the query scores at
    least 0.4, whatever the clock. *)
Lemma computeConfidence_full_match (n : Neuron) (query : string) (now : Z)
    (ctxs : list string) :
  JSON_parse (contexts n) = Returns ctxs ->
  match_share (keywords_of query) (toLowerCase (join " " ctxs)) == 1 ->
  0 <= myelination n ->
  exists c, computeConfidence n query now = Returns c /\ 0.4 <= c.
Proof.
  intros Hctx Hshare Hm. unfold computeConfidence. rewrite Hctx.
  eexists. split; [reflexivity|].
  apply MIN_ge; [|lra].
  pose proof (match_share_nonneg (keywords_of query) (toLowerCase (n_path n))) as Hp.
  set (p := match_share _ (toLowerCase (n_path n))) in *. clearbody p.
  set (s := match_share _ _) in *. clearbody s.
  destruct (last_accessed n) as [t|].
  - pose proof (MAX_ge_l 0 (1 - inject_Z (now - t) / (168 * 3600000))) as Hr.
    set (r := MAX _ _) in *. clearbody r. lra.
  - lra.
Qed.

(** C4, as the code has it.  The two calls leave two neurons and two
    synapses, [/y -> /x] and [/x -> /y], of weight 0.1; [recall("foo", file,
    5)] then returns [/x] and [/y], both by a direct match of confidence at
    least 0.4, at any time of the clock. *)
Theorem hebbian_pair_recall (now0 now1 now2 now3 : Z) :
  let e := hebbian_pair now0 now1 now2 in
  map n_id (neurons (store e)) = ["file:/x"; "file:/y"] /\
  map (fun s => (source_id s, target_id s)) (synapses (store e))
    = [("file:/y", "file:/x"); ("file:/x", "file:/y")] /\
  Forall (fun s => weight s == 0.1) (synapses (store e)) /\
  exists l,
    snd (recall e "foo" file 5 now3) = Returns l /\
    (map result_id l = ["file:/x"; "file:/y"] \/ map result_id l = ["file:/y"; "file:/x"]) /\
    Forall (fun r => activation_path r = direct /\ 0.4 <= confidence r) l.
Proof.
  intro e.
  assert (Hne : neuron_id file "/x" <> neuron_id file "/y") by discriminate.
  destruct (pair_shape now0 now1 now2 "/x" "/y" file file
              (Some "grep foo") (Some "grep foo") Hne) as [Hn Hs].
  fold (hebbian_pair now0 now1 now2) in Hn, Hs. fold e in Hn, Hs. clearbody e.
  split; [rewrite Hn; reflexivity|].
  split; [rewrite Hs; reflexivity|].
  split; [rewrite Hs; repeat constructor; reflexivity|].
  unfold recall. cbn [snd]. rewrite ensureOpen_store, recall_results_tables, Hn, Hs.
  clear Hn Hs Hne e.
  set (N1 := new_row file "/x" (Some "grep foo") now1).
  set (N2 := new_row file "/y" (Some "grep foo") now2).
  set (st := mkStore _ _ _ _ _).
  destruct (computeConfidence_full_match N1 "foo" now3 ["grep foo"])
    as (c1 & Hc1 & Hge1); [reflexivity | reflexivity | apply Qle_refl |].
  destruct (computeConfidence_full_match N2 "foo" now3 ["grep foo"])
    as (c2 & Hc2 & Hge2); [reflexivity | reflexivity | apply Qle_refl |].
  assert (Hg1 : Qltb c1 CONFIDENCE_GATE = false) by now apply Qltb_false.
  assert (Hg2 : Qltb c2 CONFIDENCE_GATE = false) by now apply Qltb_false.
  unfold recall_results.
  replace (directMatches st (keywords_of "foo")) with (Returns [N1; N2]) by reflexivity.
  set (R1 := mkResult (mkParsed N1 ["grep foo"]) c1 direct).
  set (R2 := mkResult (mkParsed N2 ["grep foo"]) c2 direct).
  assert (S1 : direct_step file "foo" now3 ([], []) N1 = Returns ([R1], ["file:/x"])).
  { unfold direct_step. rewrite Hc1, Hg1. reflexivity. }
  assert (S2 : direct_step file "foo" now3 ([R1], ["file:/x"]) N2
               = Returns ([R1; R2], ["file:/y"; "file:/x"])).
  { unfold direct_step. rewrite Hc2, Hg2. reflexivity. }
  cbn [foldM]. rewrite S1, S2.
  replace (spread_phase st file [R1; R2] ([R1; R2], ["file:/y"; "file:/x"]))
    with (Returns ([R1; R2], ["file:/y"; "file:/x"])) by reflexivity.
  replace (myelin_phase st file 5 ([R1; R2], ["file:/y"; "file:/x"]))
    with (Returns [R1; R2]) by reflexivity.
  unfold sort_desc, sort_by. cbn [fold_right insert_by confidence R1 R2].
  destruct (Qle_bool c2 c1); eexists; (split; [reflexivity|]);
    (split; [auto|]); repeat constructor; assumption.
Qed.

(** C4, as the claim has it, fails: the two calls leave two synapses, not
    four. *)
Lemma hebbian_pair_two_synapses :
  List.length (neurons (store pair_xy)) = 2%nat /\
  List.length (synapses (store pair_xy)) = 2%nat /\
  List.length (synapses (store pair_xy)) <> 4%nat.
Proof.
  split; [vm_compute; reflexivity|].
  split; [vm_compute; reflexivity|].
  vm_compute. discriminate.
Qed.

(** ** Stores whose contexts all decode *)

Lemma upsertNeuron_decodable (st : Store) (id : string) (type : NeuronType) (path : string)
    (act myel : Q) (now : Z) (ctxs : list string) :
  decodable st -> decodable (upsertNeuron st id type path act myel now (JSON_stringify ctxs)).
Proof.
  unfold decodable, upsertNeuron. intro Hd.
  destruct (getNeuron st id) as [old|]; cbn [neurons set_neurons].
  - rewrite Forall_forall in *. intros n Hin.
    apply in_map_iff in Hin. destruct Hin as (m & <- & Hm).
    destruct (has_id id m); [|auto].
    exists ctxs. apply JSON_parse_stringify.
  - apply Forall_app. split; [assumption|].
    constructor; [|constructor]. exists ctxs. apply JSON_parse_stringify.
Qed.

Lemma record_decodable (e : Engine) (path : string) (type : NeuronType)
    (query : option string) (now : Z) :
  decodable (store e) -> decodable (store (fst (record e path type query now))).
Proof.
  intro Hd. unfold decodable at 1. rewrite record_neurons. cbv zeta.
  destruct (stored_contexts _); [|exact Hd].
  now apply upsertNeuron_decodable.
Qed.

Lemma decay_decodable (e : Engine) :
  decodable (store e) -> decodable (store (fst (decay e))).
Proof.
  unfold decodable, decay. rewrite ensureOpen_store. cbn. intro Hd.
  rewrite Forall_forall in *. intros n Hin.
  apply filter_In in Hin. destruct Hin as [Hin _].
  apply in_map_iff in Hin. destruct Hin as (m & <- & Hm). cbn. auto.
Qed.

(** From an empty database every stored contexts text decodes: [record]
    writes what [JSON.stringify] gives. *)
Lemma run_decodable (now0 : Z) (ops : list Op) :
  decodable (store (run (BrainBoxDB_new empty_store now0) ops)).
Proof.
  assert (H0 : decodable (store (BrainBoxDB_new empty_store now0))) by constructor.
  revert H0. generalize (BrainBoxDB_new empty_store now0).
  unfold run. induction ops as [|o ops IH]; intros e He; [assumption|].
  cbn [fold_left]. apply IH.
  destruct o; cbn [step]; [now apply record_decodable | now apply decay_decodable].
Qed.

(** On such a store [record] returns, or stops on a foreign key: a neuron
    of the window that [decay] has deleted. *)
Lemma record_decodable_outcome (e : Engine) (path : string) (type : NeuronType)
    (query : option string) (now : Z) :
  decodable (store e) ->
  snd (record e path type query now) = Returns tt \/
  snd (record e path type query now) = Throws ForeignKeyError.
Proof.
  intro Hd. unfold record. rewrite ensureOpen_store.
  assert (Hc : exists ctxs,
             stored_contexts (getNeuron (store e) (neuron_id type path)) = Returns ctxs).
  { destruct (getNeuron (store e) (neuron_id type path)) as [n|] eqn:E;
      cbn [stored_contexts]; [|eauto].
    destruct (is_empty (contexts n)); [eauto|].
    apply getNeuron_in in E. destruct E as [Hin _].
    unfold decodable in Hd. rewrite Forall_forall in Hd. exact (Hd n Hin). }
  destruct Hc as [ctxs ->].
  destruct (strengthen _ _ _ _ _ _) as [st []]; cbn; auto.
Qed.

Lemma firstn_In {A : Type} (k : nat) (l : list A) (x : A) : In x (firstn k l) -> In x l.
Proof.
  revert l. induction k as [|k IH]; intros [|y l]; cbn; try tauto.
  intros [->|H]; auto.
Qed.

Lemma LIMIT_In {A : Type} (k : Z) (l : list A) (x : A) : In x (LIMIT k l) -> In x l.
Proof.
  unfold LIMIT. destruct (k <? 0)%Z; [trivial | apply firstn_In].
Qed.

Lemma insert_by_In {A : Type} (le : A -> A -> bool) (x y : A) (l : list A) :
  In y (insert_by le x l) -> y = x \/ In y l.
Proof.
  induction l as [|z l IH]; cbn.
  - intros [->|[]]. now left.
  - destruct (le x z); cbn.
    + intros [->|H]; auto.
    + intros [->|H]; auto. destruct (IH H); auto.
Qed.

Lemma sort_by_In {A : Type} (le : A -> A -> bool) (l : list A) (y : A) :
  In y (sort_by le l) -> In y l.
Proof.
  unfold sort_by. induction l as [|x l IH]; cbn; [trivial|].
  intro H. apply insert_by_In in H. destruct H as [->|H]; auto.
Qed.

Lemma searchByContext_In (st : Store) (pattern : string) (limit : Z)
    (rows : list Neuron) (n : Neuron) :
  searchByContext st pattern limit = Returns rows -> In n rows -> In n (neurons st).
Proof.
  unfold searchByContext, sort_desc. destruct (_ && _); [discriminate|].
  intros [= <-] H. apply LIMIT_In, sort_by_In, filter_In in H. tauto.
Qed.

(** The searches of Phase 1 ask for ten rows. *)
Lemma searchByContext_ten (st : Store) (pattern : string) :
  searchByContext st pattern 10 =
  if too_complex pattern && has_rows (neurons st) then Throws LikePatternError
  else Returns (LIMIT 10 (sort_desc myelination
                            (filter (fun n => like pattern (contexts n)) (neurons st)))).
Proof.
  unfold searchByContext. change (negb (10 =? 0)%Z) with true. now rewrite andb_true_r.
Qed.

Lemma topByMyelination_In (st : Store) (type : NeuronType) (limit : Z) (n : Neuron) :
  In n (topByMyelination st type limit) -> In n (neurons st).
Proof.
  unfold topByMyelination, sort_desc. intro H.
  apply LIMIT_In, sort_by_In, filter_In in H. tauto.
Qed.

Lemma add_matches_In (matches : list Neuron) :
  forall (d : list Neuron) (n : Neuron),
    In n (add_matches d matches) -> In n d \/ In n matches.
Proof.
  unfold add_matches. induction matches as [|m matches IH]; intros d n; cbn; [auto|].
  intro H. apply IH in H. destruct H as [H|H]; [|auto].
  destruct (known d (n_id m)); [auto|].
  apply in_app_or in H. destruct H as [H|[->|[]]]; auto.
Qed.

Lemma add_matches_from (matches : list Neuron) :
  forall (P : Neuron -> Prop) (d : list Neuron),
    Forall P d -> Forall P matches -> Forall P (add_matches d matches).
Proof.
  unfold add_matches. induction matches as [|m matches IH]; intros P d Hd Hm; cbn;
    [assumption|].
  inversion Hm as [|? ? Hm0 Hm']; subst. apply IH; [|assumption].
  destruct (known d (n_id m)); [assumption|].
  apply Forall_app. split; [assumption | now constructor].
Qed.

(** What holds of the rows of every search holds of the candidates. *)
Lemma directMatches_from (P : Neuron -> Prop) (st : Store) (keywords : list string)
    (l : list Neuron) :
  (forall kw rows, In kw keywords ->
     searchByContext st ("%" ++ kw ++ "%") 10 = Returns rows -> Forall P rows) ->
  directMatches st keywords = Returns l -> Forall P l.
Proof.
  unfold directMatches. intro Hrows.
  assert (G : forall d, Forall P d ->
              foldM (fun d kw => map_outcome (add_matches d)
                                   (searchByContext st ("%" ++ kw ++ "%") 10))
                    keywords d = Returns l -> Forall P l).
  { induction keywords as [|kw keywords IH]; intros d Hd; cbn [foldM].
    - now intros [= <-].
    - destruct (searchByContext st _ 10) as [rows|] eqn:E; cbn [map_outcome];
        [|discriminate].
      apply IH; [intros; eapply Hrows; eauto; now right|].
      apply add_matches_from; [assumption|]. eapply Hrows; eauto. now left. }
  apply G. constructor.
Qed.

Lemma directMatches_In (st : Store) (keywords : list string) (l : list Neuron) (n : Neuron) :
  directMatches st keywords = Returns l -> In n l -> In n (neurons st).
Proof.
  intros H Hn.
  pose proof (directMatches_from (fun n => In n (neurons st)) st keywords l) as G.
  rewrite Forall_forall in G. apply G; [|assumption..].
  intros kw rows _ E. apply Forall_forall. intros x Hx. eapply searchByContext_In; eauto.
Qed.

(** The searches of Phase 1 go through unless one of them is refused. *)
Lemma directMatches_cases (st : Store) (keywords : list string) :
  if search_fails st keywords
  then directMatches st keywords = Throws LikePatternError
  else exists l, directMatches st keywords = Returns l.
Proof.
  unfold search_fails, directMatches. generalize (@nil Neuron).
  destruct (has_rows (neurons st)) eqn:Hr.
  - rewrite andb_true_r.
    induction keywords as [|kw keywords IH]; intro d; cbn [existsb foldM]; [eauto|].
    rewrite searchByContext_ten, Hr, andb_true_r.
    destruct (too_complex ("%" ++ kw ++ "%")); cbn [orb map_outcome]; [reflexivity|].
    apply IH.
  - rewrite andb_false_r.
    induction keywords as [|kw keywords IH]; intro d; cbn [foldM]; [eauto|].
    rewrite searchByContext_ten, Hr, andb_false_r. cbn [map_outcome]. apply IH.
Qed.

Lemma decodable_parse (st : Store) (n : Neuron) :
  decodable st -> In n (neurons st) ->
  exists ctxs, JSON_parse (contexts n) = Returns ctxs /\
               parseNeuron n = Returns (mkParsed n ctxs).
Proof.
  intros Hd Hin. unfold decodable in Hd. rewrite Forall_forall in Hd.
  destruct (Hd n Hin) as [ctxs Hc]. exists ctxs. split; [exact Hc|].
  unfold parseNeuron. now rewrite Hc.
Qed.

Lemma foldM_total {A B : Type} (body : B -> A -> outcome B) (l : list A) :
  (forall b x, In x l -> exists b', body b x = Returns b') ->
  forall b, exists b', foldM body l b = Returns b'.
Proof.
  induction l as [|x l IH]; intros H b; cbn; [eauto|].
  destruct (H b x (or_introl eq_refl)) as [b' ->].
  apply IH. intros; apply H; now right.
Qed.

Lemma direct_step_total (st : Store) (type : NeuronType) (query : string) (now : Z)
    (acc : RecallState) (n : Neuron) :
  decodable st -> In n (neurons st) ->
  exists acc', direct_step type query now acc n = Returns acc'.
Proof.
  intros Hd Hin. destruct (decodable_parse st n Hd Hin) as (ctxs & Hc & Hpn).
  unfold direct_step. destruct acc as [results activated].
  destruct (negb _); [eauto|].
  unfold computeConfidence. rewrite Hc, Hpn.
  destruct (Qltb _ _); eauto.
Qed.

Lemma spread_step_total (st : Store) (type : NeuronType) (seed : RecallResult)
    (acc : RecallState) (syn : Synapse) :
  decodable st -> exists acc', spread_step st type seed acc syn = Returns acc'.
Proof.
  intro Hd. unfold spread_step. destruct acc as [results activated].
  destruct (_ || _); [eauto|].
  destruct (getNeuron st (target_id syn)) as [target|] eqn:E; [|eauto].
  apply getNeuron_in in E. destruct E as [Hin _].
  destruct (decodable_parse st target Hd Hin) as (ctxs & _ & ->).
  destruct (negb _); [eauto|]. destruct (Qltb _ _); eauto.
Qed.


Lemma recall_ranked_total (st : Store) (query : string) (type : NeuronType) (now : Z) :
  decodable st ->
  if search_fails st (keywords_of query)
  then recall_ranked st query type now = Throws LikePatternError
  else exists ranked, recall_ranked st query type now = Returns ranked.
Proof.
  intro Hd. unfold recall_ranked.
  pose proof (directMatches_cases st (keywords_of query)) as Hc.
  destruct (search_fails st (keywords_of query)); [now rewrite Hc|].
  destruct Hc as [candidates Hc]. rewrite Hc.
  destruct (foldM_total (direct_step type query now) candidates)
    with (b := (@nil RecallResult, @nil string)) as [[frontier activated] ->].
  { intros b x Hx. eapply direct_step_total; eauto using directMatches_In. }
  unfold spread_phase.
  destruct (foldM_total
              (fun acc seed => foldM (spread_step st type seed) (seed_synapses st seed) acc)
              frontier) with (b := (frontier, activated)) as [acc ->].
  { intros b seed _. apply foldM_total. intros; now apply spread_step_total. }
  eauto.
Qed.

(** With a limit that is not positive, Phase 3 is skipped and [recall]
    returns [slice(0, limit)] of the ranking. *)
Lemma recall_results_nonpositive (st : Store) (query : string) (type : NeuronType)
    (limit now : Z) :
  (limit <= 0)%Z ->
  recall_results st query type limit now =
  map_outcome (slice_to limit) (recall_ranked st query type now).
Proof.
  intro Hl. unfold recall_results, recall_ranked.
  destruct (directMatches _ _) as [candidates|]; [|reflexivity].
  destruct (foldM _ _ _) as [[frontier activated]|]; [|reflexivity].
  destruct (spread_phase _ _ _ _) as [[results act]|]; [|reflexivity].
  unfold myelin_phase.
  replace (Z.of_nat (List.length results) <? limit)%Z with false
    by (symmetry; apply Z.ltb_ge; lia).
  reflexivity.
Qed.

(** C5, as the code has it.  Nothing validates the arguments.  [record]
    with an empty path, on a store with no neuron ["<type>:"], inserts that
    neuron as for any path.  [recall] with a limit that is not positive, on a
    store whose contexts decode, runs Phases 1 and 2 as with any limit.  It
    raises when a search of Phase 1 is refused: a keyword of 49999 bytes or
    more, with a neuron in the table.  Otherwise it returns [slice(0, limit)]
    of the ranking of Phases 1 and 2: the empty list for 0, and for a negative
    limit the ranking without its last [-limit] entries. *)
Theorem invalid_input_is_not_checked (e : Engine) (t : NeuronType) (q : option string)
    (query : string) (limit now : Z) :
  getNeuron (store e) (neuron_id t EmptyString) = None ->
  decodable (store e) ->
  (limit <= 0)%Z ->
  (exists n,
     getNeuron (store (fst (record e EmptyString t q now))) (type_name t ++ ":") = Some n /\
     n_path n = EmptyString /\ access_count n = 1%Z) /\
  (if search_fails (store e) (keywords_of query)
   then snd (recall e query t limit now) = Throws LikePatternError
   else
     exists ranked,
       recall_ranked (store e) query t now = Returns ranked /\
       snd (recall e query t limit now) =
         Returns (if (limit =? 0)%Z then []
                  else firstn (List.length ranked - Z.to_nat (- limit)) ranked)).
Proof.
  intros Hnew Hd Hl. split.
  - unfold getNeuron. rewrite record_neurons. cbv zeta.
    rewrite Hnew. cbn [stored_contexts]. unfold upsertNeuron. rewrite Hnew.
    cbn [neurons set_neurons].
    eexists. split; [|split].
    + apply find_app_none; [exact Hnew|]. unfold has_id; cbn. apply String.eqb_refl.
    + reflexivity.
    + reflexivity.
  - pose proof (recall_ranked_total (store e) query t now Hd) as Hr.
    unfold recall. cbn [snd]. rewrite ensureOpen_store.
    rewrite recall_results_nonpositive by exact Hl.
    destruct (search_fails (store e) (keywords_of query)); [now rewrite Hr|].
    destruct Hr as [ranked Hr].
    exists ranked. split; [exact Hr|]. rewrite Hr. cbn [map_outcome].
    f_equal. unfold slice_to.
    destruct (limit =? 0)%Z eqn:E0.
    + apply Z.eqb_eq in E0. subst limit. reflexivity.
    + apply Z.eqb_neq in E0.
      replace (limit <? 0)%Z with true by (symmetry; apply Z.ltb_lt; lia).
      f_equal. lia.
Qed.

Lemma invalid_input_is_not_checked_witness :
  getNeuron (store pair_xy) (neuron_id file EmptyString) = None /\
  decodable (store pair_xy) /\
  (-1 <= 0)%Z /\
  search_fails (store pair_xy) (keywords_of "foo") = false /\
  exists ranked,
    recall_ranked (store pair_xy) "foo" file 3 = Returns ranked /\
    snd (recall pair_xy "foo" file (-1) 3) =
      Returns (firstn (List.length ranked - 1) ranked).
Proof.
  assert (H1 : getNeuron (store pair_xy) (neuron_id file EmptyString) = None)
    by (vm_compute; reflexivity).
  assert (H2 : decodable (store pair_xy))
    by (repeat constructor; eexists; vm_compute; reflexivity).
  assert (H3 : (-1 <= 0)%Z) by lia.
  split; [exact H1|]. split; [exact H2|]. split; [exact H3|]. split; [reflexivity|].
  exact (proj2 (invalid_input_is_not_checked pair_xy file None "foo" (-1) 3 H1 H2 H3)).
Defined.

(** C5, as the claim has it, fails twice: [record] with an empty path on a
    new file creates the neuron ["file:"], and [recall] with limit [-1] after
    the Hebbian pair returns one result. *)
Lemma invalid_input_has_effects :
  neurons (store fresh) = [] /\
  map n_id (neurons (store (fst (record fresh EmptyString file None 1)))) = ["file:"] /\
  snd (record fresh EmptyString file None 1) = Returns tt /\
  exists r, snd (recall pair_xy "foo" file (-1) 3) = Returns [r].
Proof.
  split; [reflexivity|].
  split; [vm_compute; reflexivity|].
  split; [vm_compute; reflexivity|].
  eexists. vm_compute. reflexivity.
Qed.

(** ** Contexts that do not decode *)

Lemma foldM_throws {A B : Type} (body : B -> A -> outcome B) (l : list A) (x : A) (err : exn) :
  In x l ->
  (forall b, body b x = Throws err) ->
  (forall b y, In y l -> body b y = Throws err \/ exists b', body b y = Returns b') ->
  forall b, foldM body l b = Throws err.
Proof.
  intros Hin Hx. induction l as [|y l IH]; intros Hl b; cbn; [destruct Hin|].
  destruct Hin as [->|Hin].
  - now rewrite Hx.
  - destruct (Hl b y (or_introl eq_refl)) as [->|[b' ->]]; [reflexivity|].
    apply IH; [exact Hin|]. intros; apply Hl; now right.
Qed.

Lemma direct_step_torn (st : Store) (type : NeuronType) (query : string) (now : Z)
    (acc : RecallState) (n : Neuron) :
  array_or_torn st -> In n (neurons st) ->
  direct_step type query now acc n = Throws SyntaxError \/
  exists acc', direct_step type query now acc n = Returns acc'.
Proof.
  intros Hst Hin. unfold array_or_torn in Hst. rewrite Forall_forall in Hst.
  unfold direct_step, computeConfidence, parseNeuron. destruct acc as [results activated].
  destruct (negb _); [eauto|].
  destruct (Hst n Hin) as [[ctxs ->]| ->]; [|now left].
  destruct (Qltb _ _); eauto.
Qed.

(** C7, as the code has it.  Nothing catches the [SyntaxError] of
    [JSON.parse].  [record] on a neuron whose stored contexts are a text that
    is not empty and is not JSON throws, and writes nothing; [recall] throws
    when such a neuron, of the type asked for, is among the candidates of
    Phase 1 (the other stored texts being arrays of strings or not JSON
    either).  [record] takes the empty text, and it alone, for an empty
    list. *)
Theorem undecodable_contexts_throw (e : Engine) (n : Neuron) :
  JSON_parse (contexts n) = Throws SyntaxError ->
  (forall path type query now,
     getNeuron (store e) (neuron_id type path) = Some n ->
     if is_empty (contexts n)
     then snd (record e path type query now) <> Throws SyntaxError
     else record e path type query now = (ensureOpen e, Throws SyntaxError)) /\
  (forall query limit now candidates,
     array_or_torn (store e) ->
     directMatches (store e) (keywords_of query) = Returns candidates ->
     In n candidates ->
     snd (recall e query (n_type n) limit now) = Throws SyntaxError).
Proof.
  intro Hbad. split.
  - intros path type query now Hget. unfold record.
    rewrite ensureOpen_store, Hget. cbn [stored_contexts].
    destruct (is_empty (contexts n)).
    + destruct (strengthen _ _ _ _ _ _) as [st []]; cbn; discriminate.
    + rewrite Hbad. reflexivity.
  - intros query limit now candidates Hst Hc Hin. unfold recall, recall_results. cbn [snd].
    rewrite ensureOpen_store, Hc.
    rewrite (foldM_throws _ _ n SyntaxError Hin); [reflexivity| |].
    + intros [results activated]. unfold direct_step, computeConfidence.
      rewrite Hbad.
      replace (NeuronType_eqb (n_type n) (n_type n)) with true
        by (now destruct (n_type n)).
      reflexivity.
    + intros b y Hy. eapply direct_step_torn; eauto using directMatches_In.
Qed.

Lemma undecodable_contexts_throw_witness :
  JSON_parse (contexts torn_row) = Throws SyntaxError /\
  getNeuron (store torn) (neuron_id file "/x") = Some torn_row /\
  array_or_torn (store torn) /\
  directMatches (store torn) (keywords_of "foo") = Returns [torn_row] /\
  In torn_row [torn_row] /\
  record torn "/x" file (Some "grep bar") 1 = (ensureOpen torn, Throws SyntaxError) /\
  snd (recall torn "foo" file 5 1) = Throws SyntaxError.
Proof.
  assert (H1 : JSON_parse (contexts torn_row) = Throws SyntaxError) by reflexivity.
  assert (H0 : array_or_torn (store torn)) by (repeat constructor; right; reflexivity).
  assert (H2 : getNeuron (store torn) (neuron_id file "/x") = Some torn_row) by reflexivity.
  assert (H3 : directMatches (store torn) (keywords_of "foo") = Returns [torn_row])
    by reflexivity.
  assert (H4 : In torn_row [torn_row]) by (left; reflexivity).
  split; [exact H1|]. split; [exact H2|]. split; [exact H0|]. split; [exact H3|].
  split; [exact H4|]. split.
  - exact (proj1 (undecodable_contexts_throw torn torn_row H1)
             "/x" file (Some "grep bar") 1%Z H2).
  - exact (proj2 (undecodable_contexts_throw torn torn_row H1) "foo" 5%Z 1%Z _ H0 H3 H4).
Defined.

(** C7, as the claim has it, fails: on a file whose contexts of [/x] do not
    decode, [record] on [/x] throws and so does a [recall] that matches it;
    the text is not taken for an empty list and is not overwritten. *)
Lemma undecodable_contexts_not_recovered :
  snd (record torn "/x" file (Some "grep bar") 1) = Throws SyntaxError /\
  neurons (store (fst (record torn "/x" file (Some "grep bar") 1))) = [torn_row] /\
  snd (recall torn "foo" file 5 1) = Throws SyntaxError.
Proof.
  split; [vm_compute; reflexivity|].
  split; vm_compute; reflexivity.
Qed.

(** ** Symmetry of the synapses *)

Lemma has_key_same (a b c d : string) (s : Synapse) :
  has_key a b s = true -> has_key c d s = same_key a b c d.
Proof.
  unfold has_key, same_key. intro H. apply andb_prop in H. destruct H as [Hs Ht].
  apply String.eqb_eq in Hs, Ht. rewrite Hs, Ht. reflexivity.
Qed.

Lemma same_key_refl (a b : string) : same_key a b a b = true.
Proof. unfold same_key. now rewrite !String.eqb_refl. Qed.

Lemma same_key_swap (a b c d : string) : same_key b a d c = same_key a b c d.
Proof. unfold same_key. apply andb_comm. Qed.

Lemma existsb_find {A : Type} (f : A -> bool) (l : list A) :
  existsb f l = match find f l with Some _ => true | None => false end.
Proof.
  induction l as [|x l IH]; cbn; [reflexivity|].
  destruct (f x); [reflexivity | exact IH].
Qed.

Lemma find_app_last {A : Type} (f : A -> bool) (l : list A) (x : A) :
  find f (l ++ [x]) =
  match find f l with
  | Some y => Some y
  | None => if f x then Some x else None
  end.
Proof.
  induction l as [|y l IH]; cbn; [reflexivity|].
  destruct (f y); [reflexivity | exact IH].
Qed.

Lemma weight_of_fired (a b c d : string) (delta : Q) (now : Z) (l : list Synapse) :
  option_map weight
    (find (has_key c d)
          (map (fun s => if has_key a b s then fire_synapse delta now s else s) l)) =
  if same_key a b c d
  then option_map (fun w => MIN (w + delta * (1 - w)) 1)
                  (option_map weight (find (has_key a b) l))
  else option_map weight (find (has_key c d) l).
Proof.
  induction l as [|s l IH]; cbn [map find option_map].
  - now destruct (same_key a b c d).
  - destruct (has_key a b s) eqn:Eab.
    + change (has_key c d (fire_synapse delta now s)) with (has_key c d s).
      rewrite (has_key_same a b c d s Eab).
      destruct (same_key a b c d) eqn:Ek; [reflexivity | exact IH].
    + destruct (has_key c d s) eqn:Ecd.
      * destruct (same_key a b c d) eqn:Ek; [|reflexivity].
        unfold same_key in Ek. apply andb_prop in Ek. destruct Ek as [E1 E2].
        apply String.eqb_eq in E1, E2. subst c d. congruence.
      * exact IH.
Qed.

(** What [upsertSynapse] does to the weights. *)
Lemma upsertSynapse_weight_of (st st' : Store) (a b : string) (delta : Q) (now : Z) :
  upsertSynapse st a b delta delta now = Some st' ->
  forall c d,
    weight_of st' c d =
    if same_key a b c d then Some (strengthened delta (weight_of st a b))
    else weight_of st c d.
Proof.
  unfold upsertSynapse, weight_of. rewrite existsb_find.
  destruct (find (has_key a b) (synapses st)) as [s0|] eqn:Ef.
  - intros [= <-] c d. cbn [synapses set_synapses].
    rewrite weight_of_fired, Ef. reflexivity.
  - destruct (getNeuron st a); [|discriminate].
    destruct (getNeuron st b); [|discriminate].
    intros [= <-] c d. cbn [synapses set_synapses].
    rewrite find_app_last.
    change (has_key c d (mkSynapse a b delta 1 (Some now) now)) with (same_key a b c d).
    destruct (same_key a b c d) eqn:Ek.
    + unfold same_key in Ek. apply andb_prop in Ek. destruct Ek as [E1 E2].
      apply String.eqb_eq in E1, E2. subst c d. rewrite Ef. reflexivity.
    + now destruct (find (has_key c d) (synapses st)).
Qed.

Lemma upsertSynapse_can (st : Store) (a b : string) (w delta : Q) (now : Z) :
  can_upsert st a b = true <-> upsertSynapse st a b w delta now <> None.
Proof.
  unfold can_upsert, upsertSynapse, weight_of. rewrite existsb_find.
  destruct (find (has_key a b) (synapses st)); cbn [option_map].
  - split; [discriminate | reflexivity].
  - destruct (getNeuron st a), (getNeuron st b); split; congruence.
Qed.

Lemma upsertSynapse_getNeuron (st st' : Store) (a b : string) (w delta : Q) (now : Z)
    (id : string) :
  upsertSynapse st a b w delta now = Some st' -> getNeuron st' id = getNeuron st id.
Proof.
  intro H. unfold getNeuron. now rewrite (upsertSynapse_neurons _ _ _ _ _ _ _ H).
Qed.

(** On a symmetric store the two statements of a Hebbian step go through
    together, and leave a symmetric store. *)
Lemma upsert_pair_symmetric (st st1 : Store) (a b : string) (delta : Q) (now : Z) :
  a <> b ->
  symmetric st ->
  upsertSynapse st a b delta delta now = Some st1 ->
  exists st2, upsertSynapse st1 b a delta delta now = Some st2 /\ symmetric st2.
Proof.
  intros Hab Hsym H1.
  assert (Hk : same_key a b b a = false).
  { unfold same_key. apply String.eqb_neq in Hab. now rewrite Hab. }
  pose proof (upsertSynapse_weight_of _ _ _ _ _ _ H1) as W1.
  assert (Hcan : can_upsert st1 b a = true).
  { assert (Hc : can_upsert st a b = true)
      by (apply (upsertSynapse_can st a b delta delta now); congruence).
    unfold can_upsert in *. rewrite W1, Hk.
    rewrite !(upsertSynapse_getNeuron _ _ _ _ _ _ _ _ H1).
    rewrite <- (Hsym a b).
    destruct (weight_of st a b); [reflexivity|].
    destruct (getNeuron st a), (getNeuron st b); congruence. }
  destruct (upsertSynapse st1 b a delta delta now) as [st2|] eqn:H2.
  2:{ apply (upsertSynapse_can st1 b a delta delta now) in Hcan. contradiction. }
  exists st2. split; [reflexivity|].
  pose proof (upsertSynapse_weight_of _ _ _ _ _ _ H2) as W2.
  intros c d. rewrite !W2, !W1, Hk.
  rewrite (same_key_swap a b c d), (same_key_swap b a c d).
  rewrite (Hsym b a), (Hsym d c).
  destruct (same_key a b c d), (same_key b a c d); reflexivity.
Qed.

Lemma strengthen_symmetric (id : string) (now : Z) (len : nat) (window : list string) :
  forall (st : Store) (i : nat),
    symmetric st -> symmetric (fst (strengthen st id window i len now)).
Proof.
  induction window as [|r window IH]; intros st i Hsym; cbn [strengthen]; [assumption|].
  destruct (String.eqb r id) eqn:Er; [now apply IH|].
  apply String.eqb_neq in Er.
  destruct (upsertSynapse st id r _ _ now) as [st1|] eqn:E1; [|assumption].
  destruct (upsert_pair_symmetric st st1 id r _ now (not_eq_sym Er) Hsym E1)
    as (st2 & E2 & Hsym2).
  rewrite E2. now apply IH.
Qed.

Lemma record_symmetric (e : Engine) (path : string) (type : NeuronType)
    (query : option string) (now : Z) :
  symmetric (store e) -> symmetric (store (fst (record e path type query now))).
Proof.
  intro He. unfold record. rewrite <- ensureOpen_store in He.
  set (e1 := ensureOpen e) in *. clearbody e1.
  destruct (stored_contexts _) as [ctxs|x]; [|assumption].
  set (st1 := logAccess _ _ _ _ _ _ _).
  assert (H1 : symmetric st1).
  { intros a b. unfold st1, logAccess, upsertNeuron, weight_of.
    destruct (getNeuron (store e1) _); cbn [synapses set_synapses set_neurons]; apply He. }
  pose proof (strengthen_symmetric (neuron_id type path) now
                (List.length (recentAccesses e1)) (recentAccesses e1) st1 0 H1) as Hs.
  destruct (strengthen st1 _ _ _ _ _) as [st' []]; cbn in *; exact Hs.
Qed.

(** ** Closing and reading *)

Lemma ensureOpen_close (e : Engine) : ensureOpen (close e) = ensureOpen e.
Proof. destruct e as [[] st w sid order]; reflexivity. Qed.

(** C9.  [close] after [close] changes nothing, and [record] after [close]
    opens the handle again and does what it does without the [close]: same
    engine left, same outcome. *)
Theorem close_idempotent_lazy_reopen (e : Engine) (path : string) (type : NeuronType)
    (query : option string) (now : Z) :
  close (close e) = close e /\
  db_open (close e) = false /\
  record (close e) path type query now = record e path type query now /\
  db_open (fst (record (close e) path type query now)) = true.
Proof.
  split; [destruct e as [[] st w sid order]; reflexivity|].
  split; [destruct e as [[] st w sid order]; reflexivity|].
  assert (Hrec : record (close e) path type query now = record e path type query now).
  { unfold record. rewrite ensureOpen_close. reflexivity. }
  split; [exact Hrec|].
  rewrite Hrec. unfold record.
  assert (Ho : db_open (ensureOpen e) = true)
    by (destruct e as [[] st w sid order]; reflexivity).
  destruct (stored_contexts _); [|exact Ho].
  destruct (strengthen _ _ _ _ _ _) as [st []]; exact Ho.
Qed.

(** C10.  [recall] writes nothing: the four tables of the file, the
    co-access window, the access counter and the session are after the call
    what they were before it, whether it returns or throws. *)
Theorem recall_read_only (e : Engine) (query : string) (type : NeuronType) (limit now : Z) :
  let e' := fst (recall e query type limit now) in
  neurons (store e') = neurons (store e) /\
  synapses (store e') = synapses (store e) /\
  access_log (store e') = access_log (store e) /\
  sessions (store e') = sessions (store e) /\
  store e' = store e /\
  recentAccesses e' = recentAccesses e /\
  accessOrder e' = accessOrder e /\
  sessionId e' = sessionId e.
Proof.
  destruct e as [[] st w sid order]; cbn; repeat split; reflexivity.
Qed.

(** * Further properties *)

(** ** Runs *)

Lemma run_invariant (P : Engine -> Prop) (e : Engine) (ops : list Op) :
  P e -> (forall e' o, P e' -> P (step e' o)) -> P (run e ops).
Proof.
  intros He Hstep. revert e He. unfold run.
  induction ops as [|o ops IH]; intros e He; cbn [fold_left]; auto.
Qed.

Lemma run_app (e : Engine) (ops ops' : list Op) :
  run e (ops ++ ops') = run (run e ops) ops'.
Proof. unfold run. apply fold_left_app. Qed.

(** ** The neurons a statement knows *)

Lemma known_In (l : list Neuron) (id : string) :
  known l id = true <-> In id (map n_id l).
Proof.
  unfold known, has_id. rewrite existsb_exists, in_map_iff. split.
  - intros (n & Hin & Heq). apply String.eqb_eq in Heq. eauto.
  - intros (n & Heq & Hin). exists n. split; [assumption|]. now apply String.eqb_eq.
Qed.

Lemma getNeuron_known (st : Store) (id : string) :
  known (neurons st) id = match getNeuron st id with Some _ => true | None => false end.
Proof. unfold known, getNeuron. apply existsb_find. Qed.

Lemma map_touch_ids (id : string) (g : Neuron -> Neuron) (l : list Neuron) :
  (forall n, n_id (g n) = n_id n) ->
  map n_id (map (fun n => if has_id id n then g n else n) l) = map n_id l.
Proof.
  intro Hg. rewrite map_map. apply map_ext. intro n. now destruct (has_id id n).
Qed.

(** The ids after [upsertNeuron]: the same, or one more at the end. *)
Lemma upsertNeuron_ids (st : Store) (id : string) (type : NeuronType) (path : string)
    (act myel : Q) (now : Z) (ctx : string) :
  map n_id (neurons (upsertNeuron st id type path act myel now ctx)) =
  if known (neurons st) id then map n_id (neurons st)
  else (map n_id (neurons st) ++ [id])%list.
Proof.
  rewrite getNeuron_known. unfold upsertNeuron.
  destruct (getNeuron st id); cbn [neurons set_neurons].
  - now apply map_touch_ids.
  - now rewrite map_app.
Qed.

Lemma upsertNeuron_known (st : Store) (id : string) (type : NeuronType) (path : string)
    (act myel : Q) (now : Z) (ctx : string) (x : string) :
  known (neurons (upsertNeuron st id type path act myel now ctx)) x =
  known (neurons st) x || String.eqb id x.
Proof.
  apply eq_true_iff_eq. rewrite orb_true_iff, !known_In, upsertNeuron_ids.
  destruct (known (neurons st) id) eqn:E.
  - apply known_In in E. split; [auto|]. intros [H|H]; [assumption|].
    apply String.eqb_eq in H. now subst x.
  - rewrite in_app_iff. cbn [In]. rewrite String.eqb_eq. tauto.
Qed.

Lemma upsertNeuron_others (st : Store) (id : string) (type : NeuronType) (path : string)
    (act myel : Q) (now : Z) (ctx : string) :
  synapses (upsertNeuron st id type path act myel now ctx) = synapses st /\
  access_log (upsertNeuron st id type path act myel now ctx) = access_log st /\
  access_log_seq (upsertNeuron st id type path act myel now ctx) = access_log_seq st /\
  sessions (upsertNeuron st id type path act myel now ctx) = sessions st.
Proof. unfold upsertNeuron. destruct (getNeuron st id); repeat split. Qed.

Lemma upsertNeuron_synapses (st : Store) (id : string) (type : NeuronType) (path : string)
    (act myel : Q) (now : Z) (ctx : string) :
  synapses (upsertNeuron st id type path act myel now ctx) = synapses st.
Proof. apply upsertNeuron_others. Qed.

(** The ids after [record], thrown or not. *)
Lemma record_ids (e : Engine) (path : string) (type : NeuronType) (query : option string)
    (now : Z) :
  let id := neuron_id type path in
  map n_id (neurons (store (fst (record e path type query now)))) =
  match stored_contexts (getNeuron (store e) id) with
  | Returns _ =>
      if known (neurons (store e)) id then map n_id (neurons (store e))
      else (map n_id (neurons (store e)) ++ [id])%list
  | Throws _ => map n_id (neurons (store e))
  end.
Proof.
  cbv zeta. rewrite record_neurons. cbv zeta.
  destruct (stored_contexts _); [apply upsertNeuron_ids | reflexivity].
Qed.

(** ** Primary keys *)

Lemma NoDup_snoc {A : Type} (l : list A) (x : A) :
  NoDup l -> ~ In x l -> NoDup (l ++ [x]).
Proof.
  intros Hl Hx. apply NoDup_app; [assumption | repeat constructor; auto |].
  intros y Hy [<-|[]]. contradiction.
Qed.

(** A deletion keeps a column free of duplicates. *)
Lemma NoDup_map_filter {Row Key : Type} (column : Row -> Key) (kept : Row -> bool)
    (rows : list Row) (Hrows : NoDup (map column rows)) :
  NoDup (map column (filter kept rows)).
Proof.
  induction rows as [|x l IH]; cbn in *; [trivial|].
  inversion Hrows as [|? ? Hx Hl]; subst.
  destruct (kept x); cbn; [|auto].
  constructor; [|auto]. intro Hin. apply Hx.
  apply in_map_iff in Hin. destruct Hin as (y & Hy & Hin).
  apply filter_In in Hin. apply in_map_iff. exists y. tauto.
Qed.

Lemma has_key_In (a b : string) (l : list Synapse) :
  existsb (has_key a b) l = true <-> In (a, b) (map syn_key l).
Proof.
  rewrite existsb_exists, in_map_iff. unfold has_key, syn_key. split.
  - intros (s & Hin & Heq). apply andb_prop in Heq. destruct Heq as [H1 H2].
    apply String.eqb_eq in H1, H2. exists s. split; [congruence | assumption].
  - intros (s & Heq & Hin). exists s. split; [assumption|].
    injection Heq as -> ->. now rewrite !String.eqb_refl.
Qed.

Lemma upsertSynapse_keys (st st' : Store) (a b : string) (w delta : Q) (now : Z) :
  upsertSynapse st a b w delta now = Some st' ->
  map syn_key (synapses st') =
  if existsb (has_key a b) (synapses st) then map syn_key (synapses st)
  else (map syn_key (synapses st) ++ [(a, b)])%list.
Proof.
  unfold upsertSynapse. destruct (existsb (has_key a b) (synapses st)).
  - intros [= <-]. cbn [synapses set_synapses]. rewrite map_map. apply map_ext.
    intro s. now destruct (has_key a b s).
  - destruct (getNeuron st a); [|discriminate].
    destruct (getNeuron st b); [|discriminate].
    intros [= <-]. cbn [synapses set_synapses]. now rewrite map_app.
Qed.

Lemma upsertSynapse_keys_unique (st st' : Store) (a b : string) (w delta : Q) (now : Z) :
  upsertSynapse st a b w delta now = Some st' ->
  keys_unique st -> keys_unique st'.
Proof.
  intros H [Hn Hs]. split.
  - now rewrite (upsertSynapse_neurons _ _ _ _ _ _ _ H).
  - rewrite (upsertSynapse_keys _ _ _ _ _ _ _ H).
    destruct (existsb (has_key a b) (synapses st)) eqn:E; [assumption|].
    apply NoDup_snoc; [assumption|]. rewrite <- has_key_In, E. discriminate.
Qed.

(** A property of the store that the statements of the Hebbian loop keep is
    kept by the loop, whether it ends or stops. *)
Lemma strengthen_keeps (P : Store -> Prop) (id : string) (now : Z) (len : nat)
    (window : list string) :
  (forall st st' a b w delta, upsertSynapse st a b w delta now = Some st' -> P st -> P st') ->
  forall (st : Store) (i : nat), P st -> P (fst (strengthen st id window i len now)).
Proof.
  intro Hup. induction window as [|r window IH]; intros st i Hst; cbn [strengthen];
    [assumption|].
  destruct (String.eqb r id); [now apply IH|].
  destruct (upsertSynapse st id r _ _ now) as [st1|] eqn:E1; [|assumption].
  pose proof (Hup _ _ _ _ _ _ E1 Hst) as H1.
  destruct (upsertSynapse st1 r id _ _ now) as [st2|] eqn:E2; [|assumption].
  apply IH. exact (Hup _ _ _ _ _ _ E2 H1).
Qed.

(** The store [record] leaves, thrown or not, is what the Hebbian loop
    leaves of the store with the neuron upserted and the access logged, up
    to the session counters; or the store it found. *)
Lemma record_store (P : Store -> Prop) (e : Engine) (path : string) (type : NeuronType)
    (query : option string) (now : Z) :
  P (store e) ->
  (forall st id used, P st -> P (updateSession st id used)) ->
  (forall ctxs,
     stored_contexts (getNeuron (store e) (neuron_id type path)) = Returns ctxs ->
       P (fst (strengthen
                 (logAccess
                    (upsertNeuron (store e) (neuron_id type path) type path 1
                       (match getNeuron (store e) (neuron_id type path) with
                        | Some n => myelination n
                        | None => 0
                        end) now (JSON_stringify (add_context ctxs query)))
                    (neuron_id type path) (sessionId e) (truthy query) now (cost_of type)
                    (accessOrder e + 1))
                 (neuron_id type path) (recentAccesses e) 0
                 (List.length (recentAccesses e)) now))) ->
  P (store (fst (record e path type query now))).
Proof.
  intros He Hses Hloop. unfold record.
  assert (Hid : sessionId (ensureOpen e) = sessionId e /\
                accessOrder (ensureOpen e) = accessOrder e)
    by (unfold ensureOpen; destruct (db_open e); split; reflexivity).
  assert (Hw : recentAccesses (ensureOpen e) = recentAccesses e)
    by (unfold ensureOpen; now destruct (db_open e)).
  destruct Hid as [Hsid Hord]. rewrite !ensureOpen_store, Hsid, Hord, !Hw.
  destruct (stored_contexts _) as [ctxs|x] eqn:Ec;
    [|cbn [fst]; now rewrite ensureOpen_store].
  specialize (Hloop ctxs eq_refl).
  destruct (strengthen _ _ _ _ _ _) as [st' []]; cbn in *; auto.
Qed.

Lemma record_keys_unique (e : Engine) (path : string) (type : NeuronType)
    (query : option string) (now : Z) :
  keys_unique (store e) -> keys_unique (store (fst (record e path type query now))).
Proof.
  intro He. apply record_store; [assumption | intros st id used H; exact H |].
  intros ctxs _. apply strengthen_keeps.
  - intros; eapply upsertSynapse_keys_unique; eauto.
  - destruct He as [Hn Hs]. split;
      [|cbn [synapses logAccess]; now rewrite upsertNeuron_synapses].
    cbn [neurons logAccess]. rewrite upsertNeuron_ids.
    destruct (known (neurons (store e)) (neuron_id type path)) eqn:E; [assumption|].
    apply NoDup_snoc; [assumption|]. rewrite <- known_In, E. discriminate.
Qed.

Lemma decay_keys_unique (e : Engine) :
  keys_unique (store e) -> keys_unique (store (fst (decay e))).
Proof.
  intros [Hn Hs]. unfold decay. rewrite ensureOpen_store. cbn -[known]. split; cbn -[known].
  - apply NoDup_map_filter. now rewrite map_map.
  - apply NoDup_map_filter, NoDup_map_filter. now rewrite map_map.
Qed.

(** X1.  From an empty database, after every sequence of [record] and
    [decay] calls, no two neurons have the same id and no two synapses the
    same pair of endpoints. *)
Theorem primary_keys_hold (now0 : Z) (ops : list Op) :
  NoDup (map n_id (neurons (store (run (BrainBoxDB_new empty_store now0) ops)))) /\
  NoDup (map syn_key (synapses (store (run (BrainBoxDB_new empty_store now0) ops)))).
Proof.
  apply (run_invariant (fun e => keys_unique (store e))).
  - split; constructor.
  - intros e o He. destruct o; cbn [step];
      [now apply record_keys_unique | now apply decay_keys_unique].
Qed.

(** ** Foreign keys *)

Lemma upsertSynapse_referential (st st' : Store) (a b : string) (w delta : Q) (now : Z) :
  upsertSynapse st a b w delta now = Some st' ->
  referential st -> referential st'.
Proof.
  intros H [Hs Hl]. pose proof (upsertSynapse_neurons _ _ _ _ _ _ _ H) as Hn.
  unfold referential. rewrite Hn. revert H. unfold upsertSynapse.
  destruct (existsb (has_key a b) (synapses st)).
  - intros [= <-]. split; [|exact Hl]. cbn [synapses set_synapses].
    rewrite Forall_forall in *. intros s Hin.
    apply in_map_iff in Hin. destruct Hin as (m & <- & Hm).
    destruct (has_key a b m); apply (Hs m Hm).
  - destruct (getNeuron st a) eqn:Ea; [|discriminate].
    destruct (getNeuron st b) eqn:Eb; [|discriminate].
    intros [= <-]. split; [|exact Hl]. cbn [synapses set_synapses].
    apply Forall_app. split; [exact Hs|].
    constructor; [|constructor]. cbn [source_id target_id].
    now rewrite !getNeuron_known, Ea, Eb.
Qed.

Lemma record_referential (e : Engine) (path : string) (type : NeuronType)
    (query : option string) (now : Z) :
  referential (store e) -> referential (store (fst (record e path type query now))).
Proof.
  intro He. apply record_store; [assumption | intros st id used H; exact H |].
  intros ctxs _. apply strengthen_keeps.
  - intros; eapply upsertSynapse_referential; eauto.
  - destruct He as [Hs Hl]. unfold referential.
    cbn [neurons synapses access_log logAccess].
    destruct (upsertNeuron_others (store e) (neuron_id type path) type path 1
                (match getNeuron (store e) (neuron_id type path) with
                 | Some n => myelination n
                 | None => 0
                 end) now (JSON_stringify (add_context ctxs query)))
      as (-> & -> & _ & _).
    split.
    + eapply Forall_impl; [|exact Hs]. intros s [H1 H2].
      rewrite !upsertNeuron_known, H1, H2. split; reflexivity.
    + apply Forall_app. split.
      * eapply Forall_impl; [|exact Hl]. intros r H.
        now rewrite upsertNeuron_known, H.
      * constructor; [|constructor]. cbn [log_neuron_id].
        rewrite upsertNeuron_known, String.eqb_refl. apply orb_true_r.
Qed.

(** A neuron that [pruneNeurons] does not delete is still known after it. *)
Lemma known_survivors (l : list Neuron) (id : string) :
  known l id = true ->
  known (filter dead_neuron l) id = false ->
  known (filter (fun n => negb (dead_neuron n)) l) id = true.
Proof.
  unfold known. rewrite !existsb_exists. intros (n & Hin & Hid) Hdead.
  exists n. split; [|assumption]. apply filter_In. split; [assumption|].
  destruct (dead_neuron n) eqn:E; [|reflexivity].
  exfalso. apply not_true_iff_false in Hdead. apply Hdead.
  apply existsb_exists. exists n. split; [|assumption]. now apply filter_In.
Qed.

Lemma decay_referential (e : Engine) :
  referential (store e) -> referential (store (fst (decay e))).
Proof.
  intros [Hs Hl]. unfold decay. rewrite ensureOpen_store. cbn -[known].
  set (dn := fun n : Neuron => mkNeuron _ _ _ _ _ _ _ _ _).
  set (ds := fun s : Synapse => mkSynapse _ _ _ _ _ _).
  rewrite Forall_forall in Hs, Hl.
  split; cbn -[known]; apply Forall_forall.
  - intros s Hin. apply filter_In in Hin. destruct Hin as [Hin Halive].
    apply filter_In in Hin. destruct Hin as [Hin _].
    apply in_map_iff in Hin. destruct Hin as (m & <- & Hm).
    destruct (Hs m Hm) as [H1 H2].
    apply negb_true_iff, orb_false_iff in Halive. destruct Halive as [D1 D2].
    split; apply known_survivors; try assumption;
      rewrite known_map by reflexivity; assumption.
  - intros r Hin. apply filter_In in Hin. destruct Hin as [Hin Halive].
    apply negb_true_iff in Halive.
    apply known_survivors; [|assumption].
    rewrite known_map by reflexivity. now apply Hl.
Qed.

(** X2.  From an empty database, after every sequence of [record] and
    [decay] calls, both endpoints of every synapse and the neuron of every
    row of the access log are rows of [neurons]: the inserts check them and
    the pruning of a neuron takes its synapses and log rows with it. *)
Theorem foreign_keys_hold (now0 : Z) (ops : list Op) :
  let st := store (run (BrainBoxDB_new empty_store now0) ops) in
  Forall (fun s => getNeuron st (source_id s) <> None /\
                   getNeuron st (target_id s) <> None) (synapses st) /\
  Forall (fun r => getNeuron st (log_neuron_id r) <> None) (access_log st).
Proof.
  cbv zeta.
  assert (H : referential (store (run (BrainBoxDB_new empty_store now0) ops))).
  { apply (run_invariant (fun e => referential (store e))).
    - split; constructor.
    - intros e o He. destruct o; cbn [step];
        [now apply record_referential | now apply decay_referential]. }
  destruct H as [Hs Hl]. split.
  - eapply Forall_impl; [|exact Hs]. intros s [H1 H2].
    pose proof (getNeuron_known (store (run (BrainBoxDB_new empty_store now0) ops))
                  (source_id s)) as G1.
    pose proof (getNeuron_known (store (run (BrainBoxDB_new empty_store now0) ops))
                  (target_id s)) as G2.
    split; [destruct (getNeuron _ (source_id s)) | destruct (getNeuron _ (target_id s))];
      congruence.
  - eapply Forall_impl; [|exact Hl]. intros r H1.
    pose proof (getNeuron_known (store (run (BrainBoxDB_new empty_store now0) ops))
                  (log_neuron_id r)) as G1.
    destruct (getNeuron _ (log_neuron_id r)); congruence.
Qed.

(** ** The co-access window *)

Lemma remove_first_In (id x : string) (l : list string) :
  In x (remove_first id l) -> In x l.
Proof.
  induction l as [|y l IH]; cbn; [trivial|].
  destruct (String.eqb y id); [auto|]. intros [->|H]; auto.
Qed.

Lemma remove_first_NoDup (id : string) (l : list string) :
  NoDup l -> NoDup (remove_first id l) /\ ~ In id (remove_first id l).
Proof.
  induction l as [|y l IH]; cbn; intro H; [split; [constructor | tauto]|].
  inversion H as [|? ? Hy Hl]; subst.
  destruct (String.eqb y id) eqn:E.
  - apply String.eqb_eq in E. subst y. split; assumption.
  - apply String.eqb_neq in E. destruct (IH Hl) as [Hn Hi]. split.
    + constructor; [|assumption]. intro Hin. apply Hy. eapply remove_first_In; eauto.
    + intros [->|Hin]; [now apply E | contradiction].
Qed.

Lemma remove_first_length (id : string) (l : list string) :
  (List.length (remove_first id l) <= List.length l)%nat.
Proof.
  induction l as [|y l IH]; cbn; [lia|].
  destruct (String.eqb y id); cbn; lia.
Qed.

Lemma NoDup_tl {A : Type} (l : list A) : NoDup l -> NoDup (tl l).
Proof. destruct l; cbn; [trivial|]. now inversion 1. Qed.

Lemma track_ok (id : string) (window : list string) :
  window_ok window -> window_ok (track id window).
Proof.
  intros [Hn Hl]. unfold track, window_ok, CO_ACCESS_WINDOW_SIZE in *.
  destruct (remove_first_NoDup id window Hn) as [Hn' Hi].
  pose proof (remove_first_length id window) as Hlen.
  assert (Hp : NoDup (remove_first id window ++ [id])) by now apply NoDup_snoc.
  assert (Hlp : (List.length (remove_first id window ++ [id]) <= 11)%nat)
    by (rewrite length_app; cbn; lia).
  destruct (10 <? _)%nat eqn:E.
  - split; [now apply NoDup_tl|].
    destruct (remove_first id window ++ [id])%list; cbn in *; lia.
  - apply Nat.ltb_ge in E. split; assumption.
Qed.

Lemma NoDup_skipn {A : Type} (k : nat) (l : list A) : NoDup l -> NoDup (skipn k l).
Proof.
  intro H. rewrite <- (firstn_skipn k l) in H. eapply NoDup_app_remove_l; eauto.
Qed.

Lemma seed_window_ok (rows : list AccessLog) : window_ok (seed_window rows).
Proof.
  unfold seed_window.
  set (push := fun w r => (remove_first (log_neuron_id r) w ++ [log_neuron_id r])%list).
  assert (H : forall w, NoDup w -> NoDup (fold_left push rows w)).
  { induction rows as [|r rows IH]; intros w Hw; cbn [fold_left]; [assumption|].
    apply IH. unfold push.
    destruct (remove_first_NoDup (log_neuron_id r) w Hw). now apply NoDup_snoc. }
  specialize (H [] (NoDup_nil _)). set (w := fold_left push rows []) in *.
  unfold window_ok, CO_ACCESS_WINDOW_SIZE.
  destruct (10 <? List.length w)%nat eqn:E.
  - apply Nat.ltb_lt in E. split; [now apply NoDup_skipn|].
    rewrite length_skipn. lia.
  - apply Nat.ltb_ge in E. split; assumption.
Qed.

Lemma record_window (e : Engine) (path : string) (type : NeuronType)
    (query : option string) (now : Z) :
  recentAccesses (fst (record e path type query now)) = recentAccesses e \/
  recentAccesses (fst (record e path type query now))
    = track (neuron_id type path) (recentAccesses e).
Proof.
  unfold record.
  assert (Hw : recentAccesses (ensureOpen e) = recentAccesses e)
    by (unfold ensureOpen; now destruct (db_open e)).
  rewrite !Hw.
  destruct (stored_contexts _); [|now left].
  destruct (strengthen _ _ _ _ _ _) as [st' []]; cbn; auto.
Qed.

Lemma decay_window (e : Engine) : recentAccesses (fst (decay e)) = recentAccesses e.
Proof. destruct e as [[] st w sid order]; reflexivity. Qed.

(** X3.  Whatever file the engine is opened on, and after every sequence of
    [record] and [decay] calls, the co-access window holds at most
    [CO_ACCESS_WINDOW_SIZE = 10] ids and none of them twice. *)
Theorem window_bounded (st : Store) (now0 : Z) (ops : list Op) :
  NoDup (recentAccesses (run (BrainBoxDB_new st now0) ops)) /\
  (List.length (recentAccesses (run (BrainBoxDB_new st now0) ops)) <= 10)%nat.
Proof.
  apply (run_invariant (fun e => window_ok (recentAccesses e))).
  - apply seed_window_ok.
  - intros e o He. destruct o as [path type query now|]; cbn [step].
    + destruct (record_window e path type query now) as [-> | ->];
        [assumption | now apply track_ok].
    + now rewrite decay_window.
Qed.

(** ** The contexts of a neuron *)

Lemma array_includes_In (l : list string) (x : string) :
  array_includes l x = true <-> In x l.
Proof.
  unfold array_includes. rewrite existsb_exists. split.
  - intros (y & Hin & Heq). apply String.eqb_eq in Heq. now subst y.
  - intro Hin. exists x. split; [assumption | apply String.eqb_refl].
Qed.

Lemma truthy_Some (query : option string) (q : string) :
  truthy query = Some q -> query = Some q /\ q <> EmptyString.
Proof.
  unfold truthy. destruct query as [s|]; [|discriminate].
  destruct s; cbn; [discriminate|]. intros [= <-]. split; [reflexivity | discriminate].
Qed.

Lemma add_context_ok (ctxs : list string) (query : option string) :
  contexts_ok ctxs -> contexts_ok (add_context ctxs query).
Proof.
  intros (Hlen & Hnd & Hne). unfold add_context.
  destruct (truthy query) as [q|] eqn:Eq; [|split; [|split]; assumption].
  apply truthy_Some in Eq. destruct Eq as [_ Hq].
  destruct (array_includes ctxs q) eqn:Ei; [split; [|split]; assumption|].
  assert (Hnew : ~ In q ctxs) by (rewrite <- array_includes_In, Ei; discriminate).
  assert (Hp : contexts_ok (ctxs ++ [q]) \/
               ((List.length (ctxs ++ [q]) = 21)%nat /\ NoDup (ctxs ++ [q]) /\
                ~ In EmptyString (ctxs ++ [q]))).
  { assert (Hnd' : NoDup (ctxs ++ [q])) by now apply NoDup_snoc.
    assert (Hne' : ~ In EmptyString (ctxs ++ [q])).
    { rewrite in_app_iff. cbn. intros [H|[H|[]]]; [contradiction | now apply Hq]. }
    assert (Hl' : List.length (ctxs ++ [q]) = S (List.length ctxs))
      by (rewrite length_app; cbn; lia).
    destruct (Nat.eq_dec (List.length ctxs) 20) as [E|E].
    - right. split; [lia|]. split; assumption.
    - left. split; [lia|]. split; assumption. }
  destruct Hp as [(Hl' & Hnd' & Hne') | (Hl' & Hnd' & Hne')].
  - replace (20 <? List.length (ctxs ++ [q]))%nat with false
      by (symmetry; apply Nat.ltb_ge; lia).
    split; [assumption|]. split; assumption.
  - rewrite Hl'. cbn [Nat.ltb Nat.leb].
    destruct (ctxs ++ [q])%list as [|c rest]; [discriminate|]. cbn [tl].
    cbn in Hl'. inversion Hnd'; subst.
    split; [lia|]. split; [assumption|]. intro H. apply Hne'. now right.
Qed.

(** [add_context] keeps the query, when there is one, as the newest
    context. *)
Lemma add_context_has (ctxs : list string) (query : option string) (q : string) :
  truthy query = Some q -> In q (add_context ctxs query).
Proof.
  intro Eq. unfold add_context. rewrite Eq.
  destruct (array_includes ctxs q) eqn:Ei; [now apply array_includes_In|].
  destruct (20 <? _)%nat eqn:E.
  - destruct ctxs as [|c rest]; cbn [app tl].
    + cbn in E. discriminate.
    + apply in_or_app. right. now left.
  - apply in_or_app. right. now left.
Qed.

Lemma stored_contexts_kept (st : Store) (id : string) :
  contexts_kept st ->
  exists ctxs, stored_contexts (getNeuron st id) = Returns ctxs /\ contexts_ok ctxs.
Proof.
  intro Hk. destruct (getNeuron st id) as [n|] eqn:E; cbn [stored_contexts].
  - apply getNeuron_in in E. destruct E as [Hin _].
    unfold contexts_kept in Hk. rewrite Forall_forall in Hk.
    destruct (Hk n Hin) as (ctxs & Hc & Hok).
    exists ctxs. rewrite Hc, JSON_stringify_not_empty, JSON_parse_stringify. auto.
  - exists []. split; [reflexivity|]. split; [cbn; lia|]. split; [constructor | tauto].
Qed.

Lemma record_contexts_kept (e : Engine) (path : string) (type : NeuronType)
    (query : option string) (now : Z) :
  contexts_kept (store e) -> contexts_kept (store (fst (record e path type query now))).
Proof.
  intro Hk. unfold contexts_kept at 1. rewrite record_neurons. cbv zeta.
  destruct (stored_contexts_kept (store e) (neuron_id type path) Hk) as (ctxs & -> & Hok).
  pose proof (add_context_ok ctxs query Hok) as Hok'.
  unfold upsertNeuron.
  destruct (getNeuron (store e) (neuron_id type path)) as [old|];
    cbn [neurons set_neurons].
  - unfold contexts_kept in Hk. rewrite Forall_forall in *. intros n Hin.
    apply in_map_iff in Hin. destruct Hin as (m & <- & Hm).
    destruct (has_id _ m); [|auto]. cbn [contexts touch_neuron]. eauto.
  - apply Forall_app. split; [exact Hk|].
    constructor; [|constructor]. cbn [contexts]. eauto.
Qed.

Lemma decay_contexts_kept (e : Engine) :
  contexts_kept (store e) -> contexts_kept (store (fst (decay e))).
Proof.
  unfold contexts_kept, decay. rewrite ensureOpen_store. cbn -[known]. intro Hk.
  rewrite Forall_forall in *. intros n Hin.
  apply filter_In in Hin. destruct Hin as [Hin _].
  apply in_map_iff in Hin. destruct Hin as (m & <- & Hm). cbn [contexts]. auto.
Qed.

(** X4.  From an empty database, after every sequence of [record] and
    [decay] calls, the stored contexts of every neuron decode, to a list of at
    most 20 strings, none of them twice and none of them empty. *)
Theorem contexts_bounded (now0 : Z) (ops : list Op) :
  Forall (fun n => exists ctxs,
            JSON_parse (contexts n) = Returns ctxs /\
            (List.length ctxs <= 20)%nat /\ NoDup ctxs /\ ~ In EmptyString ctxs)
         (neurons (store (run (BrainBoxDB_new empty_store now0) ops))).
Proof.
  assert (H : contexts_kept (store (run (BrainBoxDB_new empty_store now0) ops))).
  { apply (run_invariant (fun e => contexts_kept (store e))).
    - constructor.
    - intros e o He. destruct o; cbn [step];
        [now apply record_contexts_kept | now apply decay_contexts_kept]. }
  eapply Forall_impl; [|exact H].
  intros n (ctxs & Hc & Hok). exists ctxs. rewrite Hc. split; [apply JSON_parse_stringify|].
  exact Hok.
Qed.

(** ** What [record] does to a neuron *)

Lemma find_map_touch (id x : string) (g : Neuron -> Neuron) (l : list Neuron) :
  (forall n, n_id (g n) = n_id n) ->
  find (has_id x) (map (fun n => if has_id id n then g n else n) l) =
  if String.eqb id x then option_map g (find (has_id x) l) else find (has_id x) l.
Proof.
  intro Hg. induction l as [|n l IH]; cbn [map find option_map].
  - now destruct (String.eqb id x).
  - destruct (has_id id n) eqn:Ei.
    + unfold has_id at 1. rewrite Hg. fold (has_id x n).
      unfold has_id in Ei. apply String.eqb_eq in Ei.
      destruct (has_id x n) eqn:Ex.
      * unfold has_id in Ex. apply String.eqb_eq in Ex.
        replace (String.eqb id x) with true by (symmetry; apply String.eqb_eq; congruence).
        reflexivity.
      * rewrite IH. destruct (String.eqb id x) eqn:E; [|reflexivity].
        apply String.eqb_eq in E. unfold has_id in Ex. apply String.eqb_neq in Ex.
        congruence.
    + destruct (has_id x n) eqn:Ex; [|exact IH].
      destruct (String.eqb id x) eqn:E; [|reflexivity].
      apply String.eqb_eq in E. subst x. congruence.
Qed.

(** [getNeuron] after [upsertNeuron]. *)
Lemma getNeuron_upsertNeuron (st : Store) (id : string) (type : NeuronType) (path : string)
    (act myel : Q) (now : Z) (ctx : string) (x : string) :
  getNeuron (upsertNeuron st id type path act myel now ctx) x =
  if String.eqb id x then
    Some (match getNeuron st id with
          | Some n => touch_neuron act now ctx n
          | None => mkNeuron id type path act myel 1 (Some now) now ctx
          end)
  else getNeuron st x.
Proof.
  unfold upsertNeuron, getNeuron at 1.
  destruct (getNeuron st id) as [n|] eqn:E; cbn [neurons set_neurons].
  - rewrite find_map_touch by reflexivity. fold (getNeuron st x).
    destruct (String.eqb id x) eqn:Ex; [|reflexivity].
    apply String.eqb_eq in Ex. subst x. now rewrite E.
  - rewrite find_app_last. fold (getNeuron st x).
    unfold has_id at 1. cbn [n_id].
    destruct (String.eqb id x) eqn:Ex.
    + apply String.eqb_eq in Ex. subst x. now rewrite E.
    + now destruct (getNeuron st x).
Qed.

(** [getNeuron] after [record], thrown or not. *)
Lemma getNeuron_record (e : Engine) (path : string) (type : NeuronType)
    (query : option string) (now : Z) (x : string) :
  let id := neuron_id type path in
  getNeuron (store (fst (record e path type query now))) x =
  match stored_contexts (getNeuron (store e) id) with
  | Returns ctxs =>
      getNeuron (upsertNeuron (store e) id type path 1
                   (match getNeuron (store e) id with
                    | Some n => myelination n
                    | None => 0
                    end) now (JSON_stringify (add_context ctxs query))) x
  | Throws _ => getNeuron (store e) x
  end.
Proof.
  cbv zeta. unfold getNeuron at 1. rewrite record_neurons. cbv zeta.
  now destruct (stored_contexts _).
Qed.

(** X5.  A call of [record] whose stored contexts decode leaves the neuron
    of its id with activation 1, the time of the call as last access and the
    query among its contexts; a neuron that was there has one access more and
    its myelination advanced once by the update formula, a new one has one
    access and myelination 0.  Every other neuron is as it was.  This holds
    also when the call stops on a foreign key. *)
Theorem record_touches_one_neuron (e : Engine) (path : string) (type : NeuronType)
    (query : option string) (now : Z) (ctxs : list string) :
  let id := neuron_id type path in
  let e' := fst (record e path type query now) in
  stored_contexts (getNeuron (store e) id) = Returns ctxs ->
  (exists n',
     getNeuron (store e') id = Some n' /\
     activation n' = 1 /\
     last_accessed n' = Some now /\
     JSON_parse (contexts n') = Returns (add_context ctxs query) /\
     (forall q, truthy query = Some q -> In q (add_context ctxs query)) /\
     match getNeuron (store e) id with
     | Some n =>
         access_count n' = (access_count n + 1)%Z /\
         myelination n' = myelin_update (myelination n) /\
         created_at n' = created_at n /\ n_type n' = n_type n /\ n_path n' = n_path n
     | None =>
         access_count n' = 1%Z /\ myelination n' = 0 /\
         created_at n' = now /\ n_type n' = type /\ n_path n' = path
     end) /\
  (forall x, x <> id -> getNeuron (store e') x = getNeuron (store e) x).
Proof.
  intros id e' Hc. subst e'. split.
  - rewrite getNeuron_record. fold id. rewrite Hc, getNeuron_upsertNeuron, String.eqb_refl.
    eexists. split; [reflexivity|].
    destruct (getNeuron (store e) id) as [n|]; cbn;
      (split; [reflexivity|]); (split; [reflexivity|]);
      (split; [apply JSON_parse_stringify|]);
      (split; [intros q Hq; now apply add_context_has|]);
      repeat split; reflexivity.
  - intros x Hx. rewrite getNeuron_record. fold id. rewrite Hc, getNeuron_upsertNeuron.
    replace (String.eqb id x) with false; [reflexivity|].
    symmetry. apply String.eqb_neq. congruence.
Qed.

Lemma record_touches_one_neuron_witness :
  stored_contexts (getNeuron (store pair_xy) (neuron_id file "/x")) = Returns ["grep foo"] /\
  getNeuron (store (fst (record pair_xy "/x" file (Some "ls") 3))) (neuron_id file "/y")
    = getNeuron (store pair_xy) (neuron_id file "/y").
Proof.
  assert (H : stored_contexts (getNeuron (store pair_xy) (neuron_id file "/x"))
              = Returns ["grep foo"]) by reflexivity.
  split; [exact H|].
  apply (proj2 (record_touches_one_neuron pair_xy "/x" file (Some "ls") 3 ["grep foo"] H)).
  discriminate.
Defined.

(** ** The Hebbian step *)

Lemma same_key_true (a b c d : string) : same_key a b c d = true <-> a = c /\ b = d.
Proof. unfold same_key. now rewrite andb_true_iff, !String.eqb_eq. Qed.

Lemma same_key_false (a b c d : string) : a <> c \/ b <> d -> same_key a b c d = false.
Proof.
  intro H. apply not_true_iff_false. rewrite same_key_true. tauto.
Qed.

(** The loop touches the pairs of the id with the ids of the window, and no
    other, whether it ends or stops. *)
Lemma strengthen_untouched (id : string) (now : Z) (len : nat) (window : list string) :
  forall (st : Store) (i : nat) (a c : string),
    ~ (a = id /\ In c window) -> ~ (c = id /\ In a window) ->
    weight_of (fst (strengthen st id window i len now)) a c = weight_of st a c.
Proof.
  induction window as [|r window IH]; intros st i a c H1 H2; cbn [strengthen];
    [reflexivity|].
  assert (H1' : ~ (a = id /\ In c window)) by (cbn in H1; tauto).
  assert (H2' : ~ (c = id /\ In a window)) by (cbn in H2; tauto).
  destruct (String.eqb r id); [now apply IH|].
  destruct (upsertSynapse st id r _ _ now) as [st1|] eqn:E1; [|reflexivity].
  assert (W1 : weight_of st1 a c = weight_of st a c).
  { rewrite (upsertSynapse_weight_of _ _ _ _ _ _ E1).
    rewrite same_key_false; [reflexivity|].
    destruct (String.eqb id a) eqn:Ea; [|left; now apply String.eqb_neq].
    apply String.eqb_eq in Ea. right. intros <-. apply H1. cbn. auto. }
  destruct (upsertSynapse st1 r id _ _ now) as [st2|] eqn:E2; [|exact W1].
  rewrite IH by assumption.
  rewrite (upsertSynapse_weight_of _ _ _ _ _ _ E2).
  rewrite same_key_false; [exact W1|].
  destruct (String.eqb id c) eqn:Ec; [|right; now apply String.eqb_neq].
  apply String.eqb_eq in Ec. left. intros <-. apply H2. cbn. auto.
Qed.

(** The weights of the pairs the loop goes through, when it ends. *)
Lemma strengthen_weights (id : string) (now : Z) (len : nat) (window : list string) :
  NoDup window ->
  forall (st st' : Store) (i : nat),
    strengthen st id window i len now = (st', true) ->
    forall (k : nat) (r : string),
      nth_error window k = Some r -> r <> id ->
      weight_of st' id r = Some (strengthened (delta_at (i + k) len) (weight_of st id r)) /\
      weight_of st' r id = Some (strengthened (delta_at (i + k) len) (weight_of st r id)).
Proof.
  induction window as [|r0 window IH]; intros Hnd st st' i Hrun k r Hk Hr.
  - destruct k; discriminate.
  - inversion Hnd as [|? ? Hr0 Hnd']; subst.
    cbn [strengthen] in Hrun.
    destruct (String.eqb r0 id) eqn:E0.
    + apply String.eqb_eq in E0. destruct k as [|k]; cbn in Hk.
      * injection Hk as <-. contradiction.
      * replace (i + S k)%nat with (S i + k)%nat by lia. now apply (IH Hnd' st).
    + apply String.eqb_neq in E0.
      destruct (upsertSynapse st id r0 _ _ now) as [st1|] eqn:E1; [|discriminate].
      destruct (upsertSynapse st1 r0 id _ _ now) as [st2|] eqn:E2; [|discriminate].
      pose proof (upsertSynapse_weight_of _ _ _ _ _ _ E1) as W1.
      pose proof (upsertSynapse_weight_of _ _ _ _ _ _ E2) as W2.
      assert (K1 : same_key id r0 r0 id = false) by (apply same_key_false; left; congruence).
      assert (K2 : same_key r0 id id r0 = false) by (apply same_key_false; left; congruence).
      destruct k as [|k]; cbn in Hk.
      * injection Hk as <-. rewrite Nat.add_0_r.
        assert (U : forall a c, ~ (a = id /\ In c window) -> ~ (c = id /\ In a window) ->
                    weight_of st' a c = weight_of st2 a c).
        { intros a c Ha Hc.
          pose proof (strengthen_untouched id now len window st2 (S i) a c Ha Hc) as H.
          now rewrite Hrun in H. }
        rewrite !U by tauto.
        rewrite !W2, !W1, K1, K2, !same_key_refl. split; reflexivity.
      * replace (i + S k)%nat with (S i + k)%nat by lia.
        assert (Hne : r <> r0).
        { intros ->. apply Hr0. eapply nth_error_In; eauto. }
        destruct (IH Hnd' st2 st' (S i) Hrun k r Hk Hr) as [G1 G2].
        rewrite G1, G2, !W2, !W1.
        rewrite (same_key_false r0 id id r), (same_key_false id r0 id r),
                (same_key_false r0 id r id), (same_key_false id r0 r id);
          try (split; reflexivity); auto; try (left; congruence); right; congruence.
Qed.

(** The synapses after [record], as the loop leaves them. *)
Lemma record_synapses (e : Engine) (path : string) (type : NeuronType)
    (query : option string) (now : Z) (ctxs : list string) :
  stored_contexts (getNeuron (store e) (neuron_id type path)) = Returns ctxs ->
  exists st1 st' b,
    synapses st1 = synapses (store e) /\
    strengthen st1 (neuron_id type path) (recentAccesses e) 0
               (List.length (recentAccesses e)) now = (st', b) /\
    synapses (store (fst (record e path type query now))) = synapses st' /\
    snd (record e path type query now)
      = (if b then Returns tt else Throws ForeignKeyError) /\
    recentAccesses (fst (record e path type query now))
      = (if b then track (neuron_id type path) (recentAccesses e) else recentAccesses e).
Proof.
  intro Hc. unfold record.
  assert (Hw : recentAccesses (ensureOpen e) = recentAccesses e)
    by (unfold ensureOpen; now destruct (db_open e)).
  rewrite !ensureOpen_store, !Hw, Hc.
  match goal with
  | |- context [strengthen ?st ?id ?w ?i ?len ?t] =>
      exists st; destruct (strengthen st id w i len t) as [st' b] eqn:E; exists st', b
  end.
  split; [cbn [synapses logAccess]; apply upsertNeuron_synapses|].
  split; [reflexivity|].
  destruct b; cbn; repeat split; reflexivity.
Qed.

(** X6.  A call of [record] that returns has upserted, for the id [r] at
    index [k] of the window (other than its own id), the synapses of both
    directions with [delta = LEARNING_RATE * (k + 1) / |window|]: a new
    synapse weighs [delta], one of weight [w] now weighs
    [min(w + delta * (1 - w), 1)].  The pairs that do not join the id to an
    id of the window keep their weight, or their absence. *)
Theorem hebbian_step (e : Engine) (path : string) (type : NeuronType)
    (query : option string) (now : Z) :
  let id := neuron_id type path in
  let st := store e in
  let st' := store (fst (record e path type query now)) in
  NoDup (recentAccesses e) ->
  snd (record e path type query now) = Returns tt ->
  (forall k r,
     nth_error (recentAccesses e) k = Some r -> r <> id ->
     let delta := LEARNING_RATE *
                  (inject_Z (Z.of_nat (k + 1)) / inject_Z (Z.of_nat (List.length (recentAccesses e)))) in
     weight_of st' id r
       = Some (match weight_of st id r with
               | Some w => MIN (w + delta * (1 - w)) 1
               | None => delta
               end) /\
     weight_of st' r id
       = Some (match weight_of st r id with
               | Some w => MIN (w + delta * (1 - w)) 1
               | None => delta
               end)) /\
  (forall a c,
     ~ (a = id /\ In c (recentAccesses e)) -> ~ (c = id /\ In a (recentAccesses e)) ->
     weight_of st' a c = weight_of st a c).
Proof.
  intros id st st' Hnd Hret. subst st st'.
  destruct (stored_contexts (getNeuron (store e) id)) as [ctxs|x] eqn:Hc.
  2:{ unfold record in Hret. rewrite ensureOpen_store in Hret. fold id in Hret.
      rewrite Hc in Hret. discriminate. }
  destruct (record_synapses e path type query now ctxs Hc)
    as (st1 & st' & b & Hs1 & Hrun & Hs' & Hout & _).
  fold id in Hrun. rewrite Hout in Hret. destruct b; [|discriminate].
  assert (W1 : forall a c, weight_of st1 a c = weight_of (store e) a c)
    by (intros; unfold weight_of; now rewrite Hs1).
  assert (W' : forall a c, weight_of (store (fst (record e path type query now))) a c
                           = weight_of st' a c)
    by (intros; unfold weight_of; now rewrite Hs').
  split.
  - intros k r Hk Hr delta.
    destruct (strengthen_weights id now _ _ Hnd st1 st' 0 Hrun k r Hk Hr) as [G1 G2].
    rewrite !W', G1, G2, !W1. split; reflexivity.
  - intros a c Ha Hcc. rewrite W', <- W1.
    pose proof (strengthen_untouched id now (List.length (recentAccesses e))
                  (recentAccesses e) st1 0 a c Ha Hcc) as H.
    now rewrite Hrun in H.
Qed.

Lemma hebbian_step_witness :
  NoDup (recentAccesses pair_xy) /\
  snd (record pair_xy "/z" file None 3) = Returns tt /\
  weight_of (store (fst (record pair_xy "/z" file None 3))) "file:/x" "file:/y"
    = weight_of (store pair_xy) "file:/x" "file:/y".
Proof.
  assert (H1 : NoDup (recentAccesses pair_xy))
    by (repeat constructor; cbn; intuition discriminate).
  assert (H2 : snd (record pair_xy "/z" file None 3) = Returns tt) by reflexivity.
  split; [exact H1|]. split; [exact H2|].
  apply (proj2 (hebbian_step pair_xy "/z" file None 3 H1 H2)); intros [H _]; discriminate.
Defined.

(** A property of the store that the upserts with a delta of [0, 1] keep is
    kept by the loop, whether it ends or stops. *)
Lemma strengthen_keeps_delta (P : Store -> Prop) (id : string) (now : Z) (len : nat)
    (window : list string) :
  (forall st st' a b delta,
     0 <= delta -> delta <= 1 ->
     upsertSynapse st a b delta delta now = Some st' -> P st -> P st') ->
  forall (st : Store) (i : nat),
    (i + List.length window = len)%nat ->
    P st -> P (fst (strengthen st id window i len now)).
Proof.
  intro Hup. induction window as [|r window IH]; intros st i Hlen Hst; cbn [strengthen];
    [assumption|].
  cbn [List.length] in Hlen.
  destruct (String.eqb r id); [apply IH; [lia | assumption]|].
  destruct (delta_at_range i len ltac:(lia)) as [Hd0 Hd1].
  destruct (upsertSynapse st id r _ _ now) as [st1|] eqn:E1; [|assumption].
  pose proof (Hup _ _ _ _ _ Hd0 Hd1 E1 Hst) as H1.
  destruct (upsertSynapse st1 r id _ _ now) as [st2|] eqn:E2; [|assumption].
  apply IH; [lia|]. exact (Hup _ _ _ _ _ Hd0 Hd1 E2 H1).
Qed.

Lemma weight_of_in_range (st : Store) (a b : string) (w : Q) :
  in_range st -> weight_of st a b = Some w -> 0 <= w /\ w <= 1.
Proof.
  intros [_ Hs] H. unfold weight_of in H.
  destruct (find (has_key a b) (synapses st)) as [s|] eqn:E; [|discriminate].
  injection H as <-. apply find_some in E. destruct E as [Hin _].
  rewrite Forall_forall in Hs. exact (Hs s Hin).
Qed.

Lemma upsertSynapse_not_below (st0 st st' : Store) (a b : string) (delta : Q) (now : Z) :
  0 <= delta -> delta <= 1 ->
  upsertSynapse st a b delta delta now = Some st' ->
  in_range st /\ not_below st0 st -> in_range st' /\ not_below st0 st'.
Proof.
  intros Hd0 Hd1 Hup [Hr Hb].
  split; [eapply upsertSynapse_in_range; eauto|].
  intros c d w Hw. destruct (Hb c d w Hw) as (w1 & Hw1 & Hle).
  rewrite (upsertSynapse_weight_of _ _ _ _ _ _ Hup).
  destruct (same_key a b c d) eqn:Ek; [|eauto].
  apply same_key_true in Ek. destruct Ek as [-> ->].
  rewrite Hw1. cbn [strengthened]. eexists. split; [reflexivity|].
  destruct (weight_of_in_range st c d w1 Hr Hw1) as [H0 H1].
  apply MIN_ge; [|lra].
  assert (0 <= delta * (1 - w1)) by (apply Qmult_le_0_compat; lra).
  lra.
Qed.

(** X7.  On a store whose weights are in [0, 1], a call of [record] lowers
    no weight and deletes no synapse, whether it returns or stops. *)
Theorem record_only_strengthens (e : Engine) (path : string) (type : NeuronType)
    (query : option string) (now : Z) (a b : string) (w : Q) :
  in_range (store e) ->
  weight_of (store e) a b = Some w ->
  exists w', weight_of (store (fst (record e path type query now))) a b = Some w' /\
             w <= w'.
Proof.
  intros Hr Hw.
  assert (H : in_range (store (fst (record e path type query now))) /\
              not_below (store e) (store (fst (record e path type query now)))).
  { apply (record_store (fun st => in_range st /\ not_below (store e) st)).
    - split; [assumption|]. intros c d v Hv. exists v. split; [assumption | apply Qle_refl].
    - intros st id used [H1 H2]. split; [now apply updateSession_in_range | exact H2].
    - intros ctxs Hc. apply strengthen_keeps_delta; [|reflexivity|].
      + intros; eapply upsertSynapse_not_below; eauto.
      + split.
        * apply logAccess_in_range, upsertNeuron_in_range; [assumption|].
          intros ->. unfold MYELIN_MAX. split; lra.
        * intros c d v Hv. exists v. split; [|apply Qle_refl].
          unfold weight_of in *. cbn [synapses logAccess].
          now rewrite upsertNeuron_synapses. }
  destruct H as [_ H]. exact (H a b w Hw).
Qed.

Lemma record_only_strengthens_witness :
  in_range (store pair_xy) /\
  weight_of (store pair_xy) "file:/x" "file:/y" = Some 0.1 /\
  exists w', weight_of (store (fst (record pair_xy "/x" file None 3))) "file:/x" "file:/y"
               = Some w' /\ 0.1 <= w'.
Proof.
  assert (H1 : in_range (store pair_xy)).
  { split; repeat constructor; vm_compute; discriminate. }
  assert (H2 : weight_of (store pair_xy) "file:/x" "file:/y" = Some 0.1) by reflexivity.
  split; [exact H1|]. split; [exact H2|].
  exact (record_only_strengthens pair_xy "/x" file None 3 "file:/x" "file:/y" 0.1 H1 H2).
Defined.

(** ** When [record] returns and when it stops *)

Lemma upsertSynapse_known (st : Store) (a b : string) (w delta : Q) (now : Z) :
  known (neurons st) a = true -> known (neurons st) b = true ->
  exists st', upsertSynapse st a b w delta now = Some st'.
Proof.
  intros Ha Hb. rewrite getNeuron_known in Ha. rewrite getNeuron_known in Hb.
  unfold upsertSynapse. destruct (existsb _ _); [eauto|].
  destruct (getNeuron st a); [|discriminate].
  destruct (getNeuron st b); [eauto | discriminate].
Qed.

(** The loop ends when the id and the ids of the window are neurons. *)
Lemma strengthen_ends (id : string) (now : Z) (len : nat) (window : list string) :
  forall (st : Store) (i : nat),
    known (neurons st) id = true ->
    Forall (fun r => known (neurons st) r = true) window ->
    snd (strengthen st id window i len now) = true.
Proof.
  induction window as [|r window IH]; intros st i Hid Hw; cbn [strengthen]; [reflexivity|].
  inversion Hw as [|? ? Hr Hw']; subst.
  destruct (String.eqb r id); [now apply IH|].
  destruct (upsertSynapse_known st id r (delta_at i len) (delta_at i len) now Hid Hr)
    as [st1 E1].
  rewrite E1. pose proof (upsertSynapse_neurons _ _ _ _ _ _ _ E1) as N1.
  destruct (upsertSynapse_known st1 r id (delta_at i len) (delta_at i len) now)
    as [st2 E2]; [now rewrite N1 | now rewrite N1 |].
  rewrite E2. pose proof (upsertSynapse_neurons _ _ _ _ _ _ _ E2) as N2.
  apply IH; rewrite N2, N1; assumption.
Qed.

Lemma track_In (id x : string) (window : list string) :
  In x (track id window) -> x = id \/ In x window.
Proof.
  unfold track. intro H.
  assert (G : In x (remove_first id window ++ [id])).
  { destruct (_ <? _)%nat; [|exact H].
    destruct (remove_first id window ++ [id])%list; [destruct H | now right]. }
  apply in_app_or in G. destruct G as [G|[<-|[]]]; [|now left].
  right. eapply remove_first_In; eauto.
Qed.

Lemma stored_contexts_returns (st : Store) (id : string) :
  decodable st -> exists ctxs, stored_contexts (getNeuron st id) = Returns ctxs.
Proof.
  intro Hd. destruct (getNeuron st id) as [n|] eqn:E; cbn [stored_contexts]; [|eauto].
  destruct (is_empty (contexts n)); [eauto|].
  apply getNeuron_in in E. destruct E as [Hn _].
  unfold decodable in Hd. rewrite Forall_forall in Hd. exact (Hd n Hn).
Qed.

Lemma record_window_known (e : Engine) (path : string) (type : NeuronType)
    (query : option string) (now : Z) :
  decodable (store e) -> window_known e ->
  snd (record e path type query now) = Returns tt /\
  window_known (fst (record e path type query now)).
Proof.
  intros Hd Hw.
  destruct (record_decodable_outcome e path type query now Hd) as [Hret|Hfk].
  2:{ exfalso. revert Hfk. unfold record.
      assert (Hwe : recentAccesses (ensureOpen e) = recentAccesses e)
        by (unfold ensureOpen; now destruct (db_open e)).
      rewrite !ensureOpen_store, !Hwe.
      destruct (stored_contexts_returns (store e) (neuron_id type path) Hd) as [ctxs ->].
      match goal with
      | |- context [strengthen ?st ?id ?w ?i ?len ?t] =>
          pose proof (strengthen_ends id t len w st i) as Hs;
          destruct (strengthen st id w i len t) as [st' b]
      end.
      cbn [snd] in Hs. rewrite Hs; [discriminate | |].
      - cbn [neurons logAccess]. rewrite upsertNeuron_known, String.eqb_refl.
        apply orb_true_r.
      - eapply Forall_impl; [|exact Hw]. intros r Hr. cbn [neurons logAccess].
        now rewrite upsertNeuron_known, Hr. }
  split; [exact Hret|].
  unfold window_known.
  assert (Hk : forall x, known (neurons (store e)) x = true \/ x = neuron_id type path ->
               known (neurons (store (fst (record e path type query now)))) x = true).
  { intros x Hx. rewrite known_In, record_ids. cbv zeta.
    destruct (stored_contexts_returns (store e) (neuron_id type path) Hd) as [ctxs ->].
    destruct (known (neurons (store e)) (neuron_id type path)) eqn:Ek.
    - destruct Hx as [Hx| ->]; now apply known_In.
    - apply in_or_app. destruct Hx as [Hx| ->]; [left; now apply known_In | right; now left]. }
  destruct (record_window e path type query now) as [-> | ->].
  - eapply Forall_impl; [|exact Hw]. intros r Hr. apply Hk. now left.
  - apply Forall_forall. intros r Hr. apply track_In in Hr. apply Hk.
    destruct Hr as [->|Hr]; [now right|]. left.
    unfold window_known in Hw. rewrite Forall_forall in Hw. now apply Hw.
Qed.

(** X8.  From an empty database, a sequence of [record] calls with no
    [decay] among them never throws: after any such sequence the next call of
    [record] returns. *)
Theorem record_returns_without_decay (now0 : Z)
    (calls : list (string * NeuronType * option string * Z))
    (path : string) (type : NeuronType) (query : option string) (now : Z) :
  snd (record (run (BrainBoxDB_new empty_store now0) (record_ops calls))
              path type query now) = Returns tt.
Proof.
  apply record_window_known.
  - apply run_decodable.
  - assert (H : decodable (store (run (BrainBoxDB_new empty_store now0) (record_ops calls)))
                /\ window_known (run (BrainBoxDB_new empty_store now0) (record_ops calls))).
    { assert (H0 : decodable (store (BrainBoxDB_new empty_store now0)) /\
                   window_known (BrainBoxDB_new empty_store now0))
        by (split; constructor).
      revert H0. generalize (BrainBoxDB_new empty_store now0).
      unfold run. induction calls as [|[[[p t] q] n] calls IH]; intros e He; [assumption|].
      cbn [record_ops map fold_left step]. apply IH. destruct He as [Hd Hw]. split.
      - now apply record_decodable.
      - now apply record_window_known. }
    apply H.
Qed.

(** The loop stops when an id of the window, other than the id recorded, is
    no neuron while the foreign keys hold. *)
Lemma strengthen_stops (id x : string) (now : Z) (len : nat) (window : list string) :
  x <> id ->
  forall (st : Store) (i : nat),
    referential st ->
    known (neurons st) x = false ->
    In x window ->
    snd (strengthen st id window i len now) = false.
Proof.
  intro Hx. induction window as [|r window IH]; intros st i Href Hun Hin; [destruct Hin|].
  cbn [strengthen].
  destruct (String.eqb r id) eqn:Er.
  - apply String.eqb_eq in Er. destruct Hin as [->|Hin]; [congruence | now apply IH].
  - destruct (upsertSynapse st id r _ _ now) as [st1|] eqn:E1; [|reflexivity].
    pose proof (upsertSynapse_neurons _ _ _ _ _ _ _ E1) as N1.
    pose proof (upsertSynapse_referential _ _ _ _ _ _ _ E1 Href) as R1.
    assert (Hrx : r <> x).
    { intros ->. revert E1. unfold upsertSynapse.
      destruct (existsb (has_key id x) (synapses st)) eqn:Ee.
      - exfalso. apply existsb_exists in Ee. destruct Ee as (s & Hs & Hk).
        unfold has_key in Hk. apply andb_prop in Hk. destruct Hk as [_ Ht].
        apply String.eqb_eq in Ht. destruct Href as [Hsyn _].
        rewrite Forall_forall in Hsyn. destruct (Hsyn s Hs) as [_ Hknown].
        rewrite Ht in Hknown. congruence.
      - rewrite getNeuron_known in Hun.
        destruct (getNeuron st id); [|discriminate].
        destruct (getNeuron st x); discriminate. }
    destruct Hin as [Hin|Hin]; [contradiction|].
    destruct (upsertSynapse st1 r id _ _ now) as [st2|] eqn:E2; [|reflexivity].
    pose proof (upsertSynapse_neurons _ _ _ _ _ _ _ E2) as N2.
    apply IH; [eapply upsertSynapse_referential; eauto | | assumption].
    now rewrite N2, N1.
Qed.

Lemma upsert_log_referential (st : Store) (id : string) (type : NeuronType) (path : string)
    (act myel : Q) (now : Z) (ctx sid : string) (query : option string) (cost order : Z) :
  referential st ->
  referential (logAccess (upsertNeuron st id type path act myel now ctx)
                         id sid query now cost order).
Proof.
  intros [Hs Hl]. unfold referential. cbn [neurons synapses access_log logAccess].
  destruct (upsertNeuron_others st id type path act myel now ctx) as (-> & -> & _ & _).
  split.
  - eapply Forall_impl; [|exact Hs]. intros s [H1 H2].
    rewrite !upsertNeuron_known, H1, H2. split; reflexivity.
  - apply Forall_app. split.
    + eapply Forall_impl; [|exact Hl]. intros r H. now rewrite upsertNeuron_known, H.
    + constructor; [|constructor]. cbn [log_neuron_id].
      rewrite upsertNeuron_known, String.eqb_refl. apply orb_true_r.
Qed.

Lemma record_stale (e : Engine) (x : string) (path : string) (type : NeuronType)
    (query : option string) (now : Z) :
  referential (store e) -> decodable (store e) ->
  In x (recentAccesses e) -> known (neurons (store e)) x = false ->
  neuron_id type path <> x ->
  snd (record e path type query now) = Throws ForeignKeyError /\
  recentAccesses (fst (record e path type query now)) = recentAccesses e /\
  known (neurons (store (fst (record e path type query now)))) x = false.
Proof.
  intros Href Hd Hin Hun Hne.
  destruct (stored_contexts_returns (store e) (neuron_id type path) Hd) as [ctxs Hc].
  assert (Hun' : known (neurons (store (fst (record e path type query now)))) x = false).
  { apply not_true_iff_false. rewrite known_In, record_ids. cbv zeta. rewrite Hc.
    apply not_true_iff_false in Hun. rewrite known_In in Hun.
    destruct (known _ (neuron_id type path)); [assumption|].
    rewrite in_app_iff. cbn. intros [H|[H|[]]]; [contradiction | congruence]. }
  unfold record in *.
  assert (Hw : recentAccesses (ensureOpen e) = recentAccesses e)
    by (unfold ensureOpen; now destruct (db_open e)).
  assert (Hid : sessionId (ensureOpen e) = sessionId e /\
                accessOrder (ensureOpen e) = accessOrder e)
    by (unfold ensureOpen; destruct (db_open e); split; reflexivity).
  destruct Hid as [Hsid Hord].
  rewrite !ensureOpen_store, !Hw, Hsid, Hord, Hc in *.
  match goal with
  | |- context [strengthen ?st ?id ?w ?i ?len ?t] =>
      pose proof (strengthen_stops id x t len w (not_eq_sym Hne) st i) as Hs;
      destruct (strengthen st id w i len t) as [st' b]
  end.
  cbn [snd] in Hs.
  assert (Hb : b = false).
  { apply Hs.
    - now apply upsert_log_referential.
    - cbn [neurons logAccess]. rewrite upsertNeuron_known, Hun.
      cbn. now apply String.eqb_neq.
    - assumption. }
  subst b. cbn in Hun' |- *. auto.
Qed.

(** X9.  When the window holds the id of a neuron that is no longer in the
    store (a neuron [decay] has deleted), every call of [record] for another
    id stops on a foreign key, after the upsert of its own neuron, and leaves
    the window as it is: the calls keep stopping, through any sequence of
    [decay] calls and of [record] calls for other ids. *)
Theorem stale_window_blocks_record (e : Engine) (x : string) (ops : list Op)
    (path : string) (type : NeuronType) (query : option string) (now : Z) :
  referential (store e) -> decodable (store e) ->
  In x (recentAccesses e) -> getNeuron (store e) x = None ->
  Forall (fun o => op_id o <> Some x) ops ->
  neuron_id type path <> x ->
  recentAccesses (run e ops) = recentAccesses e /\
  getNeuron (store (run e ops)) x = None /\
  snd (record (run e ops) path type query now) = Throws ForeignKeyError /\
  getNeuron (store (fst (record (run e ops) path type query now))) (neuron_id type path)
    <> None.
Proof.
  intros Href Hd Hin Hnone Hops Hne.
  assert (Hun : known (neurons (store e)) x = false) by now rewrite getNeuron_known, Hnone.
  assert (H : referential (store (run e ops)) /\ decodable (store (run e ops)) /\
              recentAccesses (run e ops) = recentAccesses e /\
              known (neurons (store (run e ops))) x = false).
  { clear Hnone Hne. revert e Href Hd Hin Hun. unfold run.
    induction ops as [|o ops IH]; intros e Href Hd Hin Hun; cbn [fold_left]; [auto|].
    inversion Hops as [|? ? Ho Hops']; subst.
    assert (G : referential (store (step e o)) /\ decodable (store (step e o)) /\
                recentAccesses (step e o) = recentAccesses e /\
                known (neurons (store (step e o))) x = false).
    { destruct o as [p t q n|]; cbn [step].
      - assert (Hp : neuron_id t p <> x) by (intros <-; now apply Ho).
        destruct (record_stale e x p t q n Href Hd Hin Hun Hp) as (_ & Hw & Hk).
        split; [now apply record_referential|]. split; [now apply record_decodable|].
        split; assumption.
      - split; [now apply decay_referential|]. split; [now apply decay_decodable|].
        split; [apply decay_window|].
        apply not_true_iff_false. apply not_true_iff_false in Hun. intro Hk. apply Hun.
        rewrite known_In in *. revert Hk. unfold decay. rewrite ensureOpen_store.
        cbn -[known]. intro Hk. apply in_map_iff in Hk. destruct Hk as (m & Hm & Hk).
        apply filter_In in Hk. destruct Hk as [Hk _].
        apply in_map_iff in Hk. destruct Hk as (m0 & <- & Hk).
        apply in_map_iff. exists m0. split; [exact Hm | exact Hk]. }
    destruct G as (G1 & G2 & G3 & G4).
    destruct (IH Hops' (step e o) G1 G2) as (I1 & I2 & I3 & I4);
      [now rewrite G3 | assumption |].
    split; [assumption|]. split; [assumption|]. split; [congruence | assumption]. }
  destruct H as (R & D & W & K).
  destruct (record_stale (run e ops) x path type query now R D) as (S1 & _ & _);
    [now rewrite W | assumption | assumption |].
  split; [assumption|]. split.
  - rewrite getNeuron_known in K. now destruct (getNeuron (store (run e ops)) x).
  - split; [assumption|].
    rewrite getNeuron_record. cbv zeta.
    destruct (stored_contexts_returns (store (run e ops)) (neuron_id type path) D)
      as [ctxs ->].
    rewrite getNeuron_upsertNeuron, String.eqb_refl. discriminate.
Qed.

Lemma stale_window_blocks_record_witness :
  referential (store faded_xy) /\ decodable (store faded_xy) /\
  In "file:/x" (recentAccesses faded_xy) /\
  getNeuron (store faded_xy) "file:/x" = None /\
  Forall (fun o => op_id o <> Some "file:/x") [OpRecord "/z" file None 40; OpDecay] /\
  neuron_id file "/w" <> "file:/x" /\
  snd (record (run faded_xy [OpRecord "/z" file None 40; OpDecay]) "/w" file None 41)
    = Throws ForeignKeyError.
Proof.
  assert (H1 : referential (store faded_xy)) by (split; vm_compute; constructor).
  assert (H2 : decodable (store faded_xy)) by (vm_compute; constructor).
  assert (H3 : In "file:/x" (recentAccesses faded_xy)) by (vm_compute; auto).
  assert (H4 : getNeuron (store faded_xy) "file:/x" = None) by (vm_compute; reflexivity).
  assert (H5 : Forall (fun o => op_id o <> Some "file:/x")
                      [OpRecord "/z" file None 40; OpDecay])
    by (repeat constructor; discriminate).
  assert (H6 : neuron_id file "/w" <> "file:/x") by discriminate.
  repeat (split; [assumption|]).
  exact (proj1 (proj2 (proj2 (stale_window_blocks_record faded_xy "file:/x" _ "/w" file None 41
                                 H1 H2 H3 H4 H5 H6)))).
Defined.

(** ** What [decay] deletes and what it reports *)

Lemma filter_split_length {A : Type} (f : A -> bool) (l : list A) :
  (List.length (filter f l) + List.length (filter (fun x => negb (f x)) l))%nat
  = List.length l.
Proof.
  induction l as [|x l IH]; cbn; [reflexivity|].
  destruct (f x); cbn; lia.
Qed.

Lemma filter_length_bound {A : Type} (f : A -> bool) (l : list A) :
  (List.length (filter f l) <= List.length l)%nat.
Proof.
  induction l as [|x l IH]; cbn; [lia|]. destruct (f x); cbn; lia.
Qed.

Lemma dead_neuron_prunable (n : Neuron) : dead_neuron n = true <-> prunable n.
Proof.
  unfold dead_neuron, prunable.
  rewrite !andb_true_iff, !Qltb_true, Z.ltb_lt. tauto.
Qed.

(** X10.  What [decay] reports and leaves: [pruned_neurons] is the number of
    neurons that are gone; [pruned_synapses] counts the synapses deleted for
    their weight and not those that go with a deleted neuron, so it is at
    most the number of synapses that are gone, and is that number when no
    neuron is deleted; no synapse that remains is below the threshold, and no
    neuron that remains meets the condition of [pruneNeurons]. *)
Theorem decay_report (e : Engine) :
  let e' := fst (decay e) in
  let pruned_synapses := fst (snd (decay e)) in
  let pruned_neurons := snd (snd (decay e)) in
  let gone_neurons :=
    (Z.of_nat (List.length (neurons (store e)))
     - Z.of_nat (List.length (neurons (store e'))))%Z in
  let gone_synapses :=
    (Z.of_nat (List.length (synapses (store e)))
     - Z.of_nat (List.length (synapses (store e'))))%Z in
  pruned_neurons = gone_neurons /\
  (0 <= pruned_synapses <= gone_synapses)%Z /\
  (pruned_neurons = 0%Z -> pruned_synapses = gone_synapses) /\
  Forall (fun s => SYNAPSE_PRUNE_THRESHOLD <= weight s) (synapses (store e')) /\
  Forall (fun n => ~ prunable n) (neurons (store e')).
Proof.
  unfold decay. rewrite ensureOpen_store. cbn -[known].
  set (dn := fun n : Neuron => mkNeuron _ _ _ _ _ _ _ _ _).
  set (ds := fun s : Synapse => mkSynapse _ _ _ _ _ _).
  set (ns := map dn (neurons (store e))).
  set (ss := map ds (synapses (store e))).
  assert (Ln : List.length ns = List.length (neurons (store e))) by apply length_map.
  assert (Ls : List.length ss = List.length (synapses (store e))) by apply length_map.
  pose proof (filter_split_length dead_neuron ns) as Sn.
  pose proof (filter_split_length weak_synapse ss) as Ss.
  set (cascade := fun s : Synapse => negb (known _ (source_id s) || known _ (target_id s))).
  pose proof (filter_length_bound cascade (filter (fun s => negb (weak_synapse s)) ss)) as Bs.
  split; [lia|]. split; [lia|]. split; [|split].
  - intro H0.
    assert (Hd : filter dead_neuron ns = []).
    { destruct (filter dead_neuron ns); [reflexivity | cbn in H0; lia]. }
    rewrite (filter_all cascade); [lia|].
    intros s _. unfold cascade. now rewrite Hd.
  - apply Forall_forall. intros s Hs.
    apply filter_In in Hs. destruct Hs as [Hs _].
    apply filter_In in Hs. destruct Hs as [_ Hs].
    apply negb_true_iff in Hs. unfold weak_synapse in Hs. now apply Qltb_false.
  - apply Forall_forall. intros n Hn.
    apply filter_In in Hn. destruct Hn as [_ Hn].
    apply negb_true_iff in Hn. rewrite <- dead_neuron_prunable. congruence.
Qed.

Lemma find_filter_map_kept (g : Neuron -> Neuron) (keep : Neuron -> bool) (id : string)
    (l : list Neuron) (n : Neuron) :
  (forall x, n_id (g x) = n_id x) ->
  find (has_id id) l = Some n -> keep (g n) = true ->
  find (has_id id) (filter keep (map g l)) = Some (g n).
Proof.
  intros Hg. induction l as [|x l IH]; cbn; [discriminate|].
  intros Hf Hk. destruct (has_id id x) eqn:Ex.
  - injection Hf as ->. rewrite Hk. cbn. unfold has_id in *. now rewrite Hg, Ex.
  - destruct (keep (g x)); [|now apply IH].
    cbn. unfold has_id in *. rewrite Hg, Ex. now apply IH.
Qed.

Lemma decay_getNeuron_used (e : Engine) (id : string) (n : Neuron) :
  getNeuron (store e) id = Some n -> (2 <= access_count n)%Z ->
  exists n', getNeuron (store (fst (decay e))) id = Some n' /\
             access_count n' = access_count n /\
             contexts n' = contexts n /\
             activation n' = next_a (activation n) /\
             myelination n' = next_m (myelination n).
Proof.
  intros Hg Hc. unfold decay. rewrite ensureOpen_store. cbn -[known].
  set (dn := fun n : Neuron => mkNeuron _ _ _ _ _ _ _ _ _).
  exists (dn n). split; [|repeat split].
  unfold getNeuron in *. cbn [neurons].
  apply find_filter_map_kept; [reflexivity | assumption |].
  unfold dead_neuron. cbn.
  replace (access_count n <? 2)%Z with false by (symmetry; apply Z.ltb_ge; lia).
  now rewrite andb_false_r.
Qed.

Lemma after_power (c : Q) (k : nat) (x : Q) :
  ~ c == 0 -> after k (fun y => y * c) x == x * c ^ Z.of_nat k.
Proof.
  intro Hc. revert x. induction k as [|k IH]; intro x.
  - cbn. ring.
  - cbn [after]. rewrite IH.
    replace (Z.of_nat (S k)) with (1 + Z.of_nat k)%Z by lia.
    rewrite Qpower_plus by assumption. cbn. ring.
Qed.

(** X11.  [decay] never deletes a neuron that was accessed twice: after any
    number [k] of calls it is still there with its access count and its
    contexts, its activation multiplied by [(1 - ACTIVATION_DECAY_RATE)^k]
    and its myelination by [(1 - MYELIN_DECAY_RATE)^k]. *)
Theorem decay_keeps_used_neurons (e : Engine) (id : string) (n : Neuron) (k : nat) :
  getNeuron (store e) id = Some n -> (2 <= access_count n)%Z ->
  exists n', getNeuron (store (decay_times k e)) id = Some n' /\
             access_count n' = access_count n /\
             contexts n' = contexts n /\
             activation n' == activation n * (1 - ACTIVATION_DECAY_RATE) ^ Z.of_nat k /\
             myelination n' == myelination n * (1 - MYELIN_DECAY_RATE) ^ Z.of_nat k.
Proof.
  intros Hg Hc.
  assert (G : exists n', getNeuron (store (decay_times k e)) id = Some n' /\
                access_count n' = access_count n /\
                contexts n' = contexts n /\
                activation n' = after k next_a (activation n) /\
                myelination n' = after k next_m (myelination n)).
  { revert e n Hg Hc. induction k as [|k IH]; intros e n Hg Hc; cbn [decay_times after].
    - exists n. repeat split; assumption.
    - destruct (decay_getNeuron_used e id n Hg Hc) as (n1 & G1 & C1 & X1 & A1 & M1).
      destruct (IH (fst (decay e)) n1 G1) as (n' & G' & C' & X' & A' & M'); [lia|].
      exists n'. rewrite <- A1, <- M1. repeat split; congruence. }
  destruct G as (n' & G' & C' & X' & A' & M').
  exists n'. split; [assumption|]. split; [assumption|]. split; [assumption|].
  rewrite A', M'. split; apply after_power; unfold ACTIVATION_DECAY_RATE, MYELIN_DECAY_RATE;
    intro H; vm_compute in H; discriminate.
Qed.

Lemma decay_keeps_used_neurons_witness :
  exists n n',
    getNeuron (store twice_x) "file:/x" = Some n /\ (2 <= access_count n)%Z /\
    getNeuron (store (twice_x_after 200)) "file:/x" = Some n' /\
    access_count n' = access_count n.
Proof.
  assert (H1 : exists n, getNeuron (store twice_x) "file:/x" = Some n)
    by (vm_compute; eauto).
  destruct H1 as [n H1].
  assert (H2 : (2 <= access_count n)%Z).
  { vm_compute in H1. injection H1 as <-. vm_compute. discriminate. }
  destruct (decay_keeps_used_neurons twice_x "file:/x" n 200 H1 H2) as (n' & G & C & _).
  exists n, n'. repeat split; assumption.
Defined.

(** ** What [recall] returns *)

Lemma NeuronType_eqb_eq (a b : NeuronType) : NeuronType_eqb a b = true -> a = b.
Proof. destruct a, b; cbn; congruence. Qed.

Lemma parseNeuron_row (n : Neuron) (pn : ParsedNeuron) :
  parseNeuron n = Returns pn ->
  row pn = n /\ JSON_parse (contexts n) = Returns (parsed_contexts pn).
Proof.
  unfold parseNeuron. destruct (JSON_parse _); [|discriminate].
  intros [= <-]. split; reflexivity.
Qed.

Lemma computeConfidence_le_1 (n : Neuron) (query : string) (now : Z) (c : Q) :
  computeConfidence n query now = Returns c -> c <= 1.
Proof.
  unfold computeConfidence. destruct (JSON_parse _); [|discriminate].
  intros [= <-]. apply MIN_le_r.
Qed.

(** A loop that returns keeps what every turn keeps; [I] may speak of the
    elements still to come. *)
Lemma foldM_rest {A B : Type} (I : list A -> B -> Prop) (body : B -> A -> outcome B) :
  (forall x r b b', I (x :: r) b -> body b x = Returns b' -> I r b') ->
  forall l b b', I l b -> foldM body l b = Returns b' -> I [] b'.
Proof.
  intros Hstep. induction l as [|x l IH]; intros b b' Hb; cbn.
  - now intros [= <-].
  - destruct (body b x) as [b1|] eqn:E; [|discriminate].
    apply IH. eapply Hstep; eauto.
Qed.

Lemma foldM_keeps {A B : Type} (I : B -> Prop) (body : B -> A -> outcome B) (l : list A) :
  (forall x b b', In x l -> I b -> body b x = Returns b' -> I b') ->
  forall b b', I b -> foldM body l b = Returns b' -> I b'.
Proof.
  intros Hstep b b' Hb Hf.
  apply (foldM_rest (fun r b => incl r l /\ I b) body) with (l := l) (b := b) (b' := b');
    [|split; [apply incl_refl | assumption] | assumption].
  intros x r b0 b1 [Hr H0] E. split.
  - intros y Hy. apply Hr. now right.
  - eapply Hstep; eauto. apply Hr. now left.
Qed.

Lemma direct_step_ok (st : Store) (type : NeuronType) (query : string) (now : Z)
    (acc acc' : RecallState) (n : Neuron) :
  In n (neurons st) ->
  Forall (result_ok st type) (fst acc) ->
  direct_step type query now acc n = Returns acc' ->
  Forall (result_ok st type) (fst acc').
Proof.
  intros Hin Hacc. unfold direct_step. destruct acc as [results activated].
  destruct (negb _) eqn:Et; [now intros [= <-]|].
  destruct (computeConfidence n query now) as [c|] eqn:Ec; [|discriminate].
  destruct (Qltb c CONFIDENCE_GATE) eqn:Eg; [now intros [= <-]|].
  destruct (parseNeuron n) as [pn|] eqn:Ep; [|discriminate].
  intros [= <-]. cbn [fst] in *. apply Forall_app. split; [assumption|].
  constructor; [|constructor]. unfold result_ok. cbn.
  destruct (parseNeuron_row n pn Ep) as [-> Hc].
  split; [assumption|]. split; [apply NeuronType_eqb_eq; now apply negb_false_iff|].
  split; [assumption|]. split; [now apply Qltb_false|].
  eapply computeConfidence_le_1; eauto.
Qed.

Lemma spread_step_ok (st : Store) (type : NeuronType) (seed : RecallResult)
    (acc acc' : RecallState) (syn : Synapse) :
  Forall (result_ok st type) (fst acc) ->
  spread_step st type seed acc syn = Returns acc' ->
  Forall (result_ok st type) (fst acc').
Proof.
  intros Hacc. unfold spread_step. destruct acc as [results activated].
  destruct (_ || _); [now intros [= <-]|].
  destruct (getNeuron st (target_id syn)) as [target|] eqn:E; [|now intros [= <-]].
  destruct (negb _) eqn:Et; [now intros [= <-]|].
  destruct (Qltb _ CONFIDENCE_GATE) eqn:Eg; [now intros [= <-]|].
  destruct (parseNeuron target) as [pn|] eqn:Ep; [|discriminate].
  intros [= <-]. cbn [fst] in *. apply Forall_app. split; [assumption|].
  constructor; [|constructor]. unfold result_ok. cbn.
  destruct (parseNeuron_row target pn Ep) as [-> Hc].
  apply getNeuron_in in E. destruct E as [Hin _].
  split; [assumption|]. split; [apply NeuronType_eqb_eq; now apply negb_false_iff|].
  split; [assumption|]. apply Qltb_false in Eg. split; [|apply MIN_le_r].
  apply MIN_ge; [assumption|]. unfold CONFIDENCE_GATE. lra.
Qed.

Lemma topByMyelination_type (st : Store) (type : NeuronType) (limit : Z) (n : Neuron) :
  In n (topByMyelination st type limit) -> n_type n = type.
Proof.
  unfold topByMyelination, sort_desc. intro H.
  apply LIMIT_In, sort_by_In, filter_In in H. destruct H as [_ H].
  now apply NeuronType_eqb_eq.
Qed.

Lemma myelin_step_ok (st : Store) (type : NeuronType) (activated : list string)
    (results results' : list RecallResult) (n : Neuron) :
  In n (neurons st) -> n_type n = type ->
  Forall (result_ok st type) results ->
  myelin_step activated results n = Returns results' ->
  Forall (result_ok st type) results'.
Proof.
  intros Hin Ht Hacc. unfold myelin_step.
  destruct (activated_has _ _); [now intros [= <-]|].
  destruct (Qltb _ 0.15) eqn:Eg; [now intros [= <-]|].
  destruct (parseNeuron n) as [pn|] eqn:Ep; [|discriminate].
  intros [= <-]. apply Forall_app. split; [assumption|].
  constructor; [|constructor]. unfold result_ok. cbn.
  destruct (parseNeuron_row n pn Ep) as [-> Hc].
  split; [assumption|]. split; [assumption|]. split; [assumption|].
  split; [now apply Qltb_false | reflexivity].
Qed.

Lemma phases_ok (st : Store) (query : string) (type : NeuronType) (limit now : Z)
    (frontier : list RecallResult) (activated : list string) (acc : RecallState)
    (results : list RecallResult) (candidates : list Neuron) :
  directMatches st (keywords_of query) = Returns candidates ->
  foldM (direct_step type query now) candidates ([], []) = Returns (frontier, activated) ->
  spread_phase st type frontier (frontier, activated) = Returns acc ->
  myelin_phase st type limit acc = Returns results ->
  Forall (result_ok st type) results.
Proof.
  intros H0 H1 H2 H3.
  assert (G1 : Forall (result_ok st type) (fst (frontier, activated))).
  { eapply (foldM_keeps (fun acc => Forall (result_ok st type) (fst acc))); [| |exact H1].
    - intros x b b' Hx Hb E. eapply direct_step_ok; eauto using directMatches_In.
    - constructor. }
  assert (G2 : Forall (result_ok st type) (fst acc)).
  { unfold spread_phase in H2.
    eapply (foldM_keeps (fun acc => Forall (result_ok st type) (fst acc))); [| |exact H2].
    - intros seed b b' _ Hb E.
      eapply (foldM_keeps (fun acc => Forall (result_ok st type) (fst acc))); [| |exact E].
      + intros syn c c' _ Hc E'. eapply spread_step_ok; eauto.
      + assumption.
    - assumption. }
  unfold myelin_phase in H3. destruct acc as [rs act]. cbn [fst] in G2.
  destruct (_ <? _)%Z; [|now injection H3 as <-].
  eapply (foldM_keeps (fun rs => Forall (result_ok st type) rs)); [| |exact H3].
  - intros n b b' Hn Hb E.
    eapply myelin_step_ok; eauto using topByMyelination_In, topByMyelination_type.
  - assumption.
Qed.

(** The sort ranks. *)
Lemma insert_by_ranked {A : Type} (key : A -> Q) (x : A) (l : list A) :
  StronglySorted (fun a b => key b <= key a) l ->
  StronglySorted (fun a b => key b <= key a)
                 (insert_by (fun x y => Qle_bool (key y) (key x)) x l).
Proof.
  induction l as [|y l IH]; intro Hl; cbn.
  - constructor; constructor.
  - apply StronglySorted_inv in Hl. destruct Hl as [Hl Hy].
    destruct (Qle_bool (key y) (key x)) eqn:E.
    + apply Qle_bool_iff in E. constructor; [constructor; assumption|].
      constructor; [assumption|].
      eapply Forall_impl; [|exact Hy]. cbn. intros z Hz. eapply Qle_trans; eauto.
    + assert (Hxy : key x <= key y).
      { apply Qlt_le_weak, Qnot_le_lt. rewrite <- Qle_bool_iff, E. discriminate. }
      constructor; [now apply IH|].
      apply Forall_forall. intros z Hz. apply insert_by_In in Hz.
      destruct Hz as [->|Hz]; [assumption|].
      rewrite Forall_forall in Hy. now apply Hy.
Qed.

Lemma sort_desc_ranked {A : Type} (key : A -> Q) (l : list A) :
  StronglySorted (fun a b => key b <= key a) (sort_desc key l).
Proof.
  unfold sort_desc, sort_by. induction l as [|x l IH]; cbn; [constructor|].
  now apply insert_by_ranked.
Qed.

Lemma firstn_ranked {A : Type} (R : A -> A -> Prop) (k : nat) (l : list A) :
  StronglySorted R l -> StronglySorted R (firstn k l).
Proof.
  revert l. induction k as [|k IH]; intros [|x l] Hl; cbn; try constructor.
  - apply IH. now apply StronglySorted_inv in Hl.
  - apply StronglySorted_inv in Hl. destruct Hl as [_ Hx].
    apply Forall_forall. intros y Hy. apply firstn_In in Hy.
    rewrite Forall_forall in Hx. now apply Hx.
Qed.

Lemma slice_to_In {A : Type} (limit : Z) (l : list A) (x : A) :
  In x (slice_to limit l) -> In x l.
Proof. unfold slice_to. destruct (limit <? 0)%Z; apply firstn_In. Qed.

(** X12.  What [recall] returns is ranked by decreasing confidence, has at
    most [limit] entries when [limit] is not negative, and holds only rows of
    the store of the type asked for, with their contexts decoded.  A direct
    match has its confidence in [0.4, 1], a spread one in [0.4, 0.99], and a
    myelinated one has half its myelination, which is at least 0.15. *)
Theorem recall_results_shape (e : Engine) (query : string) (type : NeuronType)
    (limit now : Z) (rs : list RecallResult) :
  snd (recall e query type limit now) = Returns rs ->
  ranked rs /\
  ((0 <= limit)%Z -> (Z.of_nat (List.length rs) <= limit)%Z) /\
  Forall (result_ok (store e) type) rs.
Proof.
  unfold recall. cbn [snd]. rewrite ensureOpen_store. unfold recall_results.
  destruct (directMatches _ _) as [candidates|] eqn:H0; [|discriminate].
  destruct (foldM _ _ _) as [[frontier activated]|] eqn:H1; [|discriminate].
  destruct (spread_phase _ _ _ _) as [acc|] eqn:H2; [|discriminate].
  destruct (myelin_phase _ _ _ _) as [results|] eqn:H3; [|discriminate].
  intros [= <-]. split; [|split].
  - unfold ranked, slice_to. destruct (limit <? 0)%Z; apply firstn_ranked, sort_desc_ranked.
  - intro Hl. unfold slice_to.
    replace (limit <? 0)%Z with false by (symmetry; apply Z.ltb_ge; lia).
    pose proof (firstn_le_length (Z.to_nat limit) (sort_desc confidence results)). lia.
  - pose proof (phases_ok _ _ _ _ _ _ _ _ _ _ H0 H1 H2 H3) as G.
    rewrite Forall_forall in *. intros r Hr. apply G.
    apply slice_to_In in Hr. unfold sort_desc in Hr. now apply sort_by_In in Hr.
Qed.

Lemma recall_results_shape_witness :
  exists rs,
    snd (recall pair_xy "foo" file 5 3) = Returns rs /\
    ranked rs /\ (Z.of_nat (List.length rs) <= 5)%Z /\
    Forall (result_ok (store pair_xy) file) rs.
Proof.
  assert (H : exists rs, snd (recall pair_xy "foo" file 5 3) = Returns rs)
    by (vm_compute; eauto).
  destruct H as [rs H]. exists rs. split; [exact H|].
  destruct (recall_results_shape pair_xy "foo" file 5 3 rs H) as (R & L & F).
  split; [exact R|]. split; [apply L; lia | exact F].
Defined.

(** ** No neuron twice in what [recall] returns *)

















(** ** Myelination as a function of the access count *)

Lemma MIN_cases (a b : Q) : (a <= b /\ MIN a b = a) \/ (b < a /\ MIN a b = b).
Proof.
  unfold MIN. destruct (Qle_bool a b) eqn:E.
  - left. split; [now apply Qle_bool_iff | reflexivity].
  - right. split; [|reflexivity].
    apply Qnot_le_lt. rewrite <- Qle_bool_iff, E. discriminate.
Qed.

Lemma Qpower_succ (c : Q) (k : Z) :
  ~ c == 0 -> (0 <= k)%Z -> c ^ (k + 1) == c ^ k * c.
Proof.
  intros Hc Hk. rewrite Qpower_plus by assumption. cbn. reflexivity.
Qed.

Lemma myelination_next (m : Q) (count : Z) :
  (1 <= count)%Z ->
  m == myelination_at count ->
  MIN (m + MYELIN_RATE * (1 - m)) MYELIN_MAX == myelination_at (count + 1).
Proof.
  intros Hc Hm. unfold myelination_at in *.
  replace (count + 1 - 1)%Z with (count - 1 + 1)%Z by lia.
  assert (Hne : ~ 1 - MYELIN_RATE == 0) by (intro H; vm_compute in H; discriminate).
  pose proof (Qpower_succ (1 - MYELIN_RATE) (count - 1) Hne ltac:(lia)) as Hq.
  set (p := (1 - MYELIN_RATE) ^ (count - 1)) in *. clearbody p.
  set (q := (1 - MYELIN_RATE) ^ (count - 1 + 1)) in *. clearbody q.
  unfold MYELIN_RATE, MYELIN_MAX in *.
  destruct (MIN_cases (1 - p) 0.95) as [[H1 E1]|[H1 E1]]; rewrite E1 in Hm;
    destruct (MIN_cases (m + 0.02 * (1 - m)) 0.95) as [[H2 E2]|[H2 E2]]; rewrite E2;
    destruct (MIN_cases (1 - q) 0.95) as [[H3 E3]|[H3 E3]]; rewrite E3;
    lra.
Qed.

Lemma upsertNeuron_undecayed (st : Store) (id : string) (type : NeuronType) (path : string)
    (myel : Q) (now : Z) (ctx : string) :
  Forall undecayed (neurons st) ->
  (getNeuron st id = None -> myel = 0) ->
  Forall undecayed (neurons (upsertNeuron st id type path 1 myel now ctx)).
Proof.
  intros H Hm. unfold upsertNeuron. destruct (getNeuron st id) as [old|] eqn:E.
  - cbn [neurons set_neurons]. apply Forall_forall. intros n Hn.
    apply in_map_iff in Hn. destruct Hn as (n0 & <- & Hn0).
    rewrite Forall_forall in H. specialize (H n0 Hn0).
    destruct (has_id id n0); [|assumption].
    destruct H as (Hc & _ & Hmy). unfold undecayed, touch_neuron. cbn.
    split; [lia|]. split; [reflexivity|]. now apply myelination_next.
  - cbn [neurons set_neurons]. apply Forall_app. split; [assumption|].
    constructor; [|constructor]. unfold undecayed. cbn.
    split; [lia|]. split; [reflexivity|]. rewrite (Hm eq_refl). vm_compute. reflexivity.
Qed.

Lemma record_undecayed (e : Engine) (path : string) (type : NeuronType)
    (query : option string) (now : Z) :
  Forall undecayed (neurons (store e)) ->
  Forall undecayed (neurons (store (fst (record e path type query now)))).
Proof.
  intro H. rewrite record_neurons. cbv zeta.
  destruct (stored_contexts _); [|assumption].
  apply upsertNeuron_undecayed; [assumption|].
  now intros ->.
Qed.

Lemma records_undecayed (now0 : Z)
    (calls : list (string * NeuronType * option string * Z)) :
  Forall undecayed
         (neurons (store (run (BrainBoxDB_new empty_store now0) (record_ops calls)))).
Proof.
  assert (H0 : Forall undecayed (neurons (store (BrainBoxDB_new empty_store now0))))
    by constructor.
  revert H0. generalize (BrainBoxDB_new empty_store now0).
  unfold run. induction calls as [|[[[p t] q] n] calls IH]; intros e He; [assumption|].
  cbn [record_ops map fold_left step]. apply IH. now apply record_undecayed.
Qed.

(** X14.  From an empty database, after every sequence of [record] calls
    with no [decay] among them, every neuron has activation 1 and its
    myelination is a function of its access count [c]:
    [min(1 - (1 - MYELIN_RATE)^(c - 1), MYELIN_MAX)]. *)
Theorem myelination_follows_access_count (now0 : Z)
    (calls : list (string * NeuronType * option string * Z)) :
  Forall (fun n => (1 <= access_count n)%Z /\ activation n = 1 /\
                   myelination n ==
                   MIN (1 - (1 - MYELIN_RATE) ^ (access_count n - 1)) MYELIN_MAX)
         (neurons (store (run (BrainBoxDB_new empty_store now0) (record_ops calls)))).
Proof. exact (records_undecayed now0 calls). Qed.

(** ** Opening an engine on the file of a session *)

Lemma remove_first_absent (id : string) (l : list string) :
  ~ In id l -> remove_first id l = l.
Proof.
  induction l as [|y l IH]; cbn; intro H; [reflexivity|].
  destruct (String.eqb y id) eqn:E.
  - apply String.eqb_eq in E. subst. exfalso. apply H. now left.
  - f_equal. apply IH. tauto.
Qed.

Lemma remove_first_app_l (id : string) (a b : list string) :
  In id a -> remove_first id (a ++ b) = (remove_first id a ++ b)%list.
Proof.
  induction a as [|y a IH]; cbn; intro H; [destruct H|].
  destruct (String.eqb y id) eqn:E; [reflexivity|].
  apply String.eqb_neq in E. destruct H as [H|H]; [contradiction|].
  cbn. f_equal. now apply IH.
Qed.

Lemma remove_first_app_r (id : string) (a b : list string) :
  ~ In id a -> remove_first id (a ++ b) = (a ++ remove_first id b)%list.
Proof.
  induction a as [|y a IH]; cbn; intro H; [reflexivity|].
  destruct (String.eqb y id) eqn:E.
  - apply String.eqb_eq in E. subst. exfalso. apply H. now left.
  - cbn. f_equal. apply IH. tauto.
Qed.

Lemma remove_first_present (id : string) (l : list string) :
  In id l -> S (List.length (remove_first id l)) = List.length l.
Proof.
  induction l as [|y l IH]; cbn; intro H; [destruct H|].
  destruct (String.eqb y id) eqn:E; [reflexivity|].
  apply String.eqb_neq in E. destruct H as [H|H]; [contradiction|].
  cbn. f_equal. now apply IH.
Qed.

Lemma skipn_past {A : Type} (a l : list A) (k : nat) :
  skipn (List.length a + k) (a ++ l) = skipn k l.
Proof. induction a as [|x a IH]; cbn; [reflexivity | exact IH]. Qed.

Lemma skipn_one {A : Type} (l : list A) : skipn 1 l = tl l.
Proof. destruct l; reflexivity. Qed.

Lemma NoDup_app_disjoint {A : Type} (a b : list A) :
  NoDup (a ++ b) -> forall y, In y a -> ~ In y b.
Proof.
  induction a as [|x a IH]; cbn; intros H y Hy; [destruct Hy|].
  inversion H as [|? ? Hx Hab]; subst. destruct Hy as [<-|Hy].
  - intro Hb. apply Hx. apply in_or_app. now right.
  - now apply IH.
Qed.

(** Trimming after every access or once at the end gives the same window. *)
Lemma last_ids_push (u : list string) (x : string) :
  NoDup u -> last_ids (push_id u x) = track x (last_ids u).
Proof.
  intro Hu. unfold last_ids at 2, CO_ACCESS_WINDOW_SIZE.
  destruct (10 <? List.length u)%nat eqn:E.
  - apply Nat.ltb_lt in E.
    set (n := List.length u) in *.
    pose proof (firstn_skipn (n - 10) u) as Hsplit.
    set (a := firstn (n - 10) u) in *. set (b := skipn (n - 10) u) in *.
    assert (La : List.length a = (n - 10)%nat).
    { unfold a. rewrite length_firstn. fold n. lia. }
    assert (Lb : List.length b = 10%nat).
    { unfold b. rewrite length_skipn. fold n. lia. }
    rewrite <- Hsplit in Hu.
    assert (Hdisj : forall y, In y a -> ~ In y b).
    { intros y Ha Hb. exact (NoDup_app_disjoint a b Hu y Ha Hb). }
    unfold track, last_ids, push_id, CO_ACCESS_WINDOW_SIZE. rewrite <- Hsplit.
    destruct (in_dec string_dec x a) as [Ha|Ha].
    + rewrite remove_first_app_l by assumption.
      rewrite (remove_first_absent x b) by (now apply Hdisj).
      pose proof (remove_first_present x a Ha) as Lr.
      rewrite !length_app. cbn [List.length].
      replace (10 <? List.length (remove_first x a) + List.length b + 1)%nat with true
        by (symmetry; apply Nat.ltb_lt; lia).
      replace (10 <? List.length b + 1)%nat with true
        by (symmetry; apply Nat.ltb_lt; lia).
      replace (List.length (remove_first x a) + List.length b + 1 - 10)%nat
        with (List.length (remove_first x a) + 1)%nat by lia.
      rewrite <- app_assoc, skipn_past. apply skipn_one.
    + rewrite remove_first_app_r by assumption.
      destruct (in_dec string_dec x b) as [Hb|Hb].
      * pose proof (remove_first_present x b Hb) as Lr.
        rewrite !length_app. cbn [List.length].
        replace (10 <? List.length a + List.length (remove_first x b) + 1)%nat with true
          by (symmetry; apply Nat.ltb_lt; lia).
        replace (10 <? List.length (remove_first x b) + 1)%nat with false
          by (symmetry; apply Nat.ltb_ge; lia).
        replace (List.length a + List.length (remove_first x b) + 1 - 10)%nat
          with (List.length a + 0)%nat by lia.
        rewrite <- app_assoc, skipn_past. reflexivity.
      * rewrite (remove_first_absent x b) by assumption.
        rewrite !length_app. cbn [List.length].
        replace (10 <? List.length a + List.length b + 1)%nat with true
          by (symmetry; apply Nat.ltb_lt; lia).
        replace (10 <? List.length b + 1)%nat with true
          by (symmetry; apply Nat.ltb_lt; lia).
        replace (List.length a + List.length b + 1 - 10)%nat
          with (List.length a + 1)%nat by lia.
        rewrite <- app_assoc, skipn_past. apply skipn_one.
  - apply Nat.ltb_ge in E.
    unfold track, last_ids, push_id, CO_ACCESS_WINDOW_SIZE.
    set (p := (remove_first x u ++ [x])%list).
    assert (Lp : (List.length p <= 11)%nat).
    { unfold p. rewrite length_app. cbn. pose proof (remove_first_length x u). lia. }
    destruct (10 <? List.length p)%nat eqn:Ep; [|reflexivity].
    apply Nat.ltb_lt in Ep.
    replace (List.length p - 10)%nat with 1%nat by lia. apply skipn_one.
Qed.

Lemma push_id_NoDup (u : list string) (x : string) : NoDup u -> NoDup (push_id u x).
Proof.
  intro Hu. unfold push_id. destruct (remove_first_NoDup x u Hu). now apply NoDup_snoc.
Qed.

Lemma last_ids_fold (ids u : list string) :
  NoDup u ->
  last_ids (fold_left push_id ids u) = fold_left (fun w id => track id w) ids (last_ids u).
Proof.
  revert u. induction ids as [|x ids IH]; intros u Hu; cbn [fold_left]; [reflexivity|].
  rewrite IH by now apply push_id_NoDup. now rewrite last_ids_push.
Qed.

Lemma seed_window_tracks (rows : list AccessLog) :
  seed_window rows = fold_left (fun w id => track id w) (map log_neuron_id rows) [].
Proof.
  change (fold_left (fun w id => track id w) (map log_neuron_id rows) [])
    with (fold_left (fun w id => track id w) (map log_neuron_id rows) (last_ids [])).
  rewrite <- last_ids_fold by constructor.
  unfold seed_window, last_ids.
  assert (G : forall w,
             fold_left (fun w r => (remove_first (log_neuron_id r) w ++ [log_neuron_id r])%list)
                       rows w
             = fold_left push_id (map log_neuron_id rows) w).
  { induction rows as [|r rows IH]; intro w; cbn [fold_left map]; [reflexivity | apply IH]. }
  now rewrite G.
Qed.

Lemma sort_by_sorted {A : Type} (le : A -> A -> bool) (l : list A) :
  StronglySorted (fun a b => le a b = true) l -> sort_by le l = l.
Proof.
  unfold sort_by. induction l as [|x l IH]; intro H; cbn; [reflexivity|].
  apply StronglySorted_inv in H. destruct H as [Hl Hx].
  rewrite IH by assumption. destruct l as [|y l]; [reflexivity|].
  cbn. inversion Hx as [|? ? Hxy _]; subst. now rewrite Hxy.
Qed.

Lemma upsertSynapse_access_log (st st' : Store) (a b : string) (w delta : Q) (now : Z) :
  upsertSynapse st a b w delta now = Some st' -> access_log st' = access_log st.
Proof.
  unfold upsertSynapse.
  destruct (existsb _ _); [now intros [= <-]|].
  destruct (getNeuron st a); [|discriminate].
  destruct (getNeuron st b); [|discriminate].
  now intros [= <-].
Qed.

Lemma strengthen_access_log (id : string) (now : Z) (len : nat) (window : list string) :
  forall (st : Store) (i : nat),
    access_log (fst (strengthen st id window i len now)) = access_log st.
Proof.
  induction window as [|r window IH]; intros st i; cbn [strengthen]; [reflexivity|].
  destruct (String.eqb r id); [apply IH|].
  destruct (upsertSynapse st id r _ _ now) as [st1|] eqn:E1; [|reflexivity].
  apply upsertSynapse_access_log in E1.
  destruct (upsertSynapse st1 r id _ _ now) as [st2|] eqn:E2; [|assumption].
  apply upsertSynapse_access_log in E2.
  rewrite IH. congruence.
Qed.

(** What a call of [record] that returns appends to the log. *)
Lemma record_log (e : Engine) (path : string) (type : NeuronType)
    (query : option string) (now : Z) :
  decodable (store e) -> window_known e ->
  let e' := fst (record e path type query now) in
  (exists r,
     access_log (store e') = (access_log (store e) ++ [r])%list /\
     log_neuron_id r = neuron_id type path /\ log_timestamp r = now /\
     access_order r = (accessOrder e + 1)%Z) /\
  accessOrder e' = (accessOrder e + 1)%Z /\
  recentAccesses e' = track (neuron_id type path) (recentAccesses e).
Proof.
  intros Hd Hw. cbv zeta. unfold record.
  assert (Hwe : recentAccesses (ensureOpen e) = recentAccesses e)
    by (unfold ensureOpen; now destruct (db_open e)).
  assert (Hid : sessionId (ensureOpen e) = sessionId e /\
                accessOrder (ensureOpen e) = accessOrder e)
    by (unfold ensureOpen; destruct (db_open e); split; reflexivity).
  destruct Hid as [Hsid Hord].
  rewrite !ensureOpen_store, !Hwe, Hsid, Hord.
  destruct (stored_contexts_returns (store e) (neuron_id type path) Hd) as [ctxs ->].
  match goal with
  | |- context [strengthen ?st ?id ?w ?i ?len ?t] =>
      pose proof (strengthen_ends id t len w st i) as Hs;
      pose proof (strengthen_access_log id t len w st i) as Hl;
      destruct (strengthen st id w i len t) as [st' b]
  end.
  cbn [fst snd] in Hs, Hl.
  assert (Hb : b = true).
  { apply Hs.
    - cbn [neurons logAccess]. rewrite upsertNeuron_known, String.eqb_refl.
      apply orb_true_r.
    - eapply Forall_impl; [|exact Hw]. intros r Hr. cbn [neurons logAccess].
      now rewrite upsertNeuron_known, Hr. }
  subst b. cbn [fst store accessOrder recentAccesses updateSession access_log].
  split; [|split; reflexivity].
  rewrite Hl. cbn [logAccess access_log].
  destruct (upsertNeuron_others (store e) (neuron_id type path) type path 1
              (match getNeuron (store e) (neuron_id type path) with
               | Some n => myelination n | None => 0 end)
              now (JSON_stringify (add_context ctxs query))) as (_ & -> & _).
  eexists. split; [reflexivity|]. cbn. repeat split.
Qed.

Lemma in_last_hour_within (now' t : Z) :
  (now' - 3600000 < t)%Z -> in_last_hour now' t = true.
Proof.
  intro H. unfold in_last_hour, day_of. apply Z.leb_le.
  apply Z.div_le_mono; lia.
Qed.

Lemma record_session_log (T now' : Z) (e : Engine) (path : string) (type : NeuronType)
    (query : option string) (now : Z) :
  session_log T now' e -> (T <= now)%Z -> (now' - 3600000 < now)%Z ->
  session_log now now' (fst (record e path type query now)).
Proof.
  intros (Hd & Hw & Hs & Hf & Hr) HT Hh.
  destruct (record_log e path type query now Hd Hw) as ((r & Hlog & Hid & Ht & Ho) & Hord & Hwin).
  destruct (record_window_known e path type query now Hd Hw) as [_ Hw'].
  unfold session_log. rewrite Hlog, Hord, Hwin.
  split; [now apply record_decodable|]. split; [assumption|].
  rewrite Forall_forall in Hf.
  split; [|split].
  - clear Hr Hlog. induction (access_log (store e)) as [|a l IH]; cbn.
    + constructor; constructor.
    + apply StronglySorted_inv in Hs. destruct Hs as [Hl Ha].
      constructor.
      * apply IH; [assumption|]. intros x Hx. apply Hf. now right.
      * apply Forall_app. split; [assumption|]. constructor; [|constructor].
        destruct (Hf a (or_introl eq_refl)) as (Ho' & Ht' & _).
        unfold log_le. rewrite Ht, Ho.
        destruct (Z.eq_dec (log_timestamp a) now) as [Heq|Hne].
        -- apply orb_true_iff. right. apply andb_true_iff.
           split; [now apply Z.eqb_eq | apply Z.leb_le; lia].
        -- apply orb_true_iff. left. apply Z.ltb_lt. lia.
  - apply Forall_app. split.
    + apply Forall_forall. intros x Hx. destruct (Hf x Hx) as (A & B & C).
      split; [lia|]. split; [lia | assumption].
    + constructor; [|constructor]. rewrite Ht, Ho.
      split; [lia|]. split; [lia|]. now apply in_last_hour_within.
  - rewrite map_app, fold_left_app, <- Hr. cbn. now rewrite Hid.
Qed.

Lemma createSession_access_log (st : Store) (id : string) (now : Z) :
  access_log (createSession st id now) = access_log st.
Proof. unfold createSession. now destruct (existsb _ _). Qed.

(** X15.  Opening an engine on the file of a session restores the co-access
    window of that session: when the session started on an empty database,
    only recorded, at times that do not go back, and all its accesses are
    within the hour before the opening, the new engine starts with the window
    the session ended with. *)
Theorem reopen_restores_window (now0 now' : Z)
    (calls : list (string * NeuronType * option string * Z)) :
  StronglySorted Z.le (map call_time calls) ->
  Forall (fun c => (now' - 3600000 < call_time c)%Z) calls ->
  let e := run (BrainBoxDB_new empty_store now0) (record_ops calls) in
  recentAccesses (BrainBoxDB_new (store e) now') = recentAccesses e.
Proof.
  intros Hsorted Hhour e.
  assert (G : exists T, session_log T now' e).
  { subst e.
    assert (H0 : exists T, session_log T now' (BrainBoxDB_new empty_store now0) /\
                           Forall (fun c => (T <= call_time c)%Z) calls).
    { destruct calls as [|c calls].
      - exists 0%Z. split; [|constructor].
        repeat split; constructor.
      - exists (call_time c). split; [repeat split; constructor|].
        cbn [map] in Hsorted. apply StronglySorted_inv in Hsorted.
        destruct Hsorted as [_ Hc]. constructor; [lia|].
        rewrite Forall_map in Hc. exact Hc. }
    destruct H0 as (T & H0 & HT). revert T H0 HT Hsorted Hhour.
    generalize (BrainBoxDB_new empty_store now0).
    unfold run. induction calls as [|[[[p t] q] n] calls IH];
      intros e0 T H0 HT Hsorted Hhour; cbn [record_ops map fold_left step].
    - eauto.
    - inversion HT as [|? ? Hn HT']; subst. inversion Hhour as [|? ? Hh Hhour']; subst.
      cbn [map] in Hsorted. apply StronglySorted_inv in Hsorted.
      destruct Hsorted as [Hsorted Hc]. rewrite Forall_map in Hc.
      apply (IH (fst (record e0 p t q n)) n); try assumption.
      now apply (record_session_log T). }
  destruct G as (T & Hd & Hw & Hs & Hf & Hr).
  rewrite Hr. unfold BrainBoxDB_new. cbn [recentAccesses].
  rewrite createSession_access_log.
  rewrite filter_all.
  - rewrite sort_by_sorted by assumption. apply seed_window_tracks.
  - intros r Hin. rewrite Forall_forall in Hf. now destruct (Hf r Hin) as (_ & _ & ?).
Qed.

Lemma reopen_restores_window_witness :
  recentAccesses
    (BrainBoxDB_new
       (store (run (BrainBoxDB_new empty_store 0)
                   (record_ops [("/x", file, None, 1%Z); ("/y", file, None, 2%Z);
                                ("/x", file, None, 2%Z)]))) 1000)
  = ["file:/y"; "file:/x"].
Proof.
  assert (H1 : StronglySorted Z.le
                 (map call_time [("/x", file, @None string, 1%Z); ("/y", file, None, 2%Z);
                                 ("/x", file, None, 2%Z)])).
  { cbn. repeat constructor; lia. }
  assert (H2 : Forall (fun c => (1000 - 3600000 < call_time c)%Z)
                 [("/x", file, @None string, 1%Z); ("/y", file, None, 2%Z);
                  ("/x", file, None, 2%Z)]).
  { cbn. repeat constructor. }
  rewrite (reopen_restores_window 0 1000 _ H1 H2). vm_compute. reflexivity.
Defined.

(** ** The statistics of a session that only records *)

Lemma array_includes_iff (l : list string) (x : string) :
  array_includes l x = true <-> In x l.
Proof.
  unfold array_includes. rewrite existsb_exists. split.
  - intros (y & Hy & E). apply String.eqb_eq in E. now subst.
  - intro H. exists x. split; [assumption | apply String.eqb_refl].
Qed.

Lemma power_below_half (k : Z) :
  (0 <= k)%Z -> ((1 - MYELIN_RATE) ^ k < 0.5 <-> (35 <= k)%Z).
Proof.
  intro Hk.
  assert (Hne : ~ 1 - MYELIN_RATE == 0) by (intro H; vm_compute in H; discriminate).
  assert (Hstep : forall j, (0 <= j)%Z ->
            (1 - MYELIN_RATE) ^ (j + 1) <= (1 - MYELIN_RATE) ^ j /\
            0 < (1 - MYELIN_RATE) ^ j).
  { intros j Hj.
    assert (Hpos : 0 < (1 - MYELIN_RATE) ^ j).
    { apply Qpower_0_lt. vm_compute. reflexivity. }
    split; [|assumption]. rewrite Qpower_succ by assumption.
    unfold MYELIN_RATE in *. set (p := (1 - 0.02) ^ j) in *. clearbody p. lra. }
  assert (Hmono : forall d j, (0 <= j)%Z ->
            (1 - MYELIN_RATE) ^ (j + Z.of_nat d) <= (1 - MYELIN_RATE) ^ j).
  { induction d as [|d IH]; intros j Hj.
    - replace (j + Z.of_nat 0)%Z with j by lia. apply Qle_refl.
    - replace (j + Z.of_nat (S d))%Z with (j + Z.of_nat d + 1)%Z by lia.
      eapply Qle_trans; [apply Hstep; lia | now apply IH]. }
  split.
  - intro H. destruct (Z_lt_le_dec k 35) as [Hlt|]; [|assumption]. exfalso.
    pose proof (Hmono (Z.to_nat (34 - k)) k Hk) as Hm.
    replace (k + Z.of_nat (Z.to_nat (34 - k)))%Z with 34%Z in Hm by lia.
    assert (H34 : 0.5 <= (1 - MYELIN_RATE) ^ 34) by (vm_compute; discriminate).
    apply (Qlt_irrefl 0.5). eapply Qle_lt_trans; [exact H34|].
    eapply Qle_lt_trans; [exact Hm | exact H].
  - intro H. pose proof (Hmono (Z.to_nat (k - 35)) 35%Z ltac:(lia)) as Hm.
    replace (35 + Z.of_nat (Z.to_nat (k - 35)))%Z with k in Hm by lia.
    eapply Qle_lt_trans; [exact Hm|]. vm_compute. reflexivity.
Qed.

(** A neuron that never decayed is a superhighway from its 36th access. *)
Lemma undecayed_superhighway (n : Neuron) :
  undecayed n -> Qltb 0.5 (myelination n) = (36 <=? access_count n)%Z.
Proof.
  intros (Hc & _ & Hm). unfold myelination_at in Hm.
  pose proof (power_below_half (access_count n - 1) ltac:(lia)) as Hp.
  set (p := (1 - MYELIN_RATE) ^ (access_count n - 1)) in *. clearbody p.
  unfold MYELIN_MAX in Hm.
  destruct (36 <=? access_count n)%Z eqn:E.
  - apply Z.leb_le in E. apply Qltb_true.
    assert (Hlt : p < 0.5) by (apply Hp; lia).
    destruct (MIN_cases (1 - p) 0.95) as [[H1 E1]|[H1 E1]]; rewrite E1 in Hm; lra.
  - apply Z.leb_gt in E. apply Qltb_false.
    assert (Hge : 0.5 <= p).
    { apply Qnot_lt_le. intro Hlt. apply Hp in Hlt. lia. }
    pose proof (MIN_le_l (1 - p) 0.95). lra.
Qed.

Lemma filter_ext_Forall {A : Type} (P : A -> Prop) (f g : A -> bool) (l : list A) :
  Forall P l -> (forall x, P x -> f x = g x) -> filter f l = filter g l.
Proof.
  intros Hl Hfg. induction Hl as [|x l Hx Hl IH]; cbn; [reflexivity|].
  now rewrite (Hfg x Hx), IH.
Qed.

Lemma ids_of_snoc (calls : list (string * NeuronType * option string * Z))
    (c : string * NeuronType * option string * Z) :
  ids_of (calls ++ [c]) =
  if array_includes (ids_of calls) (call_id c) then ids_of calls
  else (ids_of calls ++ [call_id c])%list.
Proof. unfold ids_of. now rewrite fold_left_app. Qed.

Lemma calls_for_snoc (id : string) (calls : list (string * NeuronType * option string * Z))
    (c : string * NeuronType * option string * Z) :
  calls_for id (calls ++ [c]) =
  (calls_for id calls + (if String.eqb (call_id c) id then 1 else 0))%Z.
Proof.
  unfold calls_for, COUNT. rewrite filter_app, length_app. cbn [filter].
  destruct (String.eqb (call_id c) id); cbn [List.length]; lia.
Qed.

Lemma record_ops_snoc (calls : list (string * NeuronType * option string * Z))
    (p : string) (t : NeuronType) (q : option string) (n : Z) :
  record_ops (calls ++ [(p, t, q, n)]) = (record_ops calls ++ [OpRecord p t q n])%list.
Proof. unfold record_ops. now rewrite map_app. Qed.

(** The neurons of a session that only records, told from its calls. *)
Lemma session_neurons (now0 : Z) (calls : list (string * NeuronType * option string * Z)) :
  let e := run (BrainBoxDB_new empty_store now0) (record_ops calls) in
  decodable (store e) /\ window_known e /\
  map n_id (neurons (store e)) = ids_of calls /\
  Forall (fun n => access_count n = calls_for (n_id n) calls) (neurons (store e)) /\
  List.length (access_log (store e)) = List.length calls.
Proof.
  induction calls as [|[[[p t] q] n] calls IH] using rev_ind; cbv zeta.
  - repeat split; constructor.
  - rewrite record_ops_snoc, run_app.
    set (e := run (BrainBoxDB_new empty_store now0) (record_ops calls)) in *.
    cbv zeta in IH. destruct IH as (Hd & Hw & Hids & Hcount & Hlog).
    change (run e [OpRecord p t q n]) with (fst (record e p t q n)).
    destruct (record_window_known e p t q n Hd Hw) as [_ Hw'].
    destruct (record_log e p t q n Hd Hw) as ((r & Hr & _) & _ & _).
    split; [now apply record_decodable|]. split; [assumption|].
    split; [|split].
    + rewrite record_ids, ids_of_snoc. cbv zeta.
      destruct (stored_contexts_returns (store e) (neuron_id t p) Hd) as [ctxs ->].
      rewrite <- Hids. cbn [call_id].
      destruct (known (neurons (store e)) (neuron_id t p)) eqn:Ek.
      * apply known_In in Ek. apply array_includes_iff in Ek. now rewrite Ek.
      * replace (array_includes _ _) with false; [reflexivity|].
        symmetry. apply not_true_iff_false. rewrite array_includes_iff, <- known_In, Ek.
        discriminate.
    + rewrite record_neurons. cbv zeta.
      destruct (stored_contexts_returns (store e) (neuron_id t p) Hd) as [ctxs ->].
      unfold upsertNeuron.
      destruct (getNeuron (store e) (neuron_id t p)) as [old|] eqn:E;
        cbn [neurons set_neurons].
      * apply Forall_forall. intros m Hm. apply in_map_iff in Hm.
        destruct Hm as (m0 & <- & Hm0). rewrite Forall_forall in Hcount.
        specialize (Hcount m0 Hm0). rewrite calls_for_snoc. cbn [call_id].
        unfold has_id. rewrite String.eqb_sym.
        destruct (String.eqb (neuron_id t p) (n_id m0)) eqn:Em.
        -- cbn. rewrite Hcount. rewrite Em. reflexivity.
        -- rewrite Em. lia.
      * apply Forall_app. split.
        -- apply Forall_forall. intros m Hm. rewrite Forall_forall in Hcount.
           rewrite calls_for_snoc, (Hcount m Hm). cbn [call_id].
           replace (String.eqb (neuron_id t p) (n_id m)) with false; [lia|].
           symmetry. apply String.eqb_neq. intros Heq.
           assert (Hk : known (neurons (store e)) (neuron_id t p) = true).
           { apply known_In. rewrite Heq. now apply in_map. }
           rewrite getNeuron_known, E in Hk. discriminate.
        -- constructor; [|constructor]. cbn [access_count n_id].
           rewrite calls_for_snoc. cbn [call_id]. rewrite String.eqb_refl.
           assert (H0 : calls_for (neuron_id t p) calls = 0%Z).
           { unfold calls_for, COUNT. rewrite filter_none; [reflexivity|].
             intros c Hc. apply String.eqb_neq. intro Heq.
             assert (Hin : In (neuron_id t p) (ids_of calls)).
             { rewrite <- Heq. clear - Hc. revert Hc. unfold ids_of.
               assert (G : forall ids, In (call_id c) ids \/ In c calls ->
                             In (call_id c) (fold_left
                               (fun ids c => if array_includes ids (call_id c) then ids
                                             else (ids ++ [call_id c])%list) calls ids)).
               { induction calls as [|d calls IH]; intros ids [H|H]; cbn [fold_left];
                   try assumption; try (destruct H; fail).
                 - apply IH. left. destruct (array_includes ids (call_id d)); [assumption|].
                   apply in_or_app. now left.
                 - apply IH. destruct H as [->|H]; [|now right]. left.
                   destruct (array_includes ids (call_id c)) eqn:Ec.
                   + now apply array_includes_iff.
                   + apply in_or_app. right. now left. }
               intro Hc. apply G. now right. }
             rewrite <- Hids in Hin. apply known_In in Hin.
             rewrite getNeuron_known, E in Hin. discriminate. }
           lia.
    + rewrite Hr, !length_app, Hlog. reflexivity.
Qed.

(** X16.  The statistics of a session that started on an empty database and
    only recorded: as many accesses logged as calls, one neuron for each id
    recorded, and as superhighways (myelination above 0.5) the ids recorded
    36 times or more; the average is [NULL] when nothing was recorded. *)
Theorem stats_after_records (now0 : Z)
    (calls : list (string * NeuronType * option string * Z)) :
  let s := snd (stats (run (BrainBoxDB_new empty_store now0) (record_ops calls))) in
  stat_total_accesses s = COUNT calls /\
  neuron_count s = COUNT (ids_of calls) /\
  superhighways s = COUNT (filter (fun id => (36 <=? calls_for id calls)%Z) (ids_of calls)) /\
  (avg_myelination s = None <-> calls = []).
Proof.
  destruct (session_neurons now0 calls) as (Hd & Hw & Hids & Hcount & Hlog).
  pose proof (records_undecayed now0 calls) as Hun.
  cbv zeta. unfold stats. cbn [snd]. rewrite ensureOpen_store.
  set (e := run (BrainBoxDB_new empty_store now0) (record_ops calls)) in *.
  cbn [stat_total_accesses neuron_count superhighways avg_myelination]. unfold COUNT.
  split; [now rewrite Hlog|]. split; [now rewrite <- Hids, length_map|]. split.
  - f_equal. rewrite <- Hids.
    rewrite (filter_ext_Forall
               (fun n => undecayed n /\ access_count n = calls_for (n_id n) calls)
               (fun n => Qltb 0.5 (myelination n))
               (fun n => (36 <=? calls_for (n_id n) calls)%Z)).
    + clear. induction (neurons (store e)) as [|n l IH]; cbn; [reflexivity|].
      destruct (36 <=? _)%Z; cbn; now rewrite IH.
    + rewrite Forall_forall in *. intros n Hn. split; [now apply Hun | now apply Hcount].
    + intros n [Hu Hc]. rewrite <- Hc. now apply undecayed_superhighway.
  - split.
    + intro H. destruct (neurons (store e)) as [|n l] eqn:En; [|discriminate].
      destruct calls as [|c calls] using rev_ind; [reflexivity|].
      exfalso. clear IHcalls. cbn in Hids. rewrite ids_of_snoc in Hids.
      destruct (array_includes (ids_of calls) (call_id c)) eqn:Ec.
      * rewrite <- Hids in Ec. discriminate.
      * destruct (ids_of calls); discriminate.
    + intros ->. reflexivity.
Qed.

(** ** Symmetry through [decay] *)

Lemma filter_filter {A : Type} (f g : A -> bool) (l : list A) :
  filter f (filter g l) = filter (fun x => g x && f x) l.
Proof.
  induction l as [|x l IH]; cbn; [reflexivity|].
  destruct (g x); cbn; [destruct (f x)|]; now rewrite IH.
Qed.

Lemma find_absent_key (a b : string) (l : list Synapse) :
  ~ In (a, b) (map syn_key l) -> find (has_key a b) l = None.
Proof.
  induction l as [|s l IH]; cbn; intro H; [reflexivity|].
  destruct (has_key a b s) eqn:E.
  - exfalso. apply H. left. unfold has_key in E. apply andb_prop in E.
    destruct E as [E1 E2]. apply String.eqb_eq in E1, E2. unfold syn_key. congruence.
  - apply IH. tauto.
Qed.

(** A row found by its key, after an update that keeps the keys and a
    deletion. *)
Lemma find_filter_map_key (g : Synapse -> Synapse) (keep : Synapse -> bool) (a b : string)
    (l : list Synapse) :
  (forall s, syn_key (g s) = syn_key s) ->
  NoDup (map syn_key l) ->
  find (has_key a b) (filter keep (map g l)) =
  match find (has_key a b) l with
  | Some s => if keep (g s) then Some (g s) else None
  | None => None
  end.
Proof.
  intros Hg. assert (Hk : forall s, has_key a b (g s) = has_key a b s).
  { intro s. specialize (Hg s). unfold syn_key in Hg. injection Hg as H1 H2.
    unfold has_key. now rewrite H1, H2. }
  induction l as [|s l IH]; cbn; intro Hnd; [reflexivity|].
  inversion Hnd as [|? ? Hs Hl]; subst.
  destruct (has_key a b s) eqn:E.
  - destruct (keep (g s)); cbn.
    + now rewrite Hk, E.
    + rewrite IH by assumption. rewrite find_absent_key; [reflexivity|].
      unfold has_key in E. apply andb_prop in E. destruct E as [E1 E2].
      apply String.eqb_eq in E1, E2. unfold syn_key in Hs. now rewrite <- E1, <- E2.
  - destruct (keep (g s)); cbn; [rewrite Hk, E|]; now apply IH.
Qed.

Lemma find_has_key (a b : string) (l : list Synapse) (s : Synapse) :
  find (has_key a b) l = Some s -> source_id s = a /\ target_id s = b.
Proof.
  intro H. apply find_some in H. destruct H as [_ H].
  unfold has_key in H. apply andb_prop in H. destruct H as [E1 E2].
  now apply String.eqb_eq in E1, E2.
Qed.

Lemma decay_symmetric (e : Engine) :
  keys_unique (store e) -> symmetric (store e) -> symmetric (store (fst (decay e))).
Proof.
  intros [_ Hk] Hsym a b. specialize (Hsym a b).
  unfold decay. rewrite ensureOpen_store. cbn -[known].
  set (dn := fun n : Neuron => mkNeuron _ _ _ _ _ _ _ _ _).
  set (ds := fun s : Synapse => mkSynapse _ _ _ _ _ _).
  unfold weight_of in *. cbn -[known].
  set (dead := filter dead_neuron (map dn (neurons (store e)))).
  rewrite filter_filter.
  rewrite !(find_filter_map_key ds) by (assumption || reflexivity).
  destruct (find (has_key a b) (synapses (store e))) as [s|] eqn:Es;
    destruct (find (has_key b a) (synapses (store e))) as [s'|] eqn:Es';
    cbn [option_map] in Hsym; try discriminate; [|reflexivity].
  injection Hsym as Hw.
  destruct (find_has_key _ _ _ _ Es) as [S1 T1].
  destruct (find_has_key _ _ _ _ Es') as [S2 T2].
  unfold weak_synapse. cbn [weight source_id target_id ds].
  rewrite S1, T1, S2, T2, Hw.
  rewrite (orb_comm (known dead b) (known dead a)).
  destruct (negb _ && negb _); cbn; [now rewrite Hw | reflexivity].
Qed.

(** X17.  The symmetry of the synapses holds through [decay] and through
    the calls that throw: from an empty database, after every sequence of
    [record] and [decay] calls, a synapse from [a] to [b] exists exactly when
    one from [b] to [a] does, and the two have the same weight. *)
Theorem synapses_symmetric_through_decay (now0 : Z) (ops : list Op) (a b : string) :
  weight_of (store (run (BrainBoxDB_new empty_store now0) ops)) a b =
  weight_of (store (run (BrainBoxDB_new empty_store now0) ops)) b a.
Proof.
  assert (H : keys_unique (store (run (BrainBoxDB_new empty_store now0) ops)) /\
              symmetric (store (run (BrainBoxDB_new empty_store now0) ops))).
  { apply (run_invariant (fun e => keys_unique (store e) /\ symmetric (store e))).
    - split; [split; constructor | intros x y; reflexivity].
    - intros e o [Hk Hs]. destruct o; cbn [step].
      + split; [now apply record_keys_unique | now apply record_symmetric].
      + split; [now apply decay_keys_unique | now apply decay_symmetric]. }
  apply H.
Qed.

(** ** Two neurons recorded in turn *)

(** The weights of the pairs of a call of [record] that returns. *)
Lemma record_weights (e : Engine) (path : string) (type : NeuronType)
    (query : option string) (now : Z) (k : nat) (r : string) :
  decodable (store e) -> window_known e -> NoDup (recentAccesses e) ->
  nth_error (recentAccesses e) k = Some r -> r <> neuron_id type path ->
  let st' := store (fst (record e path type query now)) in
  let delta := delta_at k (List.length (recentAccesses e)) in
  weight_of st' (neuron_id type path) r
    = Some (strengthened delta (weight_of (store e) (neuron_id type path) r)) /\
  weight_of st' r (neuron_id type path)
    = Some (strengthened delta (weight_of (store e) r (neuron_id type path))).
Proof.
  intros Hd Hw Hnd Hk Hr. cbv zeta.
  destruct (record_window_known e path type query now Hd Hw) as [Hret _].
  destruct (stored_contexts_returns (store e) (neuron_id type path) Hd) as [ctxs Hc].
  destruct (record_synapses e path type query now ctxs Hc)
    as (st1 & st' & b & Hs1 & Hrun & Hs' & Hout & _).
  rewrite Hout in Hret. destruct b; [|discriminate].
  assert (W1 : forall a c, weight_of st1 a c = weight_of (store e) a c)
    by (intros; unfold weight_of; now rewrite Hs1).
  assert (W' : forall a c, weight_of (store (fst (record e path type query now))) a c
                           = weight_of st' a c)
    by (intros; unfold weight_of; now rewrite Hs').
  destruct (strengthen_weights _ now _ _ Hnd st1 st' 0 Hrun k r Hk Hr) as [G1 G2].
  rewrite !W', G1, G2, !W1. split; reflexivity.
Qed.

Lemma record_first_pair (e : Engine) (path : string) (type : NeuronType)
    (query : option string) (now : Z) (l : string) :
  decodable (store e) -> window_known e -> recentAccesses e = [l] ->
  weight_of (store e) (neuron_id type path) l = None ->
  weight_of (store e) l (neuron_id type path) = None ->
  l <> neuron_id type path ->
  exists w, joined (fst (record e path type query now)) l (neuron_id type path) w /\
            w == LEARNING_RATE.
Proof.
  intros Hd Hw Hwin N1 N2 Hl.
  assert (Hnd : NoDup (recentAccesses e)) by (rewrite Hwin; repeat constructor; cbn; tauto).
  assert (Hk : nth_error (recentAccesses e) 0 = Some l) by now rewrite Hwin.
  destruct (record_weights e path type query now 0 l Hd Hw Hnd Hk Hl) as [G1 G2].
  destruct (record_window_known e path type query now Hd Hw) as [_ Hw'].
  destruct (record_log e path type query now Hd Hw) as (_ & _ & Hwin').
  rewrite N1 in G1. rewrite N2 in G2. rewrite Hwin in G1, G2. cbn [strengthened] in G1, G2.
  exists (delta_at 0 1). split.
  - split; [now apply record_decodable|]. split; [assumption|]. split; [|split; assumption].
    rewrite Hwin', Hwin. unfold track. cbn [remove_first].
    apply String.eqb_neq in Hl. now rewrite Hl.
  - vm_compute. reflexivity.
Qed.

Lemma record_next_pair (e : Engine) (path : string) (type : NeuronType)
    (query : option string) (now : Z) (l : string) (w p : Q) :
  joined e (neuron_id type path) l w -> l <> neuron_id type path ->
  w == 1 - p -> 0 <= p ->
  exists w', joined (fst (record e path type query now)) l (neuron_id type path) w' /\
             w' == 1 - p * (1 - LEARNING_RATE).
Proof.
  intros (Hd & Hw & Hwin & W1 & W2) Hl Hwp Hp.
  assert (Hnd : NoDup (recentAccesses e)).
  { rewrite Hwin. constructor; [|repeat constructor; cbn; tauto].
    intros [H|[]]. now apply Hl. }
  assert (Hk : nth_error (recentAccesses e) 1 = Some l) by now rewrite Hwin.
  destruct (record_weights e path type query now 1 l Hd Hw Hnd Hk Hl) as [G1 G2].
  destruct (record_window_known e path type query now Hd Hw) as [_ Hw'].
  destruct (record_log e path type query now Hd Hw) as (_ & _ & Hwin').
  rewrite W1 in G1. rewrite W2 in G2. rewrite Hwin in G1, G2. cbn [strengthened] in G1, G2.
  eexists. split.
  - split; [now apply record_decodable|]. split; [assumption|].
    split; [|split; [exact G2 | exact G1]].
    rewrite Hwin', Hwin. unfold track. cbn [remove_first]. now rewrite String.eqb_refl.
  - assert (Hdelta : delta_at 1 (List.length [neuron_id type path; l]) == LEARNING_RATE)
      by (vm_compute; reflexivity).
    set (d := delta_at 1 _) in *. clearbody d. unfold LEARNING_RATE in *.
    destruct (MIN_cases (w + d * (1 - w)) 1) as [[H1 E1]|[H1 E1]]; rewrite E1.
    + rewrite Hdelta, Hwp. ring.
    + exfalso. rewrite Hdelta, Hwp in H1.
      assert (0 <= p * (1 - 0.1)) by (apply Qmult_le_0_compat; [assumption | lra]).
      lra.
Qed.

Lemma power_nonneg (c : Q) (k : nat) : 0 <= c -> 0 <= c ^ Z.of_nat k.
Proof. intro H. now apply Qpower_pos. Qed.

Lemma in_turn_joined (calls : list (string * NeuronType * option string * Z)) :
  forall (e : Engine) (o l : string) (w : Q) (j : nat),
    o <> l -> joined e o l w -> w == 1 - (1 - LEARNING_RATE) ^ Z.of_nat (S j) ->
    in_turn o l calls ->
    exists o' l' w',
      ((o' = o /\ l' = l) \/ (o' = l /\ l' = o)) /\
      joined (run e (record_ops calls)) o' l' w' /\
      w' == 1 - (1 - LEARNING_RATE) ^ Z.of_nat (S j + List.length calls).
Proof.
  induction calls as [|[[[p t] q] n] calls IH]; intros e o l w j Hol He Hw Hturn.
  - exists o, l, w. split; [now left|]. split; [assumption|].
    cbn [List.length]. now rewrite Nat.add_0_r.
  - cbn [in_turn call_id] in Hturn. destruct Hturn as [Hid Hturn]. subst o.
    destruct (record_next_pair e p t q n l w _ He (not_eq_sym Hol) Hw)
      as (w1 & J1 & Hw1); [now apply power_nonneg; vm_compute; discriminate|].
    assert (Hne : ~ 1 - LEARNING_RATE == 0) by (intro H; vm_compute in H; discriminate).
    destruct (IH (fst (record e p t q n)) l (neuron_id t p) w1 (S j)) as (o' & l' & w' & Hc & J & Hw').
    + now apply not_eq_sym.
    + exact J1.
    + rewrite Hw1. replace (Z.of_nat (S (S j))) with (Z.of_nat (S j) + 1)%Z by lia.
      rewrite Qpower_succ by (assumption || lia). reflexivity.
    + exact Hturn.
    + exists o', l', w'. split; [tauto|]. split; [exact J|].
      rewrite Hw'. cbn [List.length].
      replace (S j + S (List.length calls))%nat with (S (S j) + List.length calls)%nat by lia.
      reflexivity.
Qed.

(** X18.  Two neurons recorded in turn on an empty database, [k + 2] calls
    in all: their synapses, one each way, have the weight
    [1 - (1 - LEARNING_RATE)^(k + 1)]. *)
Theorem in_turn_weight (now0 : Z) (calls : list (string * NeuronType * option string * Z))
    (x y : string) (k : nat) :
  x <> y -> in_turn x y calls -> List.length calls = S (S k) ->
  let st := store (run (BrainBoxDB_new empty_store now0) (record_ops calls)) in
  exists w, weight_of st x y = Some w /\ weight_of st y x = Some w /\
            w == 1 - (1 - LEARNING_RATE) ^ Z.of_nat (S k).
Proof.
  intros Hxy Hturn Hlen st. subst st.
  destruct calls as [|[[[p1 t1] q1] n1] [|[[[p2 t2] q2] n2] calls]]; try discriminate.
  cbn [in_turn call_id] in Hturn. destruct Hturn as (Hx & Hy & Hturn). subst x y.
  cbn [List.length] in Hlen.
  set (e0 := BrainBoxDB_new empty_store now0).
  set (e1 := fst (record e0 p1 t1 q1 n1)).
  assert (H0 : decodable (store e0) /\ window_known e0) by (split; constructor).
  destruct H0 as [D0 K0].
  destruct (record_window_known e0 p1 t1 q1 n1 D0 K0) as [_ K1].
  pose proof (record_decodable e0 p1 t1 q1 n1 D0) as D1.
  destruct (record_log e0 p1 t1 q1 n1 D0 K0) as (_ & _ & W1).
  fold e1 in K1, D1, W1.
  assert (S1 : synapses (store e1) = []).
  { destruct (stored_contexts_returns (store e0) (neuron_id t1 p1) D0) as [ctxs Hc].
    destruct (record_synapses e0 p1 t1 q1 n1 ctxs Hc)
      as (st1 & st' & b & Hs1 & Hrun & Hs' & _).
    fold e1 in Hs'. rewrite Hs'. cbn in Hrun. injection Hrun as <- _. exact Hs1. }
  destruct (record_first_pair e1 p2 t2 q2 n2 (neuron_id t1 p1) D1 K1)
    as (w & J & Hw); try assumption;
    try (unfold weight_of; rewrite S1; reflexivity).
  change (run e0 (record_ops ((p1, t1, q1, n1) :: (p2, t2, q2, n2) :: calls)))
    with (run (fst (record e1 p2 t2 q2 n2)) (record_ops calls)).
  destruct (in_turn_joined calls (fst (record e1 p2 t2 q2 n2))
              (neuron_id t1 p1) (neuron_id t2 p2) w 0 Hxy J)
    as (o' & l' & w' & Hc & (_ & _ & _ & G1 & G2) & Hw'); [| exact Hturn |].
  - rewrite Hw. vm_compute. reflexivity.
  - exists w'. replace (S k) with (1 + List.length calls)%nat by lia.
    destruct Hc as [[-> ->]|[-> ->]]; (split; [assumption|]); split; assumption.
Qed.

Lemma in_turn_weight_witness :
  exists w,
    weight_of (store (run (BrainBoxDB_new empty_store 0)
                          (record_ops [("/x", file, None, 1%Z); ("/y", file, None, 2%Z);
                                       ("/x", file, None, 3%Z); ("/y", file, None, 4%Z)])))
              "file:/x" "file:/y" = Some w /\
    w == 1 - (1 - LEARNING_RATE) ^ 3.
Proof.
  assert (H1 : "file:/x" <> "file:/y") by discriminate.
  assert (H2 : in_turn "file:/x" "file:/y"
                 [("/x", file, @None string, 1%Z); ("/y", file, None, 2%Z);
                  ("/x", file, None, 3%Z); ("/y", file, None, 4%Z)])
    by (cbn; auto).
  destruct (in_turn_weight 0 _ "file:/x" "file:/y" 2 H1 H2 eq_refl) as (w & G1 & _ & G3).
  exists w. split; assumption.
Defined.

(** ** What [recall] reads of its query *)

Lemma foldM_ext {A B : Type} (f g : B -> A -> outcome B) (l : list A) :
  (forall b x, f b x = g b x) -> forall b, foldM f l b = foldM g l b.
Proof.
  intro H. induction l as [|x l IH]; intro b; cbn; [reflexivity|].
  rewrite H. destruct (g b x); [apply IH | reflexivity].
Qed.

Lemma computeConfidence_keywords (n : Neuron) (q1 q2 : string) (now : Z) :
  keywords_of q1 = keywords_of q2 ->
  computeConfidence n q1 now = computeConfidence n q2 now.
Proof. intro H. unfold computeConfidence. now rewrite H. Qed.

Lemma lower_char_twice (c : ascii) : lower_char (lower_char c) = lower_char c.
Proof. destruct c as [[] [] [] [] [] [] [] []]; reflexivity. Qed.

Lemma toLowerCase_twice (s : string) : toLowerCase (toLowerCase s) = toLowerCase s.
Proof.
  induction s as [|c s IH]; cbn; [reflexivity|]. now rewrite lower_char_twice, IH.
Qed.

(** X19.  [recall] reads its query through its keywords only: two queries
    with the same keywords (the words of more than two characters of the
    query in lower case) give the same results on every engine, and so do a
    query and the query in lower case. *)
Theorem recall_reads_keywords (e : Engine) (q1 q2 : string) (type : NeuronType)
    (limit now : Z) :
  keywords_of q1 = keywords_of q2 ->
  recall e q1 type limit now = recall e q2 type limit now /\
  recall e (toLowerCase q1) type limit now = recall e q1 type limit now.
Proof.
  assert (G : forall a b, keywords_of a = keywords_of b ->
                          recall e a type limit now = recall e b type limit now).
  { intros a b H. unfold recall, recall_results. rewrite H.
    destruct (directMatches _ _) as [candidates|]; [|reflexivity].
    rewrite (foldM_ext (direct_step type a now) (direct_step type b now)); [reflexivity|].
    intros [results activated] n. unfold direct_step.
    now rewrite (computeConfidence_keywords n a b now H). }
  intro H. split; [now apply G|].
  apply G. unfold keywords_of. now rewrite toLowerCase_twice.
Qed.

Lemma recall_reads_keywords_witness :
  recall pair_xy "Grep  FOO" file 5 3 = recall pair_xy "grep foo" file 5 3.
Proof.
  assert (H : keywords_of "Grep  FOO" = keywords_of "grep foo") by reflexivity.
  exact (proj1 (recall_reads_keywords pair_xy "Grep  FOO" "grep foo" file 5 3 H)).
Defined.

(** ** Confidence and the clock *)

Lemma MIN_monotone (a b c : Q) : a <= b -> MIN a c <= MIN b c.
Proof.
  intro H. apply MIN_ge.
  - eapply Qle_trans; [apply MIN_le_l | exact H].
  - apply MIN_le_r.
Qed.

Lemma MAX_monotone (a b c : Q) : a <= b -> MAX c a <= MAX c b.
Proof.
  intro H. unfold MAX.
  destruct (Qle_bool c a) eqn:E1; destruct (Qle_bool c b) eqn:E2.
  - assumption.
  - exfalso. apply Qle_bool_iff in E1.
    assert (Hcb : c <= b) by (eapply Qle_trans; eauto).
    apply Qle_bool_iff in Hcb. congruence.
  - now apply Qle_bool_iff.
  - apply Qle_refl.
Qed.

Lemma recency_fades (t now1 now2 : Z) :
  (now1 <= now2)%Z ->
  MAX 0 (1 - inject_Z (now2 - t) / (168 * 3600000)) <=
  MAX 0 (1 - inject_Z (now1 - t) / (168 * 3600000)).
Proof.
  intro H. apply MAX_monotone.
  assert (Hle : inject_Z (now1 - t) <= inject_Z (now2 - t)) by (rewrite <- Zle_Qle; lia).
  assert (Hdiv : inject_Z (now1 - t) / (168 * 3600000) <=
                 inject_Z (now2 - t) / (168 * 3600000)).
  { unfold Qdiv. apply Qmult_le_compat_r; [assumption|]. vm_compute. discriminate. }
  lra.
Qed.

Lemma MAX_cases (a b : Q) : (a <= b /\ MAX a b = b) \/ (b < a /\ MAX a b = a).
Proof.
  unfold MAX. destruct (Qle_bool a b) eqn:E.
  - left. split; [now apply Qle_bool_iff | reflexivity].
  - right. split; [|reflexivity].
    apply Qnot_le_lt. rewrite <- Qle_bool_iff, E. discriminate.
Qed.

Lemma recency_spent (t now : Z) :
  (t + 168 * 3600000 <= now)%Z ->
  MAX 0 (1 - inject_Z (now - t) / (168 * 3600000)) == 0.
Proof.
  intro Hn.
  assert (Hd : 1 <= inject_Z (now - t) / (168 * 3600000)).
  { apply Qle_shift_div_l; [vm_compute; reflexivity|].
    change (1 * (168 * 3600000)) with (inject_Z 1 * inject_Z (168 * 3600000)).
    rewrite <- inject_Z_mult, <- Zle_Qle. lia. }
  destruct (MAX_cases 0 (1 - inject_Z (now - t) / (168 * 3600000))) as [[H E]|[H E]];
    rewrite E; lra.
Qed.

(** X20.  The confidence of a neuron does not rise while the clock runs
    and the neuron is not accessed; it is at most 1, and not negative when
    the myelination is not.  Once 168 hours have passed since the last
    access, the clock no longer counts. *)
Theorem confidence_fades (n : Neuron) (query : string) (now1 now2 : Z) (c1 : Q) :
  (now1 <= now2)%Z ->
  computeConfidence n query now1 = Returns c1 ->
  exists c2,
    computeConfidence n query now2 = Returns c2 /\ c2 <= c1 /\ c1 <= 1 /\
    (0 <= myelination n -> 0 <= c2) /\
    (forall t, last_accessed n = Some t -> (t + 168 * 3600000 <= now1)%Z -> c2 == c1).
Proof.
  intros Hnow. unfold computeConfidence.
  destruct (JSON_parse (contexts n)) as [ctxs|]; [|discriminate].
  intros [= <-]. eexists. split; [reflexivity|].
  pose proof (match_share_nonneg (keywords_of query) (toLowerCase (join " " ctxs))) as Hs.
  pose proof (match_share_nonneg (keywords_of query) (toLowerCase (n_path n))) as Hp.
  set (s := match_share _ (toLowerCase (join " " ctxs))) in *. clearbody s.
  set (p := match_share _ (toLowerCase (n_path n))) in *. clearbody p.
  destruct (last_accessed n) as [t|].
  - pose proof (recency_fades t now1 now2 Hnow) as Hr.
    pose proof (MAX_ge_l 0 (1 - inject_Z (now2 - t) / (168 * 3600000))) as H0.
    assert (Hspent : (t + 168 * 3600000 <= now1)%Z ->
              MAX 0 (1 - inject_Z (now2 - t) / (168 * 3600000)) == 0 /\
              MAX 0 (1 - inject_Z (now1 - t) / (168 * 3600000)) == 0).
    { intro Hold. split; apply recency_spent; lia. }
    set (r2 := MAX 0 (1 - inject_Z (now2 - t) / (168 * 3600000))) in *.
    set (r1 := MAX 0 (1 - inject_Z (now1 - t) / (168 * 3600000))) in *.
    clearbody r1 r2.
    split; [apply MIN_monotone; lra|]. split; [apply MIN_le_r|]. split.
    + intro Hm. apply MIN_ge; lra.
    + intros t' [= <-] Hold. destruct (Hspent Hold) as [E2 E1].
      destruct (MIN_cases (0 + s * 0.4 + myelination n * 0.3 + r2 * 0.2 + p * 0.1) 1)
        as [[A1 B1]|[A1 B1]]; rewrite B1;
        destruct (MIN_cases (0 + s * 0.4 + myelination n * 0.3 + r1 * 0.2 + p * 0.1) 1)
          as [[A2 B2]|[A2 B2]]; rewrite B2; lra.
  - split; [apply Qle_refl|]. split; [apply MIN_le_r|]. split.
    + intro Hm. apply MIN_ge; lra.
    + intros t [=].
Qed.

Lemma confidence_fades_witness :
  exists c1 c2,
    computeConfidence (new_row file "/x" (Some "grep foo") 1) "foo" 2 = Returns c1 /\
    computeConfidence (new_row file "/x" (Some "grep foo") 1) "foo" 1000000 = Returns c2 /\
    c2 <= c1.
Proof.
  assert (H1 : (2 <= 1000000)%Z) by lia.
  assert (H2 : exists c1, computeConfidence (new_row file "/x" (Some "grep foo") 1) "foo" 2
                          = Returns c1) by (vm_compute; eauto).
  destruct H2 as [c1 H2].
  destruct (confidence_fades _ "foo" 2 1000000 c1 H1 H2) as (c2 & G1 & G2 & _).
  exists c1, c2. repeat split; assumption.
Defined.

(** ** Neurons that [decay] forgets *)

Lemma find_absent_id (id : string) (l : list Neuron) :
  ~ In id (map n_id l) -> find (has_id id) l = None.
Proof.
  induction l as [|x l IH]; cbn; intro H; [reflexivity|].
  destruct (has_id id x) eqn:E.
  - exfalso. apply H. left. now apply String.eqb_eq.
  - apply IH. tauto.
Qed.

Lemma find_filter_map_id (g : Neuron -> Neuron) (keep : Neuron -> bool) (id : string)
    (l : list Neuron) :
  (forall x, n_id (g x) = n_id x) ->
  NoDup (map n_id l) ->
  find (has_id id) (filter keep (map g l)) =
  match find (has_id id) l with
  | Some n => if keep (g n) then Some (g n) else None
  | None => None
  end.
Proof.
  intros Hg. induction l as [|x l IH]; cbn; intro Hnd; [reflexivity|].
  inversion Hnd as [|? ? Hx Hl]; subst.
  destruct (has_id id x) eqn:E.
  - destruct (keep (g x)); cbn.
    + unfold has_id in *. now rewrite Hg, E.
    + rewrite IH by assumption. rewrite find_absent_id; [reflexivity|].
      apply String.eqb_eq in E. now rewrite <- E.
  - destruct (keep (g x)); cbn; [unfold has_id in *; rewrite Hg, E|]; now apply IH.
Qed.

(** [getNeuron] after [decay], on a table with no id twice. *)
Lemma decay_getNeuron (e : Engine) (id : string) :
  NoDup (map n_id (neurons (store e))) ->
  getNeuron (store (fst (decay e))) id =
  match getNeuron (store e) id with
  | Some n => if dead_neuron (faded n) then None else Some (faded n)
  | None => None
  end.
Proof.
  intro Hnd. unfold decay. rewrite ensureOpen_store. cbn -[known].
  unfold getNeuron. cbn [neurons].
  rewrite (find_filter_map_id faded) by (reflexivity || assumption).
  destruct (find (has_id id) (neurons (store e))) as [n|]; [|reflexivity].
  now destruct (dead_neuron (faded n)).
Qed.

Lemma decay_times_keys_unique (k : nat) (e : Engine) :
  keys_unique (store e) -> keys_unique (store (decay_times k e)).
Proof.
  revert e. induction k as [|k IH]; intros e H; cbn [decay_times]; [assumption|].
  apply IH. now apply decay_keys_unique.
Qed.

Lemma decay_times_gone (k : nat) (e : Engine) (id : string) :
  keys_unique (store e) -> getNeuron (store e) id = None ->
  getNeuron (store (decay_times k e)) id = None.
Proof.
  revert e. induction k as [|k IH]; intros e Hk H; cbn [decay_times]; [assumption|].
  apply IH; [now apply decay_keys_unique|].
  rewrite decay_getNeuron by apply Hk. now rewrite H.
Qed.

Lemma decay_times_fading (k : nat) :
  forall (e : Engine) (id : string) (n : Neuron) (A : Q),
    keys_unique (store e) -> getNeuron (store e) id = Some n ->
    (access_count n < 2)%Z -> activation n <= A -> myelination n < 0.01 ->
    getNeuron (store (decay_times k e)) id = None \/
    exists n', getNeuron (store (decay_times k e)) id = Some n' /\
               (access_count n' < 2)%Z /\
               activation n' <= A * (1 - ACTIVATION_DECAY_RATE) ^ Z.of_nat k /\
               myelination n' < 0.01 /\
               (k <> O -> dead_neuron n' = false).
Proof.
  assert (Hne : ~ 1 - ACTIVATION_DECAY_RATE == 0) by (intro H; vm_compute in H; discriminate).
  induction k as [|k IH]; intros e id n A Hk Hg Hc Ha Hm.
  - right. exists n. cbn [decay_times]. split; [assumption|]. split; [assumption|].
    split; [cbn; lra|]. split; [assumption | congruence].
  - destruct (IH e id n A Hk Hg Hc Ha Hm) as [Hnone|(n' & Hg' & Hc' & Ha' & Hm' & _)].
    + left. replace (S k) with (k + 1)%nat by lia. rewrite decay_times_add.
      cbn [decay_times]. rewrite decay_getNeuron, Hnone; [reflexivity|].
      apply decay_times_keys_unique; assumption.
    + replace (S k) with (k + 1)%nat by lia. rewrite decay_times_add. cbn [decay_times].
      rewrite decay_getNeuron, Hg' by (apply decay_times_keys_unique; assumption).
      destruct (dead_neuron (faded n')) eqn:Ed; [now left|].
      right. exists (faded n'). split; [reflexivity|]. cbn [faded access_count activation
        myelination]. split; [assumption|]. split; [|split; [|intros _; exact Ed]].
      * replace (Z.of_nat (k + 1)) with (Z.of_nat k + 1)%Z by lia.
        rewrite Qpower_succ by (assumption || lia).
        unfold ACTIVATION_DECAY_RATE in *.
        set (p := (1 - 0.15) ^ Z.of_nat k) in *. clearbody p.
        rewrite Qmult_assoc.
        apply Qmult_le_compat_r; [assumption | lra].
      * unfold MYELIN_DECAY_RATE. lra.
Qed.

(** X21.  [decay] forgets the neurons that were accessed once: a neuron with
    an access count below 2, an activation of at most 1 and a myelination
    below 0.01 is gone after 29 calls of [decay], and after any number
    above. *)
Theorem decay_forgets_unused (e : Engine) (id : string) (n : Neuron) (k : nat) :
  keys_unique (store e) ->
  getNeuron (store e) id = Some n ->
  (access_count n < 2)%Z -> activation n <= 1 -> myelination n < 0.01 ->
  (29 <= k)%nat ->
  getNeuron (store (decay_times k e)) id = None.
Proof.
  intros Hk Hg Hc Ha Hm Hlate.
  replace k with (29 + (k - 29))%nat by lia. rewrite decay_times_add.
  apply decay_times_gone; [now apply decay_times_keys_unique|].
  destruct (decay_times_fading 29 e id n 1 Hk Hg Hc Ha Hm)
    as [Hnone|(n' & Hg' & Hc' & Ha' & Hm' & Hd)]; [assumption|].
  exfalso. specialize (Hd ltac:(discriminate)).
  assert (Hp : prunable n').
  { split; [|split; assumption].
    eapply Qle_lt_trans; [exact Ha'|]. vm_compute. reflexivity. }
  apply dead_neuron_prunable in Hp. congruence.
Qed.

Lemma decay_forgets_unused_witness :
  getNeuron (store (once_x_after 0)) "file:/x" <> None /\
  getNeuron (store (once_x_after 40)) "file:/x" = None.
Proof.
  split; [vm_compute; discriminate|].
  assert (H1 : keys_unique (store (once_x_after 0)))
    by (split; vm_compute; repeat constructor; intros []).
  assert (H2 : exists n, getNeuron (store (once_x_after 0)) "file:/x" = Some n)
    by (vm_compute; eauto).
  destruct H2 as [n H2].
  assert (H3 : (access_count n < 2)%Z /\ activation n <= 1 /\ myelination n < 0.01).
  { vm_compute in H2. injection H2 as <-. repeat split; vm_compute; congruence. }
  destruct H3 as (H3 & H4 & H5).
  assert (H6 : (29 <= 40)%nat) by lia.
  exact (decay_forgets_unused (once_x_after 0) "file:/x" n 40 H1 H2 H3 H4 H5 H6).
Defined.

(** ** The prompt sanitizer *)

Lemma squeeze_tidy (s : string) :
  forall b, tidy_from b (squeeze_from (blank_controls s) b) = true.
Proof.
  induction s as [|c s IH]; intro b; cbn [blank_controls squeeze_from]; [reflexivity|].
  destruct (is_control c) eqn:Ec.
  - change (is_space blank) with true. cbv iota.
    destruct b; [apply IH|]. cbn [tidy_from]. change (is_control blank) with false.
    change (is_space blank) with true. cbn. apply IH.
  - destruct (is_space c) eqn:Es.
    + destruct b; [apply IH|]. cbn [tidy_from]. change (is_control blank) with false.
      change (is_space blank) with true. cbn. apply IH.
    + cbn [tidy_from]. rewrite Ec, Es. cbn. apply IH.
Qed.

Lemma tidy_weaken (b : bool) (s : string) : tidy_from true s = true -> tidy_from b s = true.
Proof.
  destruct s as [|c r]; cbn [tidy_from]; [trivial|].
  destruct (is_space c); [|trivial].
  rewrite !andb_true_iff. cbn. intros (_ & (_ & H) & _). discriminate.
Qed.

Lemma trimStart_tidy (s : string) :
  forall b, tidy_from b s = true -> tidy_from true (trimStart s) = true.
Proof.
  induction s as [|c r IH]; intros b H; cbn [trimStart]; [reflexivity|].
  destruct (is_space c) eqn:Es.
  - cbn [tidy_from] in H. rewrite Es in H. rewrite !andb_true_iff in H.
    destruct H as (_ & _ & H). now apply (IH true).
  - cbn [tidy_from] in *. now rewrite Es in *.
Qed.

Lemma trimEnd_tidy (s : string) :
  forall b, tidy_from b s = true -> tidy_from b (trimEnd s) = true.
Proof.
  induction s as [|c r IH]; intros b H; cbn [trimEnd]; [reflexivity|].
  cbn [tidy_from] in H. apply andb_true_iff in H. destruct H as [Hc H].
  destruct (is_space c) eqn:Es.
  - rewrite !andb_true_iff in H. destruct H as ((He & Hb) & Hr).
    specialize (IH true Hr). destruct (trimEnd r) as [|d t]; [reflexivity|].
    cbn [tidy_from] in *. now rewrite Hc, Es, He, Hb, IH.
  - specialize (IH false H). destruct (trimEnd r) as [|d t].
    + cbn [tidy_from]. now rewrite Hc, Es.
    + cbn [tidy_from] in *. now rewrite Hc, Es, IH.
Qed.

Lemma slice_head_tidy (k : nat) :
  forall s b, tidy_from b s = true -> tidy_from b (slice_head k s) = true.
Proof.
  induction k as [|k IH]; intros [|c r] b H; cbn [slice_head]; try reflexivity.
  cbn [tidy_from] in *. apply andb_true_iff in H. destruct H as [Hc H]. rewrite Hc.
  destruct (is_space c).
  - rewrite !andb_true_iff in H. destruct H as ((He & Hb) & Hr).
    now rewrite He, Hb, (IH r true Hr).
  - now rewrite (IH r false H).
Qed.

Lemma slice_head_length (k : nat) (s : string) : (String.length (slice_head k s) <= k)%nat.
Proof.
  revert s. induction k as [|k IH]; intros [|c r]; cbn; try lia.
  specialize (IH r). lia.
Qed.

Lemma slice_head_uncut (k : nat) (s : string) :
  (String.length (slice_head k s) < k)%nat -> slice_head k s = s.
Proof.
  revert s. induction k as [|k IH]; intros [|c r]; cbn; try lia; try reflexivity.
  intro H. f_equal. apply IH. lia.
Qed.

Lemma slice_head_short (k : nat) (s : string) :
  (String.length s <= k)%nat -> slice_head k s = s.
Proof.
  revert s. induction k as [|k IH]; intros [|c r]; cbn; try lia; try reflexivity.
  intro H. f_equal. apply IH. lia.
Qed.

Lemma blank_controls_tidy (s : string) :
  forall b, tidy_from b s = true -> blank_controls s = s.
Proof.
  induction s as [|c r IH]; intros b H; cbn [blank_controls]; [reflexivity|].
  cbn [tidy_from] in H. apply andb_true_iff in H. destruct H as [Hc H].
  apply negb_true_iff in Hc. rewrite Hc. f_equal.
  destruct (is_space c); [|now apply (IH false)].
  rewrite !andb_true_iff in H. now apply (IH true).
Qed.

Lemma squeeze_from_tidy (s : string) :
  forall b, tidy_from b s = true -> squeeze_from s b = s.
Proof.
  induction s as [|c r IH]; intros b H; cbn [squeeze_from]; [reflexivity|].
  cbn [tidy_from] in H. apply andb_true_iff in H. destruct H as [Hc H].
  destruct (is_space c) eqn:Es.
  - rewrite !andb_true_iff in H. destruct H as ((He & Hb) & Hr).
    apply negb_true_iff in Hb. subst b. apply Ascii.eqb_eq in He. subst c.
    f_equal. now apply IH.
  - f_equal. now apply IH.
Qed.

Lemma trimStart_tidy_fixed (s : string) : tidy_from true s = true -> trimStart s = s.
Proof.
  destruct s as [|c r]; cbn [trimStart tidy_from]; [trivial|].
  destruct (is_space c); [|trivial].
  rewrite !andb_true_iff. cbn. intros (_ & (_ & H) & _). discriminate.
Qed.

Lemma trimEnd_twice (s : string) : trimEnd (trimEnd s) = trimEnd s.
Proof.
  induction s as [|c r IH]; cbn [trimEnd]; [reflexivity|].
  destruct (trimEnd r) as [|d t] eqn:E.
  - destruct (is_space c) eqn:Es; [reflexivity|]. cbn [trimEnd]. now rewrite Es.
  - cbn [trimEnd] in *. now rewrite IH.
Qed.

(** What [tidy_from] says of the characters. *)
Lemma tidy_from_get (s : string) :
  forall b, tidy_from b s = true ->
    (b = true -> String.get 0 s <> Some blank) /\
    forall i c, String.get i s = Some c ->
      is_control c = false /\ (is_space c = true -> c = blank) /\
      (c = blank -> String.get (S i) s <> Some blank).
Proof.
  induction s as [|c r IH]; intros b H.
  - split; [discriminate|]. intros i c Hc. destruct i; discriminate.
  - cbn [tidy_from] in H. apply andb_true_iff in H. destruct H as [Hc H].
    apply negb_true_iff in Hc.
    destruct (is_space c) eqn:Es.
    + rewrite !andb_true_iff in H. destruct H as ((He & Hb) & Hr).
      apply Ascii.eqb_eq in He. apply negb_true_iff in Hb. subst c b.
      destruct (IH true Hr) as [I0 I].
      split; [discriminate|]. intros [|i] d Hd; cbn [String.get] in Hd.
      * injection Hd as <-. split; [reflexivity|]. split; [trivial|].
        intros _. cbn [String.get]. now apply I0.
      * destruct (I i d Hd) as (A & B & C). split; [assumption|]. split; assumption.
    + destruct (IH false H) as [_ I].
      split.
      * intros _. cbn [String.get]. intros [= ->]. discriminate.
      * intros [|i] d Hd; cbn [String.get] in Hd.
        -- injection Hd as <-. split; [assumption|]. split; [congruence|].
           intros ->. discriminate.
        -- destruct (I i d Hd) as (A & B & C). split; [assumption|]. split; assumption.
Qed.

(** X22.  What [sanitizePrompt] returns has at most 500 characters, none of
    them a control character, no white space but the blank, no two blanks
    in a row and no blank first.  When it is shorter than 500 characters
    (nothing was cut), sanitizing it again changes nothing. *)
Theorem sanitizePrompt_tidy (str : string) :
  let s := sanitizePrompt str in
  (String.length s <= 500)%nat /\
  String.get 0 s <> Some blank /\
  (forall i c, String.get i s = Some c ->
     is_control c = false /\ (is_space c = true -> c = blank) /\
     (c = blank -> String.get (S i) s <> Some blank)) /\
  ((String.length s < 500)%nat -> sanitizePrompt s = s).
Proof.
  cbv zeta.
  set (r := trim (squeeze_from (blank_controls str) false)).
  assert (Hr : tidy_from true r = true).
  { unfold r, trim. apply trimEnd_tidy. apply (trimStart_tidy _ false), squeeze_tidy. }
  assert (Hs : tidy_from true (sanitizePrompt str) = true)
    by (unfold sanitizePrompt; fold r; now apply slice_head_tidy).
  destruct (tidy_from_get _ true Hs) as [G0 G].
  split; [apply slice_head_length|]. split; [now apply G0|]. split; [exact G|].
  intro Hlen.
  assert (E : sanitizePrompt str = r) by (apply slice_head_uncut; exact Hlen).
  rewrite E in *. unfold sanitizePrompt.
  rewrite (blank_controls_tidy r true Hr).
  rewrite (squeeze_from_tidy r false (tidy_weaken false r Hr)).
  unfold trim. rewrite (trimStart_tidy_fixed r Hr).
  assert (Hend : trimEnd r = r) by (unfold r, trim; apply trimEnd_twice).
  rewrite Hend. apply slice_head_short. lia.
Qed.

(** ** The counters of the session *)

Lemma upsertSynapse_sessions (st st' : Store) (a b : string) (w delta : Q) (now : Z) :
  upsertSynapse st a b w delta now = Some st' -> sessions st' = sessions st.
Proof.
  unfold upsertSynapse.
  destruct (existsb _ _); [now intros [= <-]|].
  destruct (getNeuron st a); [|discriminate].
  destruct (getNeuron st b); [|discriminate].
  now intros [= <-].
Qed.

Lemma strengthen_sessions (id : string) (now : Z) (len : nat) (window : list string) :
  forall (st : Store) (i : nat),
    sessions (fst (strengthen st id window i len now)) = sessions st.
Proof.
  induction window as [|r window IH]; intros st i; cbn [strengthen]; [reflexivity|].
  destruct (String.eqb r id); [apply IH|].
  destruct (upsertSynapse st id r _ _ now) as [st1|] eqn:E1; [|reflexivity].
  apply upsertSynapse_sessions in E1.
  destruct (upsertSynapse st1 r id _ _ now) as [st2|] eqn:E2; [|assumption].
  apply upsertSynapse_sessions in E2.
  rewrite IH. congruence.
Qed.

(** The session row after a call of [record] that returns. *)
Lemma record_session (e : Engine) (path : string) (type : NeuronType)
    (query : option string) (now : Z) :
  decodable (store e) -> window_known e ->
  sessions (store (fst (record e path type query now)))
  = sessions (updateSession (store e) (sessionId e) (cost_of type)) /\
  sessionId (fst (record e path type query now)) = sessionId e.
Proof.
  intros Hd Hw. unfold record.
  assert (Hwe : recentAccesses (ensureOpen e) = recentAccesses e)
    by (unfold ensureOpen; now destruct (db_open e)).
  assert (Hid : sessionId (ensureOpen e) = sessionId e /\
                accessOrder (ensureOpen e) = accessOrder e)
    by (unfold ensureOpen; destruct (db_open e); split; reflexivity).
  destruct Hid as [Hsid Hord].
  rewrite !ensureOpen_store, !Hwe, Hsid, Hord.
  destruct (stored_contexts_returns (store e) (neuron_id type path) Hd) as [ctxs ->].
  match goal with
  | |- context [strengthen ?st ?id ?w ?i ?len ?t] =>
      pose proof (strengthen_ends id t len w st i) as Hs;
      pose proof (strengthen_sessions id t len w st i) as Hl;
      destruct (strengthen st id w i len t) as [st' b]
  end.
  cbn [fst snd] in Hs, Hl.
  assert (Hb : b = true).
  { apply Hs.
    - cbn [neurons logAccess]. rewrite upsertNeuron_known, String.eqb_refl.
      apply orb_true_r.
    - eapply Forall_impl; [|exact Hw]. intros r Hr. cbn [neurons logAccess].
      now rewrite upsertNeuron_known, Hr. }
  subst b. cbn [fst store sessionId updateSession sessions].
  split; [|reflexivity]. rewrite Hl. cbn [logAccess sessions].
  destruct (upsertNeuron_others (store e) (neuron_id type path) type path 1
              (match getNeuron (store e) (neuron_id type path) with
               | Some n => myelination n | None => 0 end)
              now (JSON_stringify (add_context ctxs query))) as (_ & _ & _ & ->).
  reflexivity.
Qed.

Lemma tokens_of_snoc (calls : list (string * NeuronType * option string * Z))
    (c : string * NeuronType * option string * Z) :
  tokens_of (calls ++ [c]) = (tokens_of calls + cost_of (call_type c))%Z.
Proof.
  unfold tokens_of. induction calls as [|d calls IH]; cbn; [lia|].
  cbn in IH. rewrite IH. lia.
Qed.

(** X23.  The counters of the session: after a session that started on an
    empty database at [now0] and only recorded, the table of sessions holds
    one row, that of the session, which counts every call and charges 1500
    tokens to each call for a file and 500 to each other call. *)
Theorem session_counts_calls (now0 : Z)
    (calls : list (string * NeuronType * option string * Z)) :
  let e := run (BrainBoxDB_new empty_store now0) (record_ops calls) in
  exists row,
    sessions (store e) = [row] /\
    ses_id row = sessionId e /\ started_at row = now0 /\ ended_at row = None /\
    total_accesses row = COUNT calls /\
    tokens_used row = tokens_of calls.
Proof.
  cbv zeta.
  assert (G : let e := run (BrainBoxDB_new empty_store now0) (record_ops calls) in
              decodable (store e) /\ window_known e /\
              sessions (store e)
              = [mkSession (sessionId e) now0 None (COUNT calls) (tokens_of calls) 0 0]).
  { induction calls as [|[[[p t] q] n] calls IH] using rev_ind; cbv zeta.
    - split; [constructor|]. split; [constructor|]. reflexivity.
    - rewrite record_ops_snoc, run_app.
      set (e := run (BrainBoxDB_new empty_store now0) (record_ops calls)) in *.
      cbv zeta in IH. destruct IH as (Hd & Hw & Hs).
      change (run e [OpRecord p t q n]) with (fst (record e p t q n)).
      destruct (record_window_known e p t q n Hd Hw) as [_ Hw'].
      destruct (record_session e p t q n Hd Hw) as [Hses Hsid].
      split; [now apply record_decodable|]. split; [assumption|].
      rewrite Hses, Hsid. cbn [updateSession sessions]. rewrite Hs. cbn [map ses_id].
      rewrite String.eqb_refl. cbn [started_at ended_at total_accesses tokens_used
        tokens_saved hit_rate].
      rewrite tokens_of_snoc. cbn [call_type]. unfold COUNT.
      rewrite length_app. cbn [List.length]. do 2 f_equal. lia. }
  cbv zeta in G. destruct G as (_ & _ & ->).
  eexists. split; [reflexivity|]. cbn. repeat split.
Qed.

(** ** What brings a result in *)

Lemma searchByContext_like (st : Store) (pattern : string) (limit : Z)
    (rows : list Neuron) (n : Neuron) :
  searchByContext st pattern limit = Returns rows -> In n rows ->
  like pattern (contexts n) = true.
Proof.
  unfold searchByContext, sort_desc. destruct (_ && _); [discriminate|].
  intros [= <-] H. apply LIMIT_In, sort_by_In, filter_In in H. tauto.
Qed.

Lemma directMatches_keyword (st : Store) (query : string) (candidates : list Neuron) :
  directMatches st (keywords_of query) = Returns candidates ->
  Forall (matches_keyword query) candidates.
Proof.
  apply directMatches_from. intros kw rows Hkw E.
  apply Forall_forall. intros n Hn. exists kw. split; [assumption|].
  eapply searchByContext_like; eauto.
Qed.

Lemma direct_step_match (st : Store) (type : NeuronType) (query : string) (now : Z)
    (acc acc' : RecallState) (n : Neuron) :
  In n (neurons st) -> matches_keyword query n ->
  Forall (direct_match st query type) (fst acc) ->
  direct_step type query now acc n = Returns acc' ->
  Forall (direct_match st query type) (fst acc').
Proof.
  intros Hin Hkw Hacc. unfold direct_step. destruct acc as [results activated].
  destruct (negb _) eqn:Et; [now intros [= <-]|].
  destruct (computeConfidence n query now) as [c|]; [|discriminate].
  destruct (Qltb c CONFIDENCE_GATE); [now intros [= <-]|].
  destruct (parseNeuron n) as [pn|] eqn:Ep; [|discriminate].
  intros [= <-]. cbn [fst] in *. apply Forall_app. split; [assumption|].
  constructor; [|constructor]. unfold direct_match. cbn.
  destruct (parseNeuron_row n pn Ep) as [-> _].
  split; [reflexivity|]. split; [assumption|].
  split; [apply NeuronType_eqb_eq; now apply negb_false_iff | assumption].
Qed.

Lemma getSynapses_from (st : Store) (source : string) (syn : Synapse) :
  In syn (getSynapses st source) -> In syn (synapses st) /\ source_id syn = source.
Proof.
  unfold getSynapses, sort_desc. intro H. apply sort_by_In, sort_by_In, filter_In in H.
  destruct H as [H E]. split; [assumption | now apply String.eqb_eq].
Qed.

Lemma spread_step_justified (st : Store) (query : string) (type : NeuronType)
    (seed : RecallResult) (acc acc' : RecallState) (syn : Synapse) :
  direct_match st query type seed ->
  In syn (seed_synapses st seed) ->
  Forall (justified st query type) (fst acc) ->
  spread_step st type seed acc syn = Returns acc' ->
  Forall (justified st query type) (fst acc').
Proof.
  intros (_ & Hseed & Htype & Hkw) Hsyn Hacc. unfold spread_step.
  destruct acc as [results activated].
  destruct (Qltb (weight syn) 0.3 || _) eqn:Ew; [now intros [= <-]|].
  destruct (getNeuron st (target_id syn)) as [target|] eqn:E; [|now intros [= <-]].
  destruct (negb _); [now intros [= <-]|].
  destruct (Qltb _ CONFIDENCE_GATE); [now intros [= <-]|].
  destruct (parseNeuron target) as [pn|] eqn:Ep; [|discriminate].
  intros [= <-]. cbn [fst] in *. apply Forall_app. split; [assumption|].
  constructor; [|constructor]. unfold justified. cbn.
  destruct (parseNeuron_row target pn Ep) as [-> _].
  apply getNeuron_in in E. destruct E as [_ Hid].
  apply orb_false_iff in Ew. destruct Ew as [Ew _]. apply Qltb_false in Ew.
  unfold seed_synapses in Hsyn. apply firstn_In, getSynapses_from in Hsyn.
  destruct Hsyn as [Hs Hsrc].
  exists syn, (row (neuron seed)). repeat split; try assumption. now rewrite Hid.
Qed.

Lemma myelin_step_justified (st : Store) (query : string) (type : NeuronType)
    (activated : list string) (results results' : list RecallResult) (n : Neuron) :
  Forall (justified st query type) results ->
  myelin_step activated results n = Returns results' ->
  Forall (justified st query type) results'.
Proof.
  intros Hacc. unfold myelin_step.
  destruct (activated_has _ _); [now intros [= <-]|].
  destruct (Qltb _ 0.15) eqn:Eg; [now intros [= <-]|].
  destruct (parseNeuron n) as [pn|] eqn:Ep; [|discriminate].
  intros [= <-]. apply Forall_app. split; [assumption|].
  constructor; [|constructor]. unfold justified. cbn.
  destruct (parseNeuron_row n pn Ep) as [-> _].
  apply Qltb_false in Eg. lra.
Qed.

(** X24.  Nothing comes out of [recall] without a reason.  A direct result
    has a keyword of the query that matches its stored contexts; a spread
    result is the target of a synapse of the store, of weight 0.3 at least,
    whose source is a neuron of the type asked for that a keyword matches; a
    myelinated result has a myelination of 0.3 at least. *)
Theorem recall_results_justified (e : Engine) (query : string) (type : NeuronType)
    (limit now : Z) (rs : list RecallResult) :
  snd (recall e query type limit now) = Returns rs ->
  Forall (justified (store e) query type) rs.
Proof.
  unfold recall. cbn [snd]. rewrite ensureOpen_store. unfold recall_results.
  set (st := store e).
  destruct (directMatches _ _) as [candidates|] eqn:H0; [|discriminate].
  destruct (foldM _ _ _) as [[frontier activated]|] eqn:H1; [|discriminate].
  destruct (spread_phase _ _ _ _) as [[results act]|] eqn:H2; [|discriminate].
  destruct (myelin_phase _ _ _ _) as [final|] eqn:H3; [|discriminate].
  intros [= <-].
  assert (G1 : Forall (direct_match st query type) (fst (frontier, activated))).
  { pose proof (directMatches_keyword st query _ H0) as Hk. rewrite Forall_forall in Hk.
    eapply (foldM_keeps (fun acc => Forall (direct_match st query type) (fst acc)));
      [| |exact H1].
    - intros x b b' Hx Hb E. eapply direct_step_match; eauto using directMatches_In.
    - constructor. }
  cbn [fst] in G1.
  assert (G1' : Forall (justified st query type) frontier).
  { eapply Forall_impl; [|exact G1]. intros r (Hp & _ & _ & Hkw).
    unfold justified. now rewrite Hp. }
  assert (G2 : Forall (justified st query type) (fst (results, act))).
  { unfold spread_phase in H2. rewrite Forall_forall in G1.
    eapply (foldM_keeps (fun acc => Forall (justified st query type) (fst acc)));
      [| |exact H2].
    - intros seed b b' Hseed Hb E.
      eapply (foldM_keeps (fun acc => Forall (justified st query type) (fst acc)));
        [| |exact E].
      + intros syn c c' Hsyn Hc E'. eapply spread_step_justified; eauto.
      + assumption.
    - assumption. }
  cbn [fst] in G2.
  assert (G3 : Forall (justified st query type) final).
  { unfold myelin_phase in H3. destruct (_ <? _)%Z; [|now injection H3 as <-].
    eapply (foldM_keeps (fun rs => Forall (justified st query type) rs)); [| |exact H3].
    - intros n b b' _ Hb E. eapply myelin_step_justified; eauto.
    - assumption. }
  rewrite Forall_forall in *. intros r Hr. apply G3.
  apply slice_to_In in Hr. unfold sort_desc in Hr. now apply sort_by_In in Hr.
Qed.

Lemma recall_results_justified_witness :
  exists rs,
    snd (recall pair_xy "foo" file 5 3) = Returns rs /\
    Forall (justified (store pair_xy) "foo" file) rs.
Proof.
  assert (H : exists rs, snd (recall pair_xy "foo" file 5 3) = Returns rs)
    by (vm_compute; eauto).
  destruct H as [rs H]. exists rs. split; [exact H|].
  exact (recall_results_justified pair_xy "foo" file 5 3 rs H).
Defined.

(** * The Hebbian step and the spread gate, through [record] and [recall] *)

(** ** Both directions of a pair *)

Lemma records_ready (now0 : Z) (calls : list (string * NeuronType * option string * Z)) :
  let e := run (BrainBoxDB_new empty_store now0) (record_ops calls) in
  decodable (store e) /\ window_known e /\ NoDup (recentAccesses e) /\
  symmetric (store e).
Proof.
  cbv zeta.
  assert (H0 : let e := BrainBoxDB_new empty_store now0 in
               decodable (store e) /\ window_known e /\ NoDup (recentAccesses e) /\
               symmetric (store e)).
  { cbv zeta. split; [constructor|]. split; [constructor|]. split; [constructor|].
    intros a b. reflexivity. }
  cbv zeta in H0. revert H0. generalize (BrainBoxDB_new empty_store now0).
  unfold run. induction calls as [|[[[p t] q] n] calls IH]; intros e He; [assumption|].
  cbn [record_ops map fold_left step]. apply IH.
  destruct He as (Hd & Hw & Hn & Hs).
  destruct (record_window_known e p t q n Hd Hw) as [_ Hw'].
  split; [now apply record_decodable|]. split; [assumption|].
  split; [|now apply record_symmetric].
  destruct (record_window e p t q n) as [-> | ->]; [assumption|].
  destruct (remove_first_NoDup (neuron_id t p) (recentAccesses e) Hn) as [Hn' Hi].
  unfold track. destruct (_ <? _)%nat; [apply NoDup_tl|]; now apply NoDup_snoc.
Qed.

(** C8.  From an empty database, after every sequence of [record] calls, a
    synapse from [a] to [b] exists exactly when one from [b] to [a] does, and
    the two have the same weight.  A further call of [record], for the id
    [id], returns.  For the id [r] at index [i] of the window, other than
    [id], it upserts both [(id, r)] and [(r, id)] with the same delta,
    [LEARNING_RATE * (i + 1) / |window|]: a weight [w] becomes
    [min(w + delta * (1 - w), 1)], and a synapse that was not there is
    inserted with the weight [delta].  It leaves every other pair as it was,
    and the synapses are symmetric again. *)
Theorem synapses_symmetric (now0 : Z) (calls : list (string * NeuronType * option string * Z))
    (path : string) (type : NeuronType) (query : option string) (now : Z) :
  let e := run (BrainBoxDB_new empty_store now0) (record_ops calls) in
  let id := neuron_id type path in
  let st := store e in
  let st' := store (fst (record e path type query now)) in
  (forall a b, weight_of st a b = weight_of st b a) /\
  snd (record e path type query now) = Returns tt /\
  (forall i r,
     nth_error (recentAccesses e) i = Some r -> r <> id ->
     let delta := LEARNING_RATE *
                  (inject_Z (Z.of_nat (i + 1))
                   / inject_Z (Z.of_nat (List.length (recentAccesses e)))) in
     weight_of st' id r
       = Some (match weight_of st id r with
               | Some w => MIN (w + delta * (1 - w)) 1
               | None => delta
               end) /\
     weight_of st' r id
       = Some (match weight_of st r id with
               | Some w => MIN (w + delta * (1 - w)) 1
               | None => delta
               end) /\
     weight_of st' id r = weight_of st' r id) /\
  (forall a b,
     ~ (a = id /\ In b (recentAccesses e)) -> ~ (b = id /\ In a (recentAccesses e)) ->
     weight_of st' a b = weight_of st a b) /\
  (forall a b, weight_of st' a b = weight_of st' b a).
Proof.
  cbv zeta.
  destruct (records_ready now0 calls) as (Hd & Hw & Hn & Hs).
  set (e := run (BrainBoxDB_new empty_store now0) (record_ops calls)) in *.
  destruct (record_window_known e path type query now Hd Hw) as [Hret _].
  pose proof (record_symmetric e path type query now Hs) as Hs'.
  split; [exact Hs|]. split; [exact Hret|]. split; [|split; [|exact Hs']].
  - intros i r Hi Hr.
    destruct (record_weights e path type query now i r Hd Hw Hn Hi Hr) as [G1 G2].
    split; [exact G1|]. split; [exact G2|]. apply Hs'.
  - intros a b Ha Hb.
    destruct (stored_contexts_returns (store e) (neuron_id type path) Hd) as [ctxs Hc].
    destruct (record_synapses e path type query now ctxs Hc)
      as (st1 & st' & ok & Hs1 & Hrun & Hsyn & _).
    assert (W1 : weight_of st1 a b = weight_of (store e) a b)
      by (unfold weight_of; now rewrite Hs1).
    assert (W' : weight_of (store (fst (record e path type query now))) a b
                 = weight_of st' a b)
      by (unfold weight_of; now rewrite Hsyn).
    rewrite W', <- W1.
    pose proof (strengthen_untouched (neuron_id type path) now
                  (List.length (recentAccesses e)) (recentAccesses e) st1 0 a b Ha Hb) as H.
    now rewrite Hrun in H.
Qed.

(** ** The spread gate *)
















(** ** A keyword too long for [LIKE] *)

Lemma append_empty (s : string) : (s ++ "")%string = s.
Proof. induction s as [|c s IH]; [reflexivity|]. cbn. now rewrite IH. Qed.

Lemma word_of_length (n : nat) : String.length (word_of n) = n.
Proof. induction n as [|n IH]; [reflexivity|]. cbn. now rewrite IH. Qed.

Lemma word_of_lower (n : nat) : toLowerCase (word_of n) = word_of n.
Proof. induction n as [|n IH]; [reflexivity|]. cbn [word_of toLowerCase]. now rewrite IH. Qed.

Lemma word_of_split (n : nat) (cur : string) (prev_ws : bool) :
  split_ws_from (word_of n) cur prev_ws = [(cur ++ word_of n)%string].
Proof.
  revert cur prev_ws. induction n as [|n IH]; intros cur prev_ws.
  - cbn. now rewrite append_empty.
  - cbn [word_of split_ws_from].
    replace (is_space "a") with false by reflexivity.
    rewrite IH, append_assoc. reflexivity.
Qed.

Lemma word_of_keywords (n : nat) : (2 < n)%nat -> keywords_of (word_of n) = [word_of n].
Proof.
  intro H. unfold keywords_of, split_ws. rewrite word_of_lower, word_of_split.
  cbn [append filter]. rewrite word_of_length.
  apply Nat.ltb_lt in H. now rewrite H.
Qed.

(** X25.  [recall] raises on one long word.  A query of one word of 49999 letters
    or more makes the pattern [%word%] of more than 50000 bytes, which
    SQLite refuses as soon as there is a neuron to read; nothing in [recall]
    catches it. *)
Theorem recall_long_keyword_throws (e : Engine) (n : Z) (type : NeuronType) (limit now : Z) :
  (49999 <= n)%Z ->
  has_rows (neurons (store e)) = true ->
  snd (recall e (word_of (Z.to_nat n)) type limit now) = Throws LikePatternError.
Proof.
  intros Hn Hrows. unfold recall. cbn [snd]. rewrite ensureOpen_store.
  unfold recall_results. rewrite word_of_keywords by lia.
  pose proof (directMatches_cases (store e) [word_of (Z.to_nat n)]) as H.
  unfold search_fails in H. cbn [existsb] in H. rewrite Hrows in H.
  unfold too_complex, SQLITE_MAX_LIKE_PATTERN_LENGTH in H.
  rewrite !length_append, word_of_length in H. cbn [String.length] in H.
  replace (50000 <? _)%Z with true in H by (symmetry; apply Z.ltb_lt; lia).
  cbn [orb andb] in H. now rewrite H.
Qed.

Lemma recall_long_keyword_throws_witness :
  (49999 <= 49999)%Z /\
  has_rows (neurons (store engine_ac)) = true /\
  snd (recall engine_ac (word_of (Z.to_nat 49999)) file 5 0) = Throws LikePatternError.
Proof.
  assert (H1 : (49999 <= 49999)%Z) by lia.
  assert (H2 : has_rows (neurons (store engine_ac)) = true) by reflexivity.
  split; [exact H1|]. split; [exact H2|].
  apply (recall_long_keyword_throws engine_ac 49999 file 5 0 H1 H2).
Defined.
